(** * Rope2D / Rope3D: a shallow embedding of the Cables rope operators

    The two operators [Ops.Local.Custom.Rope3D] and its 2D sibling simulate a
    rope as a chain of particles: damped Verlet motion for the free points,
    two endpoints pinned to the "Top" and "Bottom" input ports, an iterated
    distance-constraint solver, and a sleep controller in the frame callback.

    JavaScript numbers are IEEE 754 binary64 values, so they are embedded as
    Rocq's primitive floats; Leibniz equality on [float] is bit-for-bit
    equality (with a single NaN, as in JavaScript).  Integer ports are
    embedded as [Z], with [x | 0] written out as the 32-bit wrap-around.
    Arrays of point objects are lists of records, updated by index; every
    point object of the source is created by its own object literal, so no
    two array cells alias and a functional update of one cell is faithful.
    A property access on [undefined] raises a [TypeError]: such code returns
    [None] in the option monad.  [Math.hypot] is implementation-approximated
    in the language, so the operators take it as a parameter and every
    property is proved for every such function.

    The file has the JavaScript primitives and the loops first, then the two
    operators ([Rope3D], [Rope2D]) and sample chains, then the facts about
    each operator, then the properties C1 to C10, each stated of both
    operators, and their instances on the sample chains. *)

From Stdlib Require Import ZArith Lia Floats.
From stdpp Require Import base option list.

Set Warnings "-inexact-float".
Set Default Proof Using "Type".

(** ** JavaScript primitives used by the operators *)

Module JS.

(** [v | 0]: ToInt32 on an integer-valued number. *)
Definition to_int32 (v : Z) : Z := ((v + 2 ^ 31) mod 2 ^ 32 - 2 ^ 31)%Z.

(** ToBoolean on a number: [+0], [-0] and [NaN] are falsy. *)
Definition truthy (v : float) : bool := negb (is_nan v) && negb (v =? 0)%float.

(** ToNumber on a value that is a number or [null]. *)
Definition to_number (v : option float) : float := default 0%float v.

(** An array index or length read as a number. *)
Definition number_of_nat (n : nat) : float := of_uint63 (Uint63.of_Z (Z.of_nat n)).

(** An integer read as a number. *)
Definition number_of_Z (n : Z) : float := of_uint63 (Uint63.of_Z n).

(** [Math.max] on two numbers: NaN is contagious and [+0] is above [-0]. *)
Definition Math_max (a b : float) : float :=
  if is_nan a || is_nan b then nan
  else if (a <? b)%float then b
  else if (b <? a)%float then a
  else match classify a with NZero => b | _ => a end.

(** [Math.max] on three numbers. *)
Definition Math_max3 (a b c : float) : float := Math_max (Math_max a b) c.

(** A reference [Math.hypot]: the language leaves the function
    implementation-approximated, so the operators take it as a parameter;
    this instance is used to run them on concrete inputs. *)
Definition hypot3_ref (a b c : float) : float := sqrt (a * a + b * b + c * c)%float.
Definition hypot2_ref (a b : float) : float := sqrt (a * a + b * b)%float.

End JS.

(** ** Loops *)

(** [for (let i = lo; i < lo + count; i++) body], on a state that cannot fail. *)
Fixpoint for_range {S : Type} (body : nat → S → S) (i count : nat) (s : S) : S :=
  match count with
  | O => s
  | Datatypes.S k => for_range body (Datatypes.S i) k (body i s)
  end.

(** The same loop when the body may raise. *)
Fixpoint for_rangeM {S : Type} (body : nat → S → option S) (i count : nat) (s : S)
  : option S :=
  match count with
  | O => Some s
  | Datatypes.S k => s' ← body i s; for_rangeM body (Datatypes.S i) k s'
  end.

(** Passes of a pass function, run one after the other. *)
Fixpoint repeatM {S : Type} (pass : S → option S) (count : nat) (s : S) : option S :=
  match count with
  | O => Some s
  | Datatypes.S k => s' ← pass s; repeatM pass k s'
  end.

(** The segments of one pass, visited in the order of a list of indices. *)
Definition visit_in_order {S : Type} (body : nat → S → option S) (order : list nat)
  (s : S) : option S :=
  fold_left (λ acc i, acc ≫= body i) order (Some s).

(** The largest of a list of speeds, starting from 0, by the comparison the
    source uses ([v > m]). *)
Definition max_speed (speeds : list float) : float :=
  fold_left (λ m v, if (m <? v)%float then v else m) speeds 0%float.

(** ** The 3D operator *)

Module Rope3D.

Local Open Scope float_scope.

(** The point objects [{x, y, z}]. *)
Record point := Point { x : float; y : float; z : float }.

(** The input ports, as read by [get()]. *)
Record ports := Ports {
  inTopX : float; inTopY : float; inTopZ : float;
  inBottomX : float; inBottomY : float; inBottomZ : float;
  inSegments : Z;
  inLength : float;
  inGravity : float;
  inIter : Z;
  inDamping : float
}.

(** The module-level variables of the operator. *)
Record state := State {
  positions : list point;
  prevPositions : list point;
  lastTime : float;
  isSleeping : bool;
  sleepCounter : Z;
  lastTopX : option float; lastTopY : option float; lastTopZ : option float;
  lastBottomX : option float; lastBottomY : option float; lastBottomZ : option float
}.

Definition SLEEP_FRAMES : Z := 6.
Definition VEL_EPS : float := 1e-3.
Definition INPUT_EPS : float := 1e-5.

(** The state when the operator is loaded; [t0] is the clock then. *)
Definition initial (t0 : float) : state :=
  State [] [] t0 false 0 None None None None None None.

Definition set_chain (ps qs : list point) (st : state) : state :=
  State ps qs (lastTime st) (isSleeping st) (sleepCounter st)
    (lastTopX st) (lastTopY st) (lastTopZ st)
    (lastBottomX st) (lastBottomY st) (lastBottomZ st).

Definition set_prevPositions (qs : list point) (st : state) : state :=
  set_chain (positions st) qs st.

Definition set_sleep (sleeping : bool) (counter : Z) (st : state) : state :=
  State (positions st) (prevPositions st) (lastTime st) sleeping counter
    (lastTopX st) (lastTopY st) (lastTopZ st)
    (lastBottomX st) (lastBottomY st) (lastBottomZ st).

Definition set_lastTime (t : float) (st : state) : state :=
  State (positions st) (prevPositions st) t (isSleeping st) (sleepCounter st)
    (lastTopX st) (lastTopY st) (lastTopZ st)
    (lastBottomX st) (lastBottomY st) (lastBottomZ st).

Definition set_last (tx ty tz bx by_ bz : float) (st : state) : state :=
  State (positions st) (prevPositions st) (lastTime st) (isSleeping st)
    (sleepCounter st) (Some tx) (Some ty) (Some tz) (Some bx) (Some by_) (Some bz).

(** [n] in [initRope]: [Math.max(1, inSegments.get() | 0)]. *)
Definition segments (io : ports) : Z := Z.max 1 (JS.to_int32 (inSegments io)).

(** [initRope(topX, topY, topZ)]. *)
Definition initRope (io : ports) (topX topY topZ : float) (st : state) : state :=
  let n := segments io in
  let L := inLength io in
  let segLen := L / JS.number_of_Z n in
  let '(ps, qs) :=
    for_range (λ i '(ps, qs),
        let x := topX in
        let y := topY - segLen * JS.number_of_nat i in
        let z := topZ in
        (ps ++ [Point x y z], qs ++ [Point x y z]))
      0 (Z.to_nat n + 1) ([], []) in
  set_sleep false 0 (set_chain ps qs st).

(** The straight line the written description names: [n + 1] points from
    the anchor down the y axis, [totalLength / n] apart. *)
Definition seed (io : ports) (topX topY topZ : float) : list point :=
  map (λ i, Point topX (topY - inLength io / JS.number_of_Z (segments io)
                               * JS.number_of_nat i) topZ)
      (seq 0 (Z.to_nat (segments io) + 1)).

(** The body of the Verlet loop of [step], for the free point [i]; the
    loop state is the two arrays and [maxVel]. *)
Definition integrate_point (g damping dt : float) (i : nat)
  (s : list point * list point * float) : option (list point * list point * float) :=
  let '(ps, qs, maxVel) := s in
  p ← ps !! i;
  prev ← qs !! i;
  let oldX := x p in
  let oldY := y p in
  let oldZ := z p in
  let vx := (x p - x prev) * damping in
  let vy := (y p - y prev) * damping in
  let vz := (z p - z prev) * damping in
  let prev' := Point oldX oldY oldZ in
  let p' := Point (x p + vx) (y p + (vy + g * dt * dt)) (z p + vz) in
  let vMag := JS.Math_max3 (abs vx) (abs vy) (abs vz) in
  Some (<[i := p']> ps, <[i := prev']> qs, if maxVel <? vMag then vMag else maxVel).

(** Writing the three coordinates of point [i] of both arrays. *)
Definition pin_point (i : nat) (px py pz : float) (s : list point * list point)
  : option (list point * list point) :=
  let '(ps, qs) := s in
  _ ← ps !! i;
  let ps := <[i := Point px py pz]> ps in
  _ ← qs !! i;
  p ← ps !! i;
  Some (ps, <[i := Point (x p) (y p) (z p)]> qs).

(** The quantities the written description names, for a free point with
    current position [p] and previous position [prev]: its velocity, its
    speed (the largest absolute coordinate of the velocity) and the point
    it moves to. *)
Definition velocity (damping : float) (p prev : point) : point :=
  Point ((x p - x prev) * damping) ((y p - y prev) * damping) ((z p - z prev) * damping).

Definition speed (v : point) : float := JS.Math_max3 (abs (x v)) (abs (y v)) (abs (z v)).

Definition advance (g dt : float) (p v : point) : point :=
  Point (x p + x v) (y p + (y v + g * dt * dt)) (z p + z v).

(** The free points of a chain: all but the first and the last. *)
Definition free_points (ps : list point) : list point :=
  take (length ps - 2) (drop 1 ps).

(** The speeds of the free points of a chain. *)
Definition free_speeds (damping : float) (ps qs : list point) : list float :=
  zip_with (λ p prev, speed (velocity damping p prev)) (free_points ps) (free_points qs).

(** The vector from [p1] to [p2], and a point displaced by [+ d * c] or by
    [- d * c]. *)
Definition delta (p1 p2 : point) : point :=
  Point (x p2 - x p1) (y p2 - y p1) (z p2 - z p1).

Definition plus_scaled (p d : point) (c : float) : point :=
  Point (x p + x d * c) (y p + y d * c) (z p + z d * c).

Definition minus_scaled (p d : point) (c : float) : point :=
  Point (x p - x d * c) (y p - y d * c) (z p - z d * c).

(** The speeds of the free points below index [j]. *)
Definition speeds_below (damping : float) (j : nat) (ps qs : list point) : list float :=
  zip_with (λ p prev, speed (velocity damping p prev))
    (take (j - 1) (drop 1 ps)) (take (j - 1) (drop 1 qs)).

(** The two arrays have the same length: every reachable state has it,
    as [initRope] alone assigns the arrays. *)
Definition chain_ok (st : state) : Prop :=
  length (prevPositions st) = length (positions st).

Section WithHypot.

(** [Math.hypot] on three numbers. *)
Context (hypot : float → float → float → float).

(** The body of the inner constraint loop of [step], for segment [i]. *)
Definition satisfy_segment (restLen : float) (n i : nat) (ps : list point)
  : option (list point) :=
  p1 ← ps !! i;
  p2 ← ps !! (i + 1)%nat;
  let dx := x p2 - x p1 in
  let dy := y p2 - y p1 in
  let dz := z p2 - z p1 in
  let dist := hypot dx dy dz in
  if negb (JS.truthy dist) then Some ps
  else
    let diff := (dist - restLen) / dist in
    if (i =? 0)%nat then
      Some (<[(i + 1)%nat := Point (x p2 - dx * diff) (y p2 - dy * diff) (z p2 - dz * diff)]> ps)
    else if (i =? n - 1)%nat then
      Some (<[i := Point (x p1 + dx * diff) (y p1 + dy * diff) (z p1 + dz * diff)]> ps)
    else
      let half := diff * 0.5 in
      let ps := <[i := Point (x p1 + dx * half) (y p1 + dy * half) (z p1 + dz * half)]> ps in
      Some (<[(i + 1)%nat := Point (x p2 - dx * half) (y p2 - dy * half) (z p2 - dz * half)]> ps).

(** One pass of the solver: the inner loop over the segments. *)
Definition relax_pass (restLen : float) (n : nat) (ps : list point)
  : option (list point) :=
  for_rangeM (satisfy_segment restLen n) 0 n ps.

(** The outer loop of the solver. *)
Definition solve (restLen : float) (n : nat) (iters : nat) (ps : list point)
  : option (list point) :=
  repeatM (relax_pass restLen n) iters ps.

(** [iters] in [step]: [Math.max(1, inIter.get() | 0)]. *)
Definition iterations (io : ports) : Z := Z.max 1 (JS.to_int32 (inIter io)).

(** The first half of [step]: the bottom pin, the Verlet loop and the
    top pin. *)
Definition move_points (io : ports) (dt topX topY topZ bottomX bottomY bottomZ : float)
  (n : nat) (s : list point * list point)
  : option (list point * list point * float) :=
  let g := inGravity io in
  let damping := inDamping io in
  let maxVel := 0 in
  s ← pin_point n bottomX bottomY bottomZ s;
  '(ps, qs, maxVel) ← for_rangeM (integrate_point g damping dt) 1 (n - 1) (s, maxVel);
  s ← pin_point 0 topX topY topZ (ps, qs);
  Some (s, maxVel).

(** [step(dt, topX, topY, topZ, bottomX, bottomY, bottomZ)]; the result
    is the new state and the returned [maxVel].  [positions.length - 1]
    is [-1] on the empty array and [0] here: both take the early
    return. *)
Definition step (io : ports) (dt topX topY topZ bottomX bottomY bottomZ : float)
  (st : state) : option (state * float) :=
  let n := (length (positions st) - 1)%nat in
  if (n <? 1)%nat then Some (st, 0)
  else
    let L := inLength io in
    let restLen := L / JS.number_of_nat n in
    let iters := iterations io in
    '(ps, qs, maxVel) ←
      move_points io dt topX topY topZ bottomX bottomY bottomZ n
        (positions st, prevPositions st);
    ps ← solve restLen n (Z.to_nat iters) ps;
    Some (set_chain ps qs st, maxVel).

(** [inputsMoved] in the frame callback. *)
Definition inputsMoved (io : ports) (st : state) : bool :=
  bool_decide (lastTopX st = None)
  || (INPUT_EPS <? abs (inTopX io - JS.to_number (lastTopX st)))
  || (INPUT_EPS <? abs (inTopY io - JS.to_number (lastTopY st)))
  || (INPUT_EPS <? abs (inTopZ io - JS.to_number (lastTopZ st)))
  || (INPUT_EPS <? abs (inBottomX io - JS.to_number (lastBottomX st)))
  || (INPUT_EPS <? abs (inBottomY io - JS.to_number (lastBottomY st)))
  || (INPUT_EPS <? abs (inBottomZ io - JS.to_number (lastBottomZ st))).

(** [dt] at the start of the frame callback, clamped to 0.05. *)
Definition frame_dt (now : float) (st : state) : float :=
  let dt := (now - lastTime st) / 1000 in
  if 0.05 <? dt then 0.05 else dt.

(** The loop [prevPositions[i] = positions[i]] (per coordinate) of the
    wake-up and of the fall-asleep branches. *)
Definition sync_prev (st : state) : option state :=
  qs ← for_rangeM (λ i qs,
          _ ← qs !! i;
          p ← positions st !! i;
          Some (<[i := Point (x p) (y p) (z p)]> qs))
        0 (length (positions st)) (prevPositions st);
  Some (set_prevPositions qs st).

(** The frame callback up to the sleep logic: the clock, the cache of
    the last inputs and the first seeding of the chain. *)
Definition begin_frame (io : ports) (now : float) (st : state) : state :=
  let st := set_lastTime now st in
  let st := set_last (inTopX io) (inTopY io) (inTopZ io)
              (inBottomX io) (inBottomY io) (inBottomZ io) st in
  if (length (positions st) =? 0)%nat
  then initRope io (inTopX io) (inTopY io) (inTopZ io) st
  else st.

(** The wake-up branch; [now'] is the second clock reading. *)
Definition wake (now' : float) (st : state) : option state :=
  st ← sync_prev (set_sleep false 0 st);
  Some (set_lastTime now' st).

(** The state the wake-up branch leaves: the sleep state cleared, the
    previous positions equal to the positions, the clock read again. *)
Definition woken (io : ports) (now now' : float) (st : state) : state :=
  set_lastTime now'
    (set_prevPositions (positions (begin_frame io now st))
       (set_sleep false 0 (begin_frame io now st))).

(** The bookkeeping after [step] in the frame callback. *)
Definition settle (moved : bool) (maxVel : float) (st : state) : option state :=
  if negb moved && (maxVel <? VEL_EPS) then
    let st := set_sleep (isSleeping st) (sleepCounter st + 1) st in
    if (SLEEP_FRAMES <=? sleepCounter st)%Z
    then sync_prev (set_sleep true (sleepCounter st) st)
    else Some st
  else Some (set_sleep (isSleeping st) 0 st).

(** The exported array [x0, y0, z0, x1, y1, z1, ...]. *)
Definition flatten (ps : list point) : list float :=
  for_range (λ i flat,
      match ps !! i with
      | Some p => flat ++ [x p; y p; z p]
      | None => flat
      end) 0 (length ps) [].

(** [inUpdate.onTriggered]: one frame.  [now] and [now'] are the two
    readings of the clock; the result is the new state and the array
    sent to the output port. *)
Definition onTriggered (io : ports) (now now' : float) (st : state)
  : option (state * list float) :=
  let dt := frame_dt now st in
  let topX := inTopX io in
  let topY := inTopY io in
  let topZ := inTopZ io in
  let bottomX := inBottomX io in
  let bottomY := inBottomY io in
  let bottomZ := inBottomZ io in
  let moved := inputsMoved io st in
  let st := begin_frame io now st in
  '(st, dt) ←
    (if isSleeping st && moved
     then st ← wake now' st; Some (st, 0)
     else Some (st, dt));
  st ←
    (if negb (isSleeping st)
     then
       '(st, maxVel) ← step io dt topX topY topZ bottomX bottomY bottomZ st;
       settle moved maxVel st
     else Some st);
  Some (st, flatten (positions st)).

(** A frame as the host delivers it: the ports and the clock. *)
Record frame := Frame { f_ports : ports; f_now : float; f_now' : float }.

(** A run of frames. *)
Fixpoint run (fs : list frame) (st : state) : option state :=
  match fs with
  | [] => Some st
  | f :: fs =>
      '(st, _) ← onTriggered (f_ports f) (f_now f) (f_now' f) st;
      run fs st
  end.

(** What every reachable state satisfies (see [inv_initial],
    [inv_onTriggered], [inv_port_changed]): the two arrays have the same
    length, the counter of still frames is not negative and is below 6
    while awake, and an operator that was never seeded is awake with
    its counter at 0. *)
Definition inv (st : state) : Prop :=
  chain_ok st
  ∧ (0 ≤ sleepCounter st)%Z
  ∧ (isSleeping st = false → (sleepCounter st < SLEEP_FRAMES)%Z)
  ∧ (positions st = [] → isSleeping st = false ∧ sleepCounter st = 0%Z).

(** The value [step] returns in frame [f] when the frame calls it. *)
Definition frame_maxVel (f : frame) (st : state) : option float :=
  let io := f_ports f in
  snd <$> step io (frame_dt (f_now f) st) (inTopX io) (inTopY io) (inTopZ io)
            (inBottomX io) (inBottomY io) (inBottomZ io)
            (begin_frame io (f_now f) st).

(** A still frame: the inputs did not move beyond [INPUT_EPS] since the
    last frame and, if the operator is awake, [step] returns a value
    below [VEL_EPS]. *)
Definition still (f : frame) (st : state) : bool :=
  negb (inputsMoved (f_ports f) st)
  && (isSleeping st
      || match frame_maxVel f st with
         | Some maxVel => maxVel <? VEL_EPS
         | None => false
         end).

(** Consecutive still frames, each judged on the state it starts from. *)
Fixpoint still_run (fs : list frame) (st : state) : bool :=
  match fs with
  | [] => true
  | f :: fs =>
      still f st
      && match onTriggered (f_ports f) (f_now f) (f_now' f) st with
         | Some (st', _) => still_run fs st'
         | None => true
         end
  end.

End WithHypot.

(** A change of one input port by the host. *)
Inductive change :=
| SetTopX (v : float) | SetTopY (v : float) | SetTopZ (v : float)
| SetBottomX (v : float) | SetBottomY (v : float) | SetBottomZ (v : float)
| SetSegments (v : Z) | SetLength (v : float) | SetGravity (v : float)
| SetIter (v : Z) | SetDamping (v : float).

Definition write_port (c : change) (io : ports) : ports :=
  match c with
  | SetTopX v =>
      Ports v (inTopY io) (inTopZ io) (inBottomX io) (inBottomY io) (inBottomZ io)
        (inSegments io) (inLength io) (inGravity io) (inIter io) (inDamping io)
  | SetTopY v =>
      Ports (inTopX io) v (inTopZ io) (inBottomX io) (inBottomY io) (inBottomZ io)
        (inSegments io) (inLength io) (inGravity io) (inIter io) (inDamping io)
  | SetTopZ v =>
      Ports (inTopX io) (inTopY io) v (inBottomX io) (inBottomY io) (inBottomZ io)
        (inSegments io) (inLength io) (inGravity io) (inIter io) (inDamping io)
  | SetBottomX v =>
      Ports (inTopX io) (inTopY io) (inTopZ io) v (inBottomY io) (inBottomZ io)
        (inSegments io) (inLength io) (inGravity io) (inIter io) (inDamping io)
  | SetBottomY v =>
      Ports (inTopX io) (inTopY io) (inTopZ io) (inBottomX io) v (inBottomZ io)
        (inSegments io) (inLength io) (inGravity io) (inIter io) (inDamping io)
  | SetBottomZ v =>
      Ports (inTopX io) (inTopY io) (inTopZ io) (inBottomX io) (inBottomY io) v
        (inSegments io) (inLength io) (inGravity io) (inIter io) (inDamping io)
  | SetSegments v =>
      Ports (inTopX io) (inTopY io) (inTopZ io) (inBottomX io) (inBottomY io) (inBottomZ io)
        v (inLength io) (inGravity io) (inIter io) (inDamping io)
  | SetLength v =>
      Ports (inTopX io) (inTopY io) (inTopZ io) (inBottomX io) (inBottomY io) (inBottomZ io)
        (inSegments io) v (inGravity io) (inIter io) (inDamping io)
  | SetGravity v =>
      Ports (inTopX io) (inTopY io) (inTopZ io) (inBottomX io) (inBottomY io) (inBottomZ io)
        (inSegments io) (inLength io) v (inIter io) (inDamping io)
  | SetIter v =>
      Ports (inTopX io) (inTopY io) (inTopZ io) (inBottomX io) (inBottomY io) (inBottomZ io)
        (inSegments io) (inLength io) (inGravity io) v (inDamping io)
  | SetDamping v =>
      Ports (inTopX io) (inTopY io) (inTopZ io) (inBottomX io) (inBottomY io) (inBottomZ io)
        (inSegments io) (inLength io) (inGravity io) (inIter io) v
  end.

(** The [onChange] callbacks the operator registers: the callback of the
    changed port, if it has one.  All five have the same body. *)
Definition onChange (c : change) : option (ports → state → state) :=
  match c with
  | SetSegments _ | SetLength _ | SetTopX _ | SetTopY _ | SetTopZ _ =>
      Some (λ io, initRope io (inTopX io) (inTopY io) (inTopZ io))
  | _ => None
  end.

(** Modelled from the spec: the host's parameter-change hooks, which are
    not part of the operator's file.  The host stores the new value of the
    port and then calls the port's [onChange] callback, if one is
    registered. *)
Definition port_changed (c : change) (w : ports * state) : ports * state :=
  let io := write_port c (fst w) in
  match onChange c with
  | Some callback => (io, callback io (snd w))
  | None => (io, snd w)
  end.

(** The states the operator can be in: it starts in [initial], and the
    host calls the frame callback and changes ports. *)
Inductive reachable (hypot : float → float → float → float) : state → Prop :=
| reach_initial (t0 : float) : reachable hypot (initial t0)
| reach_frame (io : ports) (now now' : float) (st st' : state) (out : list float) :
    reachable hypot st →
    onTriggered hypot io now now' st = Some (st', out) →
    reachable hypot st'
| reach_change (c : change) (io : ports) (st : state) :
    reachable hypot st →
    reachable hypot (snd (port_changed c (io, st))).

End Rope3D.

(** ** The 2D operator *)

Module Rope2D.

Local Open Scope float_scope.

(** The point objects [{x, y}]. *)
Record point := Point { x : float; y : float }.

(** The input ports, as read by [get()]. *)
Record ports := Ports {
  inTopX : float; inTopY : float;
  inBottomX : float; inBottomY : float;
  inSegments : Z;
  inLength : float;
  inGravity : float;
  inIter : Z;
  inDamping : float
}.

(** The module-level variables of the operator. *)
Record state := State {
  positions : list point;
  prevPositions : list point;
  lastTime : float;
  isSleeping : bool;
  sleepCounter : Z;
  lastTopX : option float; lastTopY : option float;
  lastBottomX : option float; lastBottomY : option float
}.

Definition SLEEP_FRAMES : Z := 6.
Definition VEL_EPS : float := 1e-3.
Definition INPUT_EPS : float := 1e-5.

(** The state when the operator is loaded; [t0] is the clock then. *)
Definition initial (t0 : float) : state :=
  State [] [] t0 false 0 None None None None.

Definition set_chain (ps qs : list point) (st : state) : state :=
  State ps qs (lastTime st) (isSleeping st) (sleepCounter st)
    (lastTopX st) (lastTopY st) (lastBottomX st) (lastBottomY st).

Definition set_prevPositions (qs : list point) (st : state) : state :=
  set_chain (positions st) qs st.

Definition set_sleep (sleeping : bool) (counter : Z) (st : state) : state :=
  State (positions st) (prevPositions st) (lastTime st) sleeping counter
    (lastTopX st) (lastTopY st) (lastBottomX st) (lastBottomY st).

Definition set_lastTime (t : float) (st : state) : state :=
  State (positions st) (prevPositions st) t (isSleeping st) (sleepCounter st)
    (lastTopX st) (lastTopY st) (lastBottomX st) (lastBottomY st).

Definition set_last (tx ty bx by_ : float) (st : state) : state :=
  State (positions st) (prevPositions st) (lastTime st) (isSleeping st)
    (sleepCounter st) (Some tx) (Some ty) (Some bx) (Some by_).

(** [n] in [initRope]: [Math.max(1, inSegments.get() | 0)]. *)
Definition segments (io : ports) : Z := Z.max 1 (JS.to_int32 (inSegments io)).

(** [initRope(topX, topY)]. *)
Definition initRope (io : ports) (topX topY : float) (st : state) : state :=
  let n := segments io in
  let L := inLength io in
  let segLen := L / JS.number_of_Z n in
  let '(ps, qs) :=
    for_range (λ i '(ps, qs),
        let x := topX in
        let y := topY - segLen * JS.number_of_nat i in
        (ps ++ [Point x y], qs ++ [Point x y]))
      0 (Z.to_nat n + 1) ([], []) in
  set_sleep false 0 (set_chain ps qs st).

(** The straight line the written description names: [n + 1] points from
    the anchor down the y axis, [totalLength / n] apart. *)
Definition seed (io : ports) (topX topY : float) : list point :=
  map (λ i, Point topX (topY - inLength io / JS.number_of_Z (segments io)
                               * JS.number_of_nat i))
      (seq 0 (Z.to_nat (segments io) + 1)).

(** The body of the Verlet loop of [step], for the free point [i]; the
    loop state is the two arrays and [maxVel]. *)
Definition integrate_point (g damping dt : float) (i : nat)
  (s : list point * list point * float) : option (list point * list point * float) :=
  let '(ps, qs, maxVel) := s in
  p ← ps !! i;
  prev ← qs !! i;
  let oldX := x p in
  let oldY := y p in
  let vx := (x p - x prev) * damping in
  let vy := (y p - y prev) * damping in
  let prev' := Point oldX oldY in
  let p' := Point (x p + vx) (y p + (vy + g * dt * dt)) in
  let vMag := JS.Math_max (abs vx) (abs vy) in
  Some (<[i := p']> ps, <[i := prev']> qs, if maxVel <? vMag then vMag else maxVel).

(** Writing the two coordinates of point [i] of both arrays. *)
Definition pin_point (i : nat) (px py : float) (s : list point * list point)
  : option (list point * list point) :=
  let '(ps, qs) := s in
  _ ← ps !! i;
  let ps := <[i := Point px py]> ps in
  _ ← qs !! i;
  p ← ps !! i;
  Some (ps, <[i := Point (x p) (y p)]> qs).

(** The quantities the written description names, for a free point with
    current position [p] and previous position [prev]: its velocity, its
    speed (the largest absolute coordinate of the velocity) and the point
    it moves to. *)
Definition velocity (damping : float) (p prev : point) : point :=
  Point ((x p - x prev) * damping) ((y p - y prev) * damping).

Definition speed (v : point) : float := JS.Math_max (abs (x v)) (abs (y v)).

Definition advance (g dt : float) (p v : point) : point :=
  Point (x p + x v) (y p + (y v + g * dt * dt)).

(** The free points of a chain: all but the first and the last. *)
Definition free_points (ps : list point) : list point :=
  take (length ps - 2) (drop 1 ps).

(** The speeds of the free points of a chain. *)
Definition free_speeds (damping : float) (ps qs : list point) : list float :=
  zip_with (λ p prev, speed (velocity damping p prev)) (free_points ps) (free_points qs).

(** The vector from [p1] to [p2], and a point displaced by [+ d * c] or by
    [- d * c]. *)
Definition delta (p1 p2 : point) : point :=
  Point (x p2 - x p1) (y p2 - y p1).

Definition plus_scaled (p d : point) (c : float) : point :=
  Point (x p + x d * c) (y p + y d * c).

Definition minus_scaled (p d : point) (c : float) : point :=
  Point (x p - x d * c) (y p - y d * c).

(** The speeds of the free points below index [j]. *)
Definition speeds_below (damping : float) (j : nat) (ps qs : list point) : list float :=
  zip_with (λ p prev, speed (velocity damping p prev))
    (take (j - 1) (drop 1 ps)) (take (j - 1) (drop 1 qs)).

(** The two arrays have the same length: every reachable state has it,
    as [initRope] alone assigns the arrays. *)
Definition chain_ok (st : state) : Prop :=
  length (prevPositions st) = length (positions st).

Section WithHypot.

(** [Math.hypot] on two numbers. *)
Context (hypot : float → float → float).

(** The body of the inner constraint loop of [step], for segment [i]. *)
Definition satisfy_segment (restLen : float) (n i : nat) (ps : list point)
  : option (list point) :=
  p1 ← ps !! i;
  p2 ← ps !! (i + 1)%nat;
  let dx := x p2 - x p1 in
  let dy := y p2 - y p1 in
  let dist := hypot dx dy in
  if negb (JS.truthy dist) then Some ps
  else
    let diff := (dist - restLen) / dist in
    if (i =? 0)%nat then
      Some (<[(i + 1)%nat := Point (x p2 - dx * diff) (y p2 - dy * diff)]> ps)
    else if (i =? n - 1)%nat then
      Some (<[i := Point (x p1 + dx * diff) (y p1 + dy * diff)]> ps)
    else
      let half := diff * 0.5 in
      let ps := <[i := Point (x p1 + dx * half) (y p1 + dy * half)]> ps in
      Some (<[(i + 1)%nat := Point (x p2 - dx * half) (y p2 - dy * half)]> ps).

(** One pass of the solver: the inner loop over the segments. *)
Definition relax_pass (restLen : float) (n : nat) (ps : list point)
  : option (list point) :=
  for_rangeM (satisfy_segment restLen n) 0 n ps.

(** The outer loop of the solver. *)
Definition solve (restLen : float) (n : nat) (iters : nat) (ps : list point)
  : option (list point) :=
  repeatM (relax_pass restLen n) iters ps.

(** [numIterations] in [step]: [Math.max(1, inIter.get() | 0)]. *)
Definition iterations (io : ports) : Z := Z.max 1 (JS.to_int32 (inIter io)).

(** The first half of [step]: the bottom pin, the Verlet loop and the
    top pin. *)
Definition move_points (io : ports) (dt topX topY bottomX bottomY : float)
  (n : nat) (s : list point * list point)
  : option (list point * list point * float) :=
  let g := inGravity io in
  let damping := inDamping io in
  let maxVel := 0 in
  s ← pin_point n bottomX bottomY s;
  '(ps, qs, maxVel) ← for_rangeM (integrate_point g damping dt) 1 (n - 1) (s, maxVel);
  s ← pin_point 0 topX topY (ps, qs);
  Some (s, maxVel).

(** [step(dt, topX, topY, bottomX, bottomY)]; the result is the new
    state and the returned [maxVel]. *)
Definition step (io : ports) (dt topX topY bottomX bottomY : float)
  (st : state) : option (state * float) :=
  let n := (length (positions st) - 1)%nat in
  if (n <? 1)%nat then Some (st, 0)
  else
    let L := inLength io in
    let restLen := L / JS.number_of_nat n in
    let numIterations := iterations io in
    '(ps, qs, maxVel) ←
      move_points io dt topX topY bottomX bottomY n
        (positions st, prevPositions st);
    ps ← solve restLen n (Z.to_nat numIterations) ps;
    Some (set_chain ps qs st, maxVel).

(** [inputsMoved] in the frame callback. *)
Definition inputsMoved (io : ports) (st : state) : bool :=
  bool_decide (lastTopX st = None)
  || (INPUT_EPS <? abs (inTopX io - JS.to_number (lastTopX st)))
  || (INPUT_EPS <? abs (inTopY io - JS.to_number (lastTopY st)))
  || (INPUT_EPS <? abs (inBottomX io - JS.to_number (lastBottomX st)))
  || (INPUT_EPS <? abs (inBottomY io - JS.to_number (lastBottomY st))).

(** [dt] at the start of the frame callback, clamped to 0.05. *)
Definition frame_dt (now : float) (st : state) : float :=
  let dt := (now - lastTime st) / 1000 in
  if 0.05 <? dt then 0.05 else dt.

(** The loop [prevPositions[i] = positions[i]] (per coordinate) of the
    wake-up and of the fall-asleep branches. *)
Definition sync_prev (st : state) : option state :=
  qs ← for_rangeM (λ i qs,
          _ ← qs !! i;
          p ← positions st !! i;
          Some (<[i := Point (x p) (y p)]> qs))
        0 (length (positions st)) (prevPositions st);
  Some (set_prevPositions qs st).

(** The frame callback up to the sleep logic: the clock, the cache of
    the last inputs and the first seeding of the chain. *)
Definition begin_frame (io : ports) (now : float) (st : state) : state :=
  let st := set_lastTime now st in
  let st := set_last (inTopX io) (inTopY io) (inBottomX io) (inBottomY io) st in
  if (length (positions st) =? 0)%nat
  then initRope io (inTopX io) (inTopY io) st
  else st.

(** The wake-up branch; [now'] is the second clock reading. *)
Definition wake (now' : float) (st : state) : option state :=
  st ← sync_prev (set_sleep false 0 st);
  Some (set_lastTime now' st).

(** The state the wake-up branch leaves: the sleep state cleared, the
    previous positions equal to the positions, the clock read again. *)
Definition woken (io : ports) (now now' : float) (st : state) : state :=
  set_lastTime now'
    (set_prevPositions (positions (begin_frame io now st))
       (set_sleep false 0 (begin_frame io now st))).

(** The bookkeeping after [step] in the frame callback. *)
Definition settle (moved : bool) (maxVel : float) (st : state) : option state :=
  if negb moved && (maxVel <? VEL_EPS) then
    let st := set_sleep (isSleeping st) (sleepCounter st + 1) st in
    if (SLEEP_FRAMES <=? sleepCounter st)%Z
    then sync_prev (set_sleep true (sleepCounter st) st)
    else Some st
  else Some (set_sleep (isSleeping st) 0 st).

(** The exported array [x0, y0, 0, x1, y1, 0, ...]. *)
Definition flatten (ps : list point) : list float :=
  for_range (λ i flat,
      match ps !! i with
      | Some p => flat ++ [x p; y p; 0]
      | None => flat
      end) 0 (length ps) [].

(** [inUpdate.onTriggered]: one frame.  [now] and [now'] are the two
    readings of the clock; the result is the new state and the array
    sent to the output port. *)
Definition onTriggered (io : ports) (now now' : float) (st : state)
  : option (state * list float) :=
  let dt := frame_dt now st in
  let topX := inTopX io in
  let topY := inTopY io in
  let bottomX := inBottomX io in
  let bottomY := inBottomY io in
  let moved := inputsMoved io st in
  let st := begin_frame io now st in
  '(st, dt) ←
    (if isSleeping st && moved
     then st ← wake now' st; Some (st, 0)
     else Some (st, dt));
  st ←
    (if negb (isSleeping st)
     then
       '(st, maxVel) ← step io dt topX topY bottomX bottomY st;
       settle moved maxVel st
     else Some st);
  Some (st, flatten (positions st)).

(** A frame as the host delivers it: the ports and the clock. *)
Record frame := Frame { f_ports : ports; f_now : float; f_now' : float }.

(** A run of frames. *)
Fixpoint run (fs : list frame) (st : state) : option state :=
  match fs with
  | [] => Some st
  | f :: fs =>
      '(st, _) ← onTriggered (f_ports f) (f_now f) (f_now' f) st;
      run fs st
  end.

(** What every reachable state satisfies (see [inv_initial],
    [inv_onTriggered], [inv_port_changed]): the two arrays have the same
    length, the counter of still frames is not negative and is below 6
    while awake, and an operator that was never seeded is awake with
    its counter at 0. *)
Definition inv (st : state) : Prop :=
  chain_ok st
  ∧ (0 ≤ sleepCounter st)%Z
  ∧ (isSleeping st = false → (sleepCounter st < SLEEP_FRAMES)%Z)
  ∧ (positions st = [] → isSleeping st = false ∧ sleepCounter st = 0%Z).

(** The value [step] returns in frame [f] when the frame calls it. *)
Definition frame_maxVel (f : frame) (st : state) : option float :=
  let io := f_ports f in
  snd <$> step io (frame_dt (f_now f) st) (inTopX io) (inTopY io)
            (inBottomX io) (inBottomY io)
            (begin_frame io (f_now f) st).

(** A still frame: the inputs did not move beyond [INPUT_EPS] since the
    last frame and, if the operator is awake, [step] returns a value
    below [VEL_EPS]. *)
Definition still (f : frame) (st : state) : bool :=
  negb (inputsMoved (f_ports f) st)
  && (isSleeping st
      || match frame_maxVel f st with
         | Some maxVel => maxVel <? VEL_EPS
         | None => false
         end).

(** Consecutive still frames, each judged on the state it starts from. *)
Fixpoint still_run (fs : list frame) (st : state) : bool :=
  match fs with
  | [] => true
  | f :: fs =>
      still f st
      && match onTriggered (f_ports f) (f_now f) (f_now' f) st with
         | Some (st', _) => still_run fs st'
         | None => true
         end
  end.

End WithHypot.

(** A change of one input port by the host. *)
Inductive change :=
| SetTopX (v : float) | SetTopY (v : float)
| SetBottomX (v : float) | SetBottomY (v : float)
| SetSegments (v : Z) | SetLength (v : float) | SetGravity (v : float)
| SetIter (v : Z) | SetDamping (v : float).

Definition write_port (c : change) (io : ports) : ports :=
  match c with
  | SetTopX v =>
      Ports v (inTopY io) (inBottomX io) (inBottomY io)
        (inSegments io) (inLength io) (inGravity io) (inIter io) (inDamping io)
  | SetTopY v =>
      Ports (inTopX io) v (inBottomX io) (inBottomY io)
        (inSegments io) (inLength io) (inGravity io) (inIter io) (inDamping io)
  | SetBottomX v =>
      Ports (inTopX io) (inTopY io) v (inBottomY io)
        (inSegments io) (inLength io) (inGravity io) (inIter io) (inDamping io)
  | SetBottomY v =>
      Ports (inTopX io) (inTopY io) (inBottomX io) v
        (inSegments io) (inLength io) (inGravity io) (inIter io) (inDamping io)
  | SetSegments v =>
      Ports (inTopX io) (inTopY io) (inBottomX io) (inBottomY io)
        v (inLength io) (inGravity io) (inIter io) (inDamping io)
  | SetLength v =>
      Ports (inTopX io) (inTopY io) (inBottomX io) (inBottomY io)
        (inSegments io) v (inGravity io) (inIter io) (inDamping io)
  | SetGravity v =>
      Ports (inTopX io) (inTopY io) (inBottomX io) (inBottomY io)
        (inSegments io) (inLength io) v (inIter io) (inDamping io)
  | SetIter v =>
      Ports (inTopX io) (inTopY io) (inBottomX io) (inBottomY io)
        (inSegments io) (inLength io) (inGravity io) v (inDamping io)
  | SetDamping v =>
      Ports (inTopX io) (inTopY io) (inBottomX io) (inBottomY io)
        (inSegments io) (inLength io) (inGravity io) (inIter io) v
  end.

(** The [onChange] callbacks the operator registers: the callback of the
    changed port, if it has one.  All four have the same body. *)
Definition onChange (c : change) : option (ports → state → state) :=
  match c with
  | SetSegments _ | SetLength _ | SetTopX _ | SetTopY _ =>
      Some (λ io, initRope io (inTopX io) (inTopY io))
  | _ => None
  end.

(** Modelled from the spec: the host's parameter-change hooks, which are
    not part of the operator's file.  The host stores the new value of the
    port and then calls the port's [onChange] callback, if one is
    registered. *)
Definition port_changed (c : change) (w : ports * state) : ports * state :=
  let io := write_port c (fst w) in
  match onChange c with
  | Some callback => (io, callback io (snd w))
  | None => (io, snd w)
  end.

(** The states the operator can be in: it starts in [initial], and the
    host calls the frame callback and changes ports. *)
Inductive reachable (hypot : float → float → float) : state → Prop :=
| reach_initial (t0 : float) : reachable hypot (initial t0)
| reach_frame (io : ports) (now now' : float) (st st' : state) (out : list float) :
    reachable hypot st →
    onTriggered hypot io now now' st = Some (st', out) →
    reachable hypot st'
| reach_change (c : change) (io : ports) (st : state) :
    reachable hypot st →
    reachable hypot (snd (port_changed c (io, st))).

End Rope2D.

(** ** Sample configurations

    Chains used to run the operators on concrete inputs. *)

Module Samples.

Local Open Scope float_scope.

(** One segment of length 2 hanging from (0, 2, 0); the "Bottom" ports
    are at (0, -2, 0), 4 away from the anchor. *)
Definition io3_one : Rope3D.ports := Rope3D.Ports 0 2 0 0 (-2) 0 1 2 (-9.8) 8 0.94.
Definition st3_one : Rope3D.state := Rope3D.initRope io3_one 0 2 0 (Rope3D.initial 0).

Definition io2_one : Rope2D.ports := Rope2D.Ports 0 2 0 (-2) 1 2 (-9.8) 8 0.94.
Definition st2_one : Rope2D.state := Rope2D.initRope io2_one 0 2 (Rope2D.initial 0).

(** Two segments of length 1 hanging from (0, 2, 0) with no gravity; the
    "Bottom" ports are where the seeded chain ends, so the chain is at
    rest. *)
Definition io3_two : Rope3D.ports := Rope3D.Ports 0 2 0 0 0 0 2 2 0 8 0.94.
Definition st3_two : Rope3D.state := Rope3D.initRope io3_two 0 2 0 (Rope3D.initial 0).

Definition io2_two : Rope2D.ports := Rope2D.Ports 0 2 0 0 2 2 0 8 0.94.
Definition st2_two : Rope2D.state := Rope2D.initRope io2_two 0 2 (Rope2D.initial 0).

(** Frames 16 ms apart on these ports. *)
Definition frame3 (k : nat) : Rope3D.frame :=
  Rope3D.Frame io3_two (16 * JS.number_of_nat k) (16 * JS.number_of_nat k).
Definition frame2 (k : nat) : Rope2D.frame :=
  Rope2D.Frame io2_two (16 * JS.number_of_nat k) (16 * JS.number_of_nat k).

(** The state after [k] frames from the start. *)
Definition after3 (k : nat) : Rope3D.state :=
  default (Rope3D.initial 0)
    (Rope3D.run JS.hypot3_ref (map frame3 (seq 1 k)) (Rope3D.initial 0)).
Definition after2 (k : nat) : Rope2D.state :=
  default (Rope2D.initial 0)
    (Rope2D.run JS.hypot2_ref (map frame2 (seq 1 k)) (Rope2D.initial 0)).

(** The same ports with the "Bottom" ports moved to the side. *)
Definition io3_moved : Rope3D.ports := Rope3D.Ports 0 2 0 1 0 0 2 2 0 8 0.94.
Definition io2_moved : Rope2D.ports := Rope2D.Ports 0 2 1 0 2 2 0 8 0.94.

(** A chain whose first two points coincide. *)
Definition folded3 : list Rope3D.point :=
  [Rope3D.Point 0 2 0; Rope3D.Point 0 2 0; Rope3D.Point 0 1 0].
Definition folded2 : list Rope2D.point :=
  [Rope2D.Point 0 2; Rope2D.Point 0 2; Rope2D.Point 0 1].

End Samples.

(** ** The layout of the states of the 3D operator *)

Module Rope3DStates.

Import Rope3D.

(** What the operator keeps between two calls of the host, with the sleep
    flag tied to the counter: the two arrays have the same length; the
    chain is not seeded yet or has at least two points; the counter is
    below [SLEEP_FRAMES] while awake and is [SLEEP_FRAMES] while asleep;
    an operator that is not seeded is awake with its counter at 0. *)
Definition tidy (st : state) : Prop :=
  chain_ok st
  ∧ (positions st = [] ∨ (2 ≤ length (positions st))%nat)
  ∧ (isSleeping st = false → (0 ≤ sleepCounter st < SLEEP_FRAMES)%Z)
  ∧ (isSleeping st = true → sleepCounter st = SLEEP_FRAMES ∧ positions st ≠ [])
  ∧ (positions st = [] → sleepCounter st = 0%Z).

(** The cache of the last inputs holds the values of the ports [io]. *)
Definition cached (io : ports) (st : state) : Prop :=
  lastTopX st = Some (inTopX io) ∧ lastTopY st = Some (inTopY io)
  ∧ lastTopZ st = Some (inTopZ io)
  ∧ lastBottomX st = Some (inBottomX io) ∧ lastBottomY st = Some (inBottomY io)
  ∧ lastBottomZ st = Some (inBottomZ io).

End Rope3DStates.

(** ** The layout of the states of the 2D operator *)

Module Rope2DStates.

Import Rope2D.

(** What the operator keeps between two calls of the host, with the sleep
    flag tied to the counter: the two arrays have the same length; the
    chain is not seeded yet or has at least two points; the counter is
    below [SLEEP_FRAMES] while awake and is [SLEEP_FRAMES] while asleep;
    an operator that is not seeded is awake with its counter at 0. *)
Definition tidy (st : state) : Prop :=
  chain_ok st
  ∧ (positions st = [] ∨ (2 ≤ length (positions st))%nat)
  ∧ (isSleeping st = false → (0 ≤ sleepCounter st < SLEEP_FRAMES)%Z)
  ∧ (isSleeping st = true → sleepCounter st = SLEEP_FRAMES ∧ positions st ≠ [])
  ∧ (positions st = [] → sleepCounter st = 0%Z).

(** The cache of the last inputs holds the values of the ports [io]. *)
Definition cached (io : ports) (st : state) : Prop :=
  lastTopX st = Some (inTopX io) ∧ lastTopY st = Some (inTopY io)
  ∧ lastBottomX st = Some (inBottomX io) ∧ lastBottomY st = Some (inBottomY io).

End Rope2DStates.

(** ** More sample configurations *)

Module MoreSamples.

Local Open Scope float_scope.


End MoreSamples.

(** ** The host of the 3D operator *)

Module Rope3DHost.

Import Rope3D.

(** What the host does to the operator between two of its own steps: it
    changes the value of one port, or it triggers a frame at the clock
    readings [now] (start of the callback) and [now'] (its end). *)
Inductive event :=
| Change (c : change)
| Trigger (now now' : float).

Section WithHypot.

Context (hypot : float → float → float → float).

(** Modelled from the spec: the host's dispatch of its events, which is
    not in the operator's file.  A change of a port goes through
    [port_changed], which writes the port and runs the callback the
    operator registered for it ([inTopX.onChange = ... initRope], and so
    on); a trigger runs [inExec.onTriggered] on the ports as they are. *)
Definition host_step (e : event) (w : ports * state) : option (ports * state) :=
  match e with
  | Change c => Some (port_changed c w)
  | Trigger now now' =>
      r ← onTriggered hypot (fst w) now now' (snd w); Some (fst w, fst r)
  end.

Fixpoint host_run (es : list event) (w : ports * state) : option (ports * state) :=
  match es with
  | [] => Some w
  | e :: es => w' ← host_step e w; host_run es w'
  end.

(** Every frame among the events [es] is a still one, for the ports and
    the state the frame finds: the inputs did not move beyond
    [INPUT_EPS] and, if the operator is awake, [step] returns a value
    below [VEL_EPS]. *)
Fixpoint frames_still (es : list event) (w : ports * state) : bool :=
  match es with
  | [] => true
  | e :: es =>
      match e with
      | Change _ => true
      | Trigger now now' => still hypot (Frame (fst w) now now') (snd w)
      end
      && match host_step e w with
         | Some w' => frames_still es w'
         | None => true
         end
  end.

(** What each frame among the events [es] finds and does: whether the
    operator is asleep, whether the inputs moved, and the value [step]
    returns if the frame calls it. *)
Fixpoint frame_log (es : list event) (w : ports * state)
  : list (bool * bool * option float) :=
  match es with
  | [] => []
  | e :: es =>
      match e with
      | Change _ => []
      | Trigger now now' =>
          [(isSleeping (snd w), inputsMoved (fst w) (snd w),
            frame_maxVel hypot (Frame (fst w) now now') (snd w))]
      end
      ++ match host_step e w with
         | Some w' => frame_log es w'
         | None => []
         end
  end.

End WithHypot.

(** The events that run [initRope]: the changes of the ports with a
    registered [onChange] callback. *)
Definition reseeding (e : event) : bool :=
  match e with
  | Change c => match onChange c with Some _ => true | None => false end
  | Trigger _ _ => false
  end.

Definition no_reseed (es : list event) : bool := forallb (λ e, negb (reseeding e)) es.

(** The number of frames among the events. *)
Fixpoint frames (es : list event) : nat :=
  match es with
  | [] => 0
  | Change _ :: es => frames es
  | Trigger _ _ :: es => S (frames es)
  end.

End Rope3DHost.

(** ** The host of the 2D operator *)

Module Rope2DHost.

Import Rope2D.

(** What the host does to the operator between two of its own steps: it
    changes the value of one port, or it triggers a frame at the clock
    readings [now] (start of the callback) and [now'] (its end). *)
Inductive event :=
| Change (c : change)
| Trigger (now now' : float).

Section WithHypot.

Context (hypot : float → float → float).

(** Modelled from the spec: the host's dispatch of its events, which is
    not in the operator's file.  A change of a port goes through
    [port_changed], which writes the port and runs the callback the
    operator registered for it ([inTopX.onChange = ... initRope], and so
    on); a trigger runs [inExec.onTriggered] on the ports as they are. *)
Definition host_step (e : event) (w : ports * state) : option (ports * state) :=
  match e with
  | Change c => Some (port_changed c w)
  | Trigger now now' =>
      r ← onTriggered hypot (fst w) now now' (snd w); Some (fst w, fst r)
  end.

Fixpoint host_run (es : list event) (w : ports * state) : option (ports * state) :=
  match es with
  | [] => Some w
  | e :: es => w' ← host_step e w; host_run es w'
  end.

(** Every frame among the events [es] is a still one, for the ports and
    the state the frame finds: the inputs did not move beyond
    [INPUT_EPS] and, if the operator is awake, [step] returns a value
    below [VEL_EPS]. *)
Fixpoint frames_still (es : list event) (w : ports * state) : bool :=
  match es with
  | [] => true
  | e :: es =>
      match e with
      | Change _ => true
      | Trigger now now' => still hypot (Frame (fst w) now now') (snd w)
      end
      && match host_step e w with
         | Some w' => frames_still es w'
         | None => true
         end
  end.

(** What each frame among the events [es] finds and does: whether the
    operator is asleep, whether the inputs moved, and the value [step]
    returns if the frame calls it. *)
Fixpoint frame_log (es : list event) (w : ports * state)
  : list (bool * bool * option float) :=
  match es with
  | [] => []
  | e :: es =>
      match e with
      | Change _ => []
      | Trigger now now' =>
          [(isSleeping (snd w), inputsMoved (fst w) (snd w),
            frame_maxVel hypot (Frame (fst w) now now') (snd w))]
      end
      ++ match host_step e w with
         | Some w' => frame_log es w'
         | None => []
         end
  end.

End WithHypot.

(** The events that run [initRope]: the changes of the ports with a
    registered [onChange] callback. *)
Definition reseeding (e : event) : bool :=
  match e with
  | Change c => match onChange c with Some _ => true | None => false end
  | Trigger _ _ => false
  end.

Definition no_reseed (es : list event) : bool := forallb (λ e, negb (reseeding e)) es.

(** The number of frames among the events. *)
Fixpoint frames (es : list event) : nat :=
  match es with
  | [] => 0
  | Change _ :: es => frames es
  | Trigger _ _ :: es => S (frames es)
  end.

End Rope2DHost.

(** ** Sample runs of the host *)

Module HostSamples.

Local Open Scope float_scope.

(** The sample chains of two segments after their first frame, with
    their ports. *)
Definition world3 : Rope3D.ports * Rope3D.state := (Samples.io3_two, Samples.after3 1).
Definition world2 : Rope2D.ports * Rope2D.state := (Samples.io2_two, Samples.after2 1).

(** Frame [k] of the host, 16 ms after frame [k - 1]. *)
Definition trigger3 (k : nat) : Rope3DHost.event :=
  Rope3DHost.Trigger (16 * JS.number_of_nat k) (16 * JS.number_of_nat k).
Definition trigger2 (k : nat) : Rope2DHost.event :=
  Rope2DHost.Trigger (16 * JS.number_of_nat k) (16 * JS.number_of_nat k).

(** Six frames, "Top X" set to 1e-7 and back to 0 in turn before each of
    them: far less than [INPUT_EPS]. *)
Definition jitter3 : list Rope3DHost.event :=
  flat_map (λ k, [Rope3DHost.Change
                    (Rope3D.SetTopX (if Nat.even k then 1e-7 else 0)); trigger3 k])
    (seq 2 6).
Definition jitter2 : list Rope2DHost.event :=
  flat_map (λ k, [Rope2DHost.Change
                    (Rope2D.SetTopX (if Nat.even k then 1e-7 else 0)); trigger2 k])
    (seq 2 6).

(** Six frames with "Bottom X" set to 1e-7 before the fourth one and
    "Gravity" and "Damping" changed on the way. *)
Definition calm3 : list Rope3DHost.event :=
  [trigger3 2; trigger3 3; Rope3DHost.Change (Rope3D.SetDamping 0.9); trigger3 4;
   Rope3DHost.Change (Rope3D.SetBottomX 1e-7); trigger3 5; trigger3 6; trigger3 7].
Definition calm2 : list Rope2DHost.event :=
  [trigger2 2; trigger2 3; Rope2DHost.Change (Rope2D.SetDamping 0.9); trigger2 4;
   Rope2DHost.Change (Rope2D.SetBottomX 1e-7); trigger2 5; trigger2 6; trigger2 7].

(** Two more frames on the sleeping operator, "Bottom X" back at 0 and
    "Constraint Iterations" changed. *)
Definition asleep3 : list Rope3DHost.event :=
  [Rope3DHost.Change (Rope3D.SetBottomX 0); trigger3 8;
   Rope3DHost.Change (Rope3D.SetIter 4); trigger3 9].
Definition asleep2 : list Rope2DHost.event :=
  [Rope2DHost.Change (Rope2D.SetBottomX 0); trigger2 8;
   Rope2DHost.Change (Rope2D.SetIter 4); trigger2 9].

End HostSamples.

(** ** Facts about the loops *)

Section Loops.

Context {S : Type}.

(** A loop keeps an invariant indexed by the loop counter. *)
Lemma for_rangeM_rule (I : nat → S → Prop) (body : nat → S → option S)
  (i count : nat) (s : S) :
  I i s →
  (∀ j t, i ≤ j < i + count → I j t → ∃ t', body j t = Some t' ∧ I (Datatypes.S j) t') →
  ∃ t, for_rangeM body i count s = Some t ∧ I (i + count) t.
Proof.
  revert i s. induction count as [|k IH]; intros i s Hs Hbody; simpl.
  - exists s. rewrite Nat.add_0_r. done.
  - destruct (Hbody i s) as (t' & -> & Ht'); [lia | done |]. simpl.
    destruct (IH (Datatypes.S i) t') as (t & Ht & HI); [done | |].
    + intros j t0 Hj. apply Hbody. lia.
    + exists t. split; [done|]. by replace (i + Datatypes.S k) with (Datatypes.S i + k) by lia.
Qed.

(** A loop keeps an invariant its body keeps. *)
Lemma for_rangeM_inv (I : S → Prop) (body : nat → S → option S)
  (i count : nat) (s : S) :
  I s →
  (∀ j t, i ≤ j < i + count → I t → ∃ t', body j t = Some t' ∧ I t') →
  ∃ t, for_rangeM body i count s = Some t ∧ I t.
Proof. intros Hs Hbody. by apply (for_rangeM_rule (λ _, I)). Qed.

Lemma repeatM_inv (I : S → Prop) (pass : S → option S) (count : nat) (s : S) :
  I s →
  (∀ t, I t → ∃ t', pass t = Some t' ∧ I t') →
  ∃ t, repeatM pass count s = Some t ∧ I t.
Proof.
  intros Hs Hpass. revert s Hs. induction count as [|k IH]; intros s Hs; simpl.
  - by exists s.
  - destruct (Hpass s Hs) as (t' & -> & Ht'). simpl. by apply IH.
Qed.

Lemma visit_in_order_None (body : nat → S → option S) (order : list nat) :
  fold_left (λ acc i, acc ≫= body i) order None = None.
Proof. by induction order. Qed.

(** The loop visits the indices [i, i+1, ..., i+count-1] in this order. *)
Lemma for_rangeM_visit (body : nat → S → option S) (i count : nat) (s : S) :
  for_rangeM body i count s = visit_in_order body (seq i count) s.
Proof.
  unfold visit_in_order. revert i s.
  induction count as [|k IH]; intros i s; simpl; [done|].
  destruct (body i s) as [t|]; simpl; [apply IH|].
  by rewrite visit_in_order_None.
Qed.

Lemma for_range_rule (I : nat → S → Prop) (body : nat → S → S)
  (i count : nat) (s : S) :
  I i s →
  (∀ j t, i ≤ j < i + count → I j t → I (Datatypes.S j) (body j t)) →
  I (i + count) (for_range body i count s).
Proof.
  revert i s. induction count as [|k IH]; intros i s Hs Hbody; simpl.
  - by rewrite Nat.add_0_r.
  - replace (i + Datatypes.S k) with (Datatypes.S i + k) by lia.
    apply IH; [apply Hbody; [lia|done]|].
    intros j t Hj. apply Hbody. lia.
Qed.

End Loops.

(** ** Facts about the numbers *)

Section Numbers.

Local Open Scope float_scope.

Lemma SFltb_chain (a b c : spec_float) :
  SFltb a b = true → SFltb a c = false → SFltb b c = false.
Proof.
  unfold SFltb, SFcompare.
  destruct a as [[]|[]| |[] ma ea], b as [[]|[]| |[] mb eb], c as [[]|[]| |[] mc ec];
    try discriminate; try reflexivity;
    rewrite ?Pos.compare_cont_spec; simpl;
    destruct (Z.compare_spec ea eb); try discriminate;
    destruct (Z.compare_spec ea ec); try discriminate;
    destruct (Z.compare_spec eb ec); try reflexivity; try lia; subst;
    repeat match goal with
    | |- context [Pos.compare ?p ?q] => destruct (Pos.compare_spec p q)
    end; simpl; try discriminate; try reflexivity; try lia.
Qed.

(** If [a < b] and not [a < c], then not [b < c]. *)
Lemma ltb_chain (a b c : float) :
  (a <? b) = true → (a <? c) = false → (b <? c) = false.
Proof. rewrite !ltb_spec. apply SFltb_chain. Qed.

Lemma ltb_irrefl (a : float) : (a <? a) = false.
Proof.
  rewrite ltb_spec. unfold SFltb, SFcompare.
  destruct (Prim2SF a) as [[]|[]| |[] m e]; try reflexivity;
    rewrite Z.compare_refl, Pos.compare_cont_spec, Pos.compare_refl; reflexivity.
Qed.

(** A number above zero is truthy. *)
Lemma positive_truthy (d : float) : (0 <? d) = true → JS.truthy d = true.
Proof.
  unfold JS.truthy, is_nan. rewrite ltb_spec, !FloatAxioms.eqb_spec.
  unfold SFltb, SFeqb, SFcompare. change (Prim2SF 0) with (S754_zero false).
  destruct (Prim2SF d) as [[]|[]| |[] m e]; try discriminate; try reflexivity.
  intros _. by rewrite Z.compare_refl, Pos.compare_cont_spec, Pos.compare_refl.
Qed.

Lemma max_speed_snoc (l : list float) (v : float) :
  max_speed (l ++ [v]) = if max_speed l <? v then v else max_speed l.
Proof. unfold max_speed. by rewrite fold_left_app. Qed.

(** No speed of the list is above [max_speed]. *)
Lemma max_speed_upper (l : list float) (v : float) :
  v ∈ l → (max_speed l <? v) = false.
Proof.
  induction l as [|w l IH] using rev_ind; [by intros ?%elem_of_nil|].
  rewrite max_speed_snoc, elem_of_app, list_elem_of_singleton.
  destruct (max_speed l <? w) eqn:E.
  - intros [Hv | ->]; [|apply ltb_irrefl]. eapply ltb_chain; [exact E | by apply IH].
  - intros [Hv | ->]; [by apply IH | exact E].
Qed.

(** [max_speed] is 0 or one of the speeds. *)
Lemma max_speed_attained (l : list float) : max_speed l = 0 ∨ max_speed l ∈ l.
Proof.
  induction l as [|w l IH] using rev_ind; [by left|].
  rewrite max_speed_snoc. destruct (max_speed l <? w).
  - right. apply elem_of_app. right. by apply list_elem_of_singleton.
  - destruct IH as [IH | IH]; [by left|]. right. apply elem_of_app. by left.
Qed.

End Numbers.

Section MoreLoops.

Context {S : Type}.

Lemma repeatM_S (pass : S → option S) (count : nat) (s : S) :
  repeatM pass (Datatypes.S count) s = pass s ≫= repeatM pass count.
Proof. done. Qed.

Lemma repeatM_S_r (pass : S → option S) (count : nat) (s : S) :
  repeatM pass (Datatypes.S count) s = repeatM pass count s ≫= pass.
Proof.
  revert s. induction count as [|k IH]; intros s.
  - simpl. by destruct (pass s).
  - rewrite repeatM_S, (repeatM_S pass k s).
    destruct (pass s) as [t|]; cbn [mbind option_bind]; [apply IH | done].
Qed.

(** [count] passes are the pass function iterated [count] times. *)
Lemma repeatM_iter (pass : S → option S) (count : nat) (s : S) :
  repeatM pass count s = Nat.iter count (λ acc, acc ≫= pass) (Some s).
Proof.
  induction count as [|k IH]; [done|].
  rewrite repeatM_S_r, IH. done.
Qed.

Lemma iter_bind_ext (pass1 pass2 : S → option S) (count : nat) (s : option S) :
  (∀ t, pass1 t = pass2 t) →
  Nat.iter count (λ acc, acc ≫= pass1) s = Nat.iter count (λ acc, acc ≫= pass2) s.
Proof.
  intros Hext. induction count as [|k IH]; [done|]. simpl. rewrite IH.
  destruct (Nat.iter k (λ acc, acc ≫= pass2) s); simpl; [apply Hext | done].
Qed.

Lemma for_rangeM_1 (body : nat → S → option S) (i : nat) (s : S) :
  for_rangeM body i 1 s = body i s.
Proof. simpl. by destruct (body i s). Qed.

(** A loop is its first iterations followed by the rest. *)
Lemma for_rangeM_split (body : nat → S → option S) (i a b : nat) (s : S) :
  for_rangeM body i (a + b) s = for_rangeM body i a s ≫= for_rangeM body (i + a) b.
Proof.
  revert i s. induction a as [|a IH]; intros i s.
  - simpl. by rewrite Nat.add_0_r.
  - simpl. destruct (body i s) as [t|]; simpl; [|done].
    rewrite IH. by replace (Datatypes.S i + a) with (i + Datatypes.S a) by lia.
Qed.

End MoreLoops.

Lemma to_int32_id (v : Z) : (- 2 ^ 31 ≤ v < 2 ^ 31)%Z → JS.to_int32 v = v.
Proof. intros Hv. unfold JS.to_int32. rewrite Z.mod_small; lia. Qed.

(** A zero is falsy, whatever its sign. *)
Lemma zero_falsy (d : float) : (d =? 0)%float = true → JS.truthy d = false.
Proof. unfold JS.truthy. intros ->. by rewrite andb_false_r. Qed.


(** ** Facts about the 3D operator *)

Module Rope3DFacts.

Import Rope3D.
Local Open Scope float_scope.

Local Arguments pin_point : simpl never.
Local Arguments for_rangeM : simpl never.
Local Arguments solve : simpl never.
Local Arguments move_points : simpl never.

Lemma point_eta (p : point) : Point (x p) (y p) (z p) = p.
Proof. by destruct p. Qed.

Lemma pin_point_spec (i : nat) (px py pz : float) (ps qs : list point) :
  (i < length ps)%nat → (i < length qs)%nat →
  pin_point i px py pz (ps, qs)
  = Some (<[i := Point px py pz]> ps, <[i := Point px py pz]> qs).
Proof.
  intros [p Hp]%lookup_lt_is_Some [q Hq]%lookup_lt_is_Some. unfold pin_point.
  rewrite Hp, Hq. simpl. rewrite list_lookup_insert_eq by by eapply lookup_lt_Some.
  done.
Qed.

Lemma integrate_point_spec (g damping dt : float) (i : nat)
  (ps qs : list point) (maxVel : float) (p q : point) :
  ps !! i = Some p → qs !! i = Some q →
  integrate_point g damping dt i (ps, qs, maxVel)
  = Some (<[i := advance g dt p (velocity damping p q)]> ps, <[i := p]> qs,
          if maxVel <? speed (velocity damping p q)
          then speed (velocity damping p q) else maxVel).
Proof.
  intros Hp Hq. unfold integrate_point. rewrite Hp, Hq. simpl.
  by rewrite point_eta.
Qed.

Lemma speeds_below_S (damping : float) (j : nat) (ps qs : list point) (p q : point) :
  (1 ≤ j)%nat → length qs = length ps →
  ps !! j = Some p → qs !! j = Some q →
  speeds_below damping (Datatypes.S j) ps qs
  = speeds_below damping j ps qs ++ [speed (velocity damping p q)].
Proof.
  intros Hj Hlen Hp Hq. unfold speeds_below.
  replace (Datatypes.S j - 1)%nat with (Datatypes.S (j - 1)) by lia.
  rewrite (take_S_r _ _ p), (take_S_r _ _ q).
  - rewrite zip_with_app; [done|]. rewrite !length_take, !length_drop. lia.
  - rewrite lookup_drop. by replace (1 + (j - 1))%nat with j by lia.
  - rewrite lookup_drop. by replace (1 + (j - 1))%nat with j by lia.
Qed.

(** The Verlet loop of [step]: what it leaves in the arrays and in [maxVel]. *)
Lemma integrate_loop_spec (g damping dt : float) (n : nat) (ps0 qs0 : list point) :
  (1 ≤ n)%nat → (n < length ps0)%nat → length qs0 = length ps0 →
  ∃ ps qs maxVel,
    for_rangeM (integrate_point g damping dt) 1 (n - 1) (ps0, qs0, 0)
    = Some (ps, qs, maxVel)
    ∧ length ps = length ps0 ∧ length qs = length qs0
    ∧ (∀ i p q, (1 ≤ i < n)%nat → ps0 !! i = Some p → qs0 !! i = Some q →
         ps !! i = Some (advance g dt p (velocity damping p q)) ∧ qs !! i = Some p)
    ∧ (∀ i, (i < 1 ∨ n ≤ i)%nat → ps !! i = ps0 !! i ∧ qs !! i = qs0 !! i)
    ∧ maxVel = max_speed (speeds_below damping n ps0 qs0).
Proof.
  intros Hn Hlt Hlen.
  pose (I := λ (j : nat) (s : list point * list point * float),
    length s.1.1 = length ps0 ∧ length s.1.2 = length qs0
    ∧ (∀ i p q, (1 ≤ i < j)%nat → ps0 !! i = Some p → qs0 !! i = Some q →
         s.1.1 !! i = Some (advance g dt p (velocity damping p q)) ∧ s.1.2 !! i = Some p)
    ∧ (∀ i, (i < 1 ∨ j ≤ i)%nat → s.1.1 !! i = ps0 !! i ∧ s.1.2 !! i = qs0 !! i)
    ∧ s.2 = max_speed (speeds_below damping j ps0 qs0)).
  destruct (for_rangeM_rule I (integrate_point g damping dt) 1 (n - 1) (ps0, qs0, 0))
    as ([[ps qs] mv] & Hrun & HI).
  - unfold I; simpl. split_and!; try done. intros; lia.
  - intros j [[ps qs] mv] Hj (Hl1 & Hl2 & Hdone & Hrest & Hmv); simpl in *.
    destruct (Hrest j) as [Hpj Hqj]; [lia|].
    destruct (lookup_lt_is_Some_2 ps0 j) as [p Hp]; [lia|].
    destruct (lookup_lt_is_Some_2 qs0 j) as [q Hq]; [lia|].
    rewrite Hp in Hpj. rewrite Hq in Hqj.
    eexists. split; [by apply integrate_point_spec|].
    unfold I; simpl. rewrite !length_insert. split_and!; try done.
    + intros i p0 q0 Hi Hp0 Hq0. destruct (decide (i = j)) as [->|Hne].
      * rewrite !list_lookup_insert_eq by lia. split; congruence.
      * rewrite !list_lookup_insert_ne by done. apply (Hdone i p0 q0); [lia|done..].
    + intros i Hi. rewrite !list_lookup_insert_ne by lia. apply Hrest. lia.
    + rewrite (speeds_below_S damping j ps0 qs0 p q) by (done || lia).
      rewrite max_speed_snoc. by rewrite Hmv.
  - exists ps, qs, mv. replace (1 + (n - 1))%nat with n in HI by lia.
    destruct HI as (? & ? & ? & ? & ?). done.
Qed.


Lemma speeds_below_free (damping : float) (n : nat) (ps qs : list point) (b : point) :
  (1 ≤ n)%nat → length ps = (n + 1)%nat → length qs = (n + 1)%nat →
  speeds_below damping n (<[n := b]> ps) (<[n := b]> qs) = free_speeds damping ps qs.
Proof.
  intros Hn Hps Hqs. unfold speeds_below, free_speeds, free_points.
  rewrite !drop_insert_ge, !take_insert_ge by lia.
  by replace (length ps - 2)%nat with (n - 1)%nat by lia;
     replace (length qs - 2)%nat with (n - 1)%nat by lia.
Qed.

(** The first half of [step]: both ends pinned in both arrays, the free
    points moved, [maxVel] the largest speed. *)
Lemma move_points_spec (io : ports) (dt topX topY topZ bottomX bottomY bottomZ : float)
  (n : nat) (ps qs : list point) :
  (1 ≤ n)%nat → length ps = (n + 1)%nat → length qs = (n + 1)%nat →
  ∃ ps' qs' maxVel,
    move_points io dt topX topY topZ bottomX bottomY bottomZ n (ps, qs)
    = Some (ps', qs', maxVel)
    ∧ length ps' = (n + 1)%nat ∧ length qs' = (n + 1)%nat
    ∧ ps' !! 0%nat = Some (Point topX topY topZ)
    ∧ qs' !! 0%nat = Some (Point topX topY topZ)
    ∧ ps' !! n = Some (Point bottomX bottomY bottomZ)
    ∧ qs' !! n = Some (Point bottomX bottomY bottomZ)
    ∧ (∀ i p q, (1 ≤ i < n)%nat → ps !! i = Some p → qs !! i = Some q →
         ps' !! i = Some (advance (inGravity io) dt p (velocity (inDamping io) p q))
         ∧ qs' !! i = Some p)
    ∧ maxVel = max_speed (free_speeds (inDamping io) ps qs).
Proof.
  intros Hn Hps Hqs. unfold move_points.
  rewrite pin_point_spec by lia. simpl.
  set (b := Point bottomX bottomY bottomZ).
  destruct (integrate_loop_spec (inGravity io) (inDamping io) dt n
              (<[n := b]> ps) (<[n := b]> qs))
    as (ps1 & qs1 & mv & -> & Hl1 & Hl2 & Hfree & Hrest & Hmv);
    [rewrite ?length_insert; lia..|].
  rewrite !length_insert in Hl1, Hl2. simpl.
  rewrite pin_point_spec by lia. simpl.
  exists (<[0%nat := Point topX topY topZ]> ps1),
         (<[0%nat := Point topX topY topZ]> qs1), mv.
  rewrite !length_insert. split_and!; try done; try lia.
  - apply list_lookup_insert_eq. lia.
  - apply list_lookup_insert_eq. lia.
  - rewrite list_lookup_insert_ne by lia.
    destruct (Hrest n) as [-> _]; [lia|]. apply list_lookup_insert_eq. lia.
  - rewrite list_lookup_insert_ne by lia.
    destruct (Hrest n) as [_ ->]; [lia|]. apply list_lookup_insert_eq. lia.
  - intros i p q Hi Hp Hq. rewrite !list_lookup_insert_ne by lia.
    apply Hfree; [done|by rewrite list_lookup_insert_ne by lia..].
  - rewrite Hmv. by rewrite speeds_below_free.
Qed.

Section WithHypot.

Context (hypot : float → float → float → float).

(** A segment's constraint keeps the length of the array, every point
    outside the segment, the first point of segment 0, and the last
    point of segment [n - 1] unless that is segment 0 as well. *)
Lemma satisfy_segment_frame (restLen : float) (n i : nat) (ps : list point) :
  (i + 1 < length ps)%nat →
  ∃ ps', satisfy_segment hypot restLen n i ps = Some ps'
    ∧ length ps' = length ps
    ∧ (∀ j, j ≠ i → j ≠ (i + 1)%nat → ps' !! j = ps !! j)
    ∧ (i = 0%nat → ps' !! i = ps !! i)
    ∧ (i ≠ 0%nat → i = (n - 1)%nat → ps' !! (i + 1)%nat = ps !! (i + 1)%nat).
Proof.
  intros Hi.
  destruct (lookup_lt_is_Some_2 ps i) as [p1 Hp1]; [lia|].
  destruct (lookup_lt_is_Some_2 ps (i + 1)) as [p2 Hp2]; [lia|].
  unfold satisfy_segment. rewrite Hp1, Hp2. simpl.
  destruct (JS.truthy _); simpl; [|by exists ps].
  destruct (Nat.eqb_spec i 0) as [Hi0|Hi0]; [|destruct (Nat.eqb_spec i (n - 1)) as [Hin|Hin]];
    (eexists; split; [reflexivity|]);
    rewrite ?length_insert; split_and!; try done; intros;
    rewrite ?list_lookup_insert_ne by lia; done.
Qed.

(** One pass keeps the length and the first point and, on a chain of at
    least two segments, the last point. *)
Lemma relax_pass_frame (restLen : float) (n : nat) (ps : list point) :
  length ps = (n + 1)%nat →
  ∃ ps', relax_pass hypot restLen n ps = Some ps'
    ∧ length ps' = (n + 1)%nat
    ∧ ps' !! 0%nat = ps !! 0%nat
    ∧ ((2 ≤ n)%nat → ps' !! n = ps !! n).
Proof.
  intros Hlen. unfold relax_pass.
  apply (for_rangeM_inv (λ ps', length ps' = (n + 1)%nat
           ∧ ps' !! 0%nat = ps !! 0%nat ∧ ((2 ≤ n)%nat → ps' !! n = ps !! n))).
  { done. }
  intros i t Hi (Ht & H0 & Hn).
  destruct (satisfy_segment_frame restLen n i t) as (t' & -> & Hl & Hout & Hfst & Hlst);
    [lia|].
  exists t'. split; [done|]. split_and!.
  - lia.
  - rewrite <- H0. destruct (decide (i = 0%nat)) as [->|Hne]; [by apply Hfst|].
    apply Hout; lia.
  - intros H2. rewrite <- (Hn H2).
    destruct (decide (i = (n - 1)%nat)) as [Hin|Hne].
    + replace n with (i + 1)%nat at 1 2 by lia. apply Hlst; lia.
    + apply Hout; lia.
Qed.

(** The solver keeps them too, whatever the number of passes. *)
Lemma solve_frame (restLen : float) (n iters : nat) (ps : list point) :
  length ps = (n + 1)%nat →
  ∃ ps', solve hypot restLen n iters ps = Some ps'
    ∧ length ps' = (n + 1)%nat
    ∧ ps' !! 0%nat = ps !! 0%nat
    ∧ ((2 ≤ n)%nat → ps' !! n = ps !! n).
Proof.
  intros Hlen. unfold solve.
  apply (repeatM_inv (λ ps', length ps' = (n + 1)%nat
           ∧ ps' !! 0%nat = ps !! 0%nat ∧ ((2 ≤ n)%nat → ps' !! n = ps !! n))).
  { done. }
  intros t (Ht & H0 & Hn).
  destruct (relax_pass_frame restLen n t Ht) as (t' & -> & Hl & H0' & Hn').
  exists t'. split; [done|]. split_and!; [done|congruence|].
  intros H2. rewrite Hn' by done. by apply Hn.
Qed.

(** [step] on a chain of [n >= 1] segments: it returns, and its result
    is the solver run on the chain [move_points] leaves. *)
Lemma step_spec (io : ports) (dt topX topY topZ bottomX bottomY bottomZ : float)
  (st : state) (n : nat) :
  chain_ok st → length (positions st) = (n + 1)%nat → (1 ≤ n)%nat →
  ∃ ps' qs' maxVel ps'',
    move_points io dt topX topY topZ bottomX bottomY bottomZ n
      (positions st, prevPositions st) = Some (ps', qs', maxVel)
    ∧ solve hypot (inLength io / JS.number_of_nat n) n
        (Z.to_nat (iterations io)) ps' = Some ps''
    ∧ step hypot io dt topX topY topZ bottomX bottomY bottomZ st
      = Some (set_chain ps'' qs' st, maxVel).
Proof.
  intros Hok Hlen Hn. unfold chain_ok in Hok.
  destruct (move_points_spec io dt topX topY topZ bottomX bottomY bottomZ n
              (positions st) (prevPositions st))
    as (ps' & qs' & mv & Hmove & Hl1 & _); [lia..|].
  destruct (solve_frame (inLength io / JS.number_of_nat n) n
              (Z.to_nat (iterations io)) ps' Hl1) as (ps'' & Hsolve & _).
  exists ps', qs', mv, ps''. split_and!; [done..|].
  unfold step. rewrite Hlen.
  replace (n + 1 - 1)%nat with n by lia.
  destruct (Nat.ltb_spec n 1) as [?|_]; [lia|].
  rewrite Hmove. simpl. rewrite Hsolve. done.
Qed.

(** A segment with a positive length: which points its constraint
    replaces, and by what. *)
Lemma satisfy_segment_moves (restLen : float) (n i : nat) (ps : list point)
  (p1 p2 : point) :
  ps !! i = Some p1 → ps !! (i + 1)%nat = Some p2 →
  let d := delta p1 p2 in
  let dist := hypot (x d) (y d) (z d) in
  let correction := (dist - restLen) / dist in
  (0 <? dist) = true →
  satisfy_segment hypot restLen n i ps
  = Some (if decide (i = 0%nat)
          then <[(i + 1)%nat := minus_scaled p2 d correction]> ps
          else if decide (i = (n - 1)%nat)
          then <[i := plus_scaled p1 d correction]> ps
          else <[(i + 1)%nat := minus_scaled p2 d (correction * 0.5)]>
                 (<[i := plus_scaled p1 d (correction * 0.5)]> ps)).
Proof.
  intros Hp1 Hp2 d dist correction Hdist.
  unfold satisfy_segment. rewrite Hp1, Hp2. cbn [mbind option_bind].
  fold (x d) in *. change (hypot _ _ _) with dist.
  rewrite (positive_truthy dist Hdist). cbn [negb].
  destruct (Nat.eqb_spec i 0); [by rewrite decide_True|].
  rewrite decide_False by done.
  destruct (Nat.eqb_spec i (n - 1)); [by rewrite decide_True|].
  by rewrite decide_False.
Qed.

(** A segment whose length is falsy (a zero or NaN) is left alone. *)
Lemma satisfy_segment_skips (restLen : float) (n i : nat) (ps : list point)
  (p1 p2 : point) :
  ps !! i = Some p1 → ps !! (i + 1)%nat = Some p2 →
  JS.truthy (hypot (x (delta p1 p2)) (y (delta p1 p2)) (z (delta p1 p2))) = false →
  satisfy_segment hypot restLen n i ps = Some ps.
Proof.
  intros Hp1 Hp2 Hdist.
  unfold satisfy_segment. rewrite Hp1, Hp2. cbn [mbind option_bind].
  change (hypot _ _ _) with (hypot (x (delta p1 p2)) (y (delta p1 p2)) (z (delta p1 p2))).
  by rewrite Hdist.
Qed.

(** A pass that reaches a segment of length zero goes on with the next
    segment, on the chain as it is. *)
Lemma relax_pass_skips (restLen : float) (n i : nat) (ps t : list point)
  (p1 p2 : point) :
  (i < n)%nat →
  for_rangeM (satisfy_segment hypot restLen n) 0 i ps = Some t →
  t !! i = Some p1 → t !! (i + 1)%nat = Some p2 →
  (hypot (x (delta p1 p2)) (y (delta p1 p2)) (z (delta p1 p2)) =? 0) = true →
  satisfy_segment hypot restLen n i t = Some t
  ∧ relax_pass hypot restLen n ps
    = for_rangeM (satisfy_segment hypot restLen n) (i + 1) (n - (i + 1)) t.
Proof.
  intros Hi Hrun Hp1 Hp2 Hdist.
  assert (satisfy_segment hypot restLen n i t = Some t) as Hskip.
  { apply (satisfy_segment_skips restLen n i t p1 p2); [done..|]. by apply zero_falsy. }
  split; [done|]. unfold relax_pass.
  replace n with (i + (1 + (n - (i + 1))))%nat at 2 by lia.
  rewrite for_rangeM_split, Hrun. cbn [mbind option_bind].
  rewrite for_rangeM_split, for_rangeM_1. cbn [Nat.add]. rewrite Hskip. done.
Qed.

(** The solver of [step]: [inIter] passes, each over the segments
    [0, 1, ..., n - 1] in this order. *)
Lemma step_solver (io : ports) (dt topX topY topZ bottomX bottomY bottomZ : float)
  (st : state) (n : nat) :
  chain_ok st → length (positions st) = (n + 1)%nat → (1 ≤ n)%nat →
  (1 ≤ inIter io < 2 ^ 31)%Z →
  ∃ ps' qs' maxVel ps'',
    move_points io dt topX topY topZ bottomX bottomY bottomZ n
      (positions st, prevPositions st) = Some (ps', qs', maxVel)
    ∧ Nat.iter (Z.to_nat (inIter io))
        (λ acc, acc ≫= visit_in_order
           (satisfy_segment hypot (inLength io / JS.number_of_nat n) n) (seq 0 n))
        (Some ps') = Some ps''
    ∧ step hypot io dt topX topY topZ bottomX bottomY bottomZ st
      = Some (set_chain ps'' qs' st, maxVel).
Proof.
  intros Hok Hlen Hn Hiter.
  destruct (step_spec io dt topX topY topZ bottomX bottomY bottomZ st n Hok Hlen Hn)
    as (ps' & qs' & mv & ps'' & Hmove & Hsolve & Hstep).
  exists ps', qs', mv, ps''. split_and!; [done| |done].
  rewrite <- Hsolve. unfold solve, iterations.
  rewrite to_int32_id, Z.max_r by lia. rewrite repeatM_iter.
  apply iter_bind_ext. intros t. symmetry. apply for_rangeM_visit.
Qed.

End WithHypot.

End Rope3DFacts.

(** ** Facts about the frames of the 3D operator *)

Module Rope3DFrameFacts.

Import Rope3D Rope3DFacts.
Local Open Scope float_scope.

Local Arguments for_rangeM : simpl never.
Local Arguments for_range : simpl never.
Local Arguments step : simpl never.
Local Arguments sync_prev : simpl never.
Local Arguments initRope : simpl never.
Local Arguments flatten : simpl never.
Local Arguments settle : simpl never.
Local Arguments begin_frame : simpl never.

(** The seeding loop pushes the same points on both arrays. *)
Lemma for_range_push (f : nat → point) (i count : nat) (ps qs : list point) :
  for_range (λ i '(ps, qs), (ps ++ [f i], qs ++ [f i])) i count (ps, qs)
  = (ps ++ map f (seq i count), qs ++ map f (seq i count)).
Proof.
  revert i ps qs. induction count as [|k IH]; intros i ps qs; simpl.
  - by rewrite !app_nil_r.
  - unfold for_range; fold (@for_range (list point * list point)).
    rewrite IH. by rewrite <- !app_assoc.
Qed.

Lemma initRope_spec (io : ports) (topX topY topZ : float) (st : state) :
  initRope io topX topY topZ st
  = set_sleep false 0 (set_chain (seed io topX topY topZ) (seed io topX topY topZ) st).
Proof.
  unfold initRope, seed.
  by rewrite (for_range_push
    (λ i, Point topX (topY - inLength io / JS.number_of_Z (segments io)
                             * JS.number_of_nat i) topZ)).
Qed.

Lemma length_seed (io : ports) (topX topY topZ : float) :
  length (seed io topX topY topZ) = (Z.to_nat (segments io) + 1)%nat.
Proof. unfold seed. by rewrite length_map, length_seq. Qed.

Lemma seed_not_nil (io : ports) (topX topY topZ : float) :
  seed io topX topY topZ ≠ [].
Proof. intros H%(f_equal length). rewrite length_seed in H. simpl in H. lia. Qed.

(** The copy loop of the frame callback makes [prevPositions] equal to
    [positions]. *)
Lemma sync_prev_spec (st : state) :
  chain_ok st → sync_prev st = Some (set_prevPositions (positions st) st).
Proof.
  intros Hok. unfold sync_prev, chain_ok in *.
  destruct (for_rangeM_rule
    (λ j qs, length qs = length (positions st)
             ∧ (∀ i, (i < j)%nat → qs !! i = positions st !! i))
    (λ i qs, _ ← qs !! i; p ← positions st !! i;
             Some (<[i := Point (x p) (y p) (z p)]> qs))
    0 (length (positions st)) (prevPositions st)) as (qs & -> & Hl & Hqs).
  - split; [done|]. intros; lia.
  - intros j qs Hj [Hl Hqs].
    destruct (lookup_lt_is_Some_2 qs j) as [q ->]; [lia|].
    destruct (lookup_lt_is_Some_2 (positions st) j) as [p Hp]; [lia|].
    rewrite Hp. simpl. eexists. split; [done|]. rewrite length_insert.
    split; [done|]. intros i Hi. destruct (decide (i = j)) as [->|Hne].
    + rewrite list_lookup_insert_eq by lia. by rewrite point_eta.
    + rewrite list_lookup_insert_ne by done. apply Hqs. lia.
  - simpl. do 2 f_equal. apply list_eq. intros i.
    destruct (decide (i < length (positions st))%nat) as [Hi|Hi]; [by apply Hqs|].
    rewrite !lookup_ge_None_2 by lia. done.
Qed.

Section WithHypot.

Context (hypot : float → float → float → float).

(** [step] returns on every state with two arrays of the same length;
    it keeps their lengths and touches nothing but the arrays. *)
Lemma step_total (io : ports) (dt topX topY topZ bottomX bottomY bottomZ : float)
  (st : state) :
  chain_ok st →
  ∃ ps qs maxVel,
    step hypot io dt topX topY topZ bottomX bottomY bottomZ st
    = Some (set_chain ps qs st, maxVel)
    ∧ length ps = length (positions st)
    ∧ length qs = length (prevPositions st).
Proof.
  intros Hok.
  destruct (decide (length (positions st) - 1 < 1)%nat) as [Hn|Hn].
  - exists (positions st), (prevPositions st), 0.
    split; [|done]. unfold step.
    destruct (Nat.ltb_spec (length (positions st) - 1) 1); [|lia].
    by destruct st.
  - destruct (step_spec hypot io dt topX topY topZ bottomX bottomY bottomZ st
                (length (positions st) - 1)) as (ps' & qs' & mv & ps'' & Hm & Hs & ->);
      [done|lia|lia|].
    destruct (move_points_spec io dt topX topY topZ bottomX bottomY bottomZ
                (length (positions st) - 1) (positions st) (prevPositions st))
      as (ps1 & qs1 & mv1 & Hm1 & Hl1 & Hl2 & _);
      [unfold chain_ok in Hok; lia..|].
    rewrite Hm in Hm1. injection Hm1 as <- <- <-.
    destruct (solve_frame hypot (inLength io / JS.number_of_nat (length (positions st) - 1))
                (length (positions st) - 1) (Z.to_nat (iterations io)) ps' Hl1)
      as (ps2 & Hs2 & Hl3 & _).
    rewrite Hs in Hs2. injection Hs2 as <-.
    exists ps'', qs', mv. unfold chain_ok in Hok. split_and!; [done|lia..].
Qed.


Lemma begin_frame_seeded (io : ports) (now : float) (st : state) :
  positions st ≠ [] →
  begin_frame io now st
  = set_last (inTopX io) (inTopY io) (inTopZ io)
      (inBottomX io) (inBottomY io) (inBottomZ io) (set_lastTime now st).
Proof.
  intros Hne. unfold begin_frame. simpl.
  destruct (positions st); [done|]. done.
Qed.

Lemma begin_frame_unseeded (io : ports) (now : float) (st : state) :
  positions st = [] →
  begin_frame io now st
  = initRope io (inTopX io) (inTopY io) (inTopZ io)
      (set_last (inTopX io) (inTopY io) (inTopZ io)
         (inBottomX io) (inBottomY io) (inBottomZ io) (set_lastTime now st)).
Proof. intros Hnil. unfold begin_frame. simpl. by rewrite Hnil. Qed.

(** The start of a frame keeps the invariant and the sleep state, and
    leaves a seeded chain. *)
Lemma begin_frame_inv (io : ports) (now : float) (st : state) :
  inv st →
  inv (begin_frame io now st)
  ∧ isSleeping (begin_frame io now st) = isSleeping st
  ∧ sleepCounter (begin_frame io now st) = sleepCounter st
  ∧ positions (begin_frame io now st) ≠ []
  ∧ (positions st ≠ [] →
     positions (begin_frame io now st) = positions st
     ∧ prevPositions (begin_frame io now st) = prevPositions st).
Proof.
  intros (Hok & Hc0 & Hc6 & Hnil).
  destruct (decide (positions st = [])) as [He|Hne].
  - destruct (Hnil He) as [Hs Hc]. rewrite begin_frame_unseeded, initRope_spec by done.
    simpl. split_and!; try done. apply seed_not_nil.
  - rewrite begin_frame_seeded by done. simpl. split_and!; try done.
Qed.

(** The bookkeeping after [step]. *)
Lemma settle_spec (moved : bool) (maxVel : float) (st : state) :
  chain_ok st →
  ∃ st', settle moved maxVel st = Some st'
    ∧ positions st' = positions st
    ∧ chain_ok st'
    ∧ (if negb moved && (maxVel <? VEL_EPS)
       then sleepCounter st' = (sleepCounter st + 1)%Z
            ∧ (if (SLEEP_FRAMES <=? sleepCounter st + 1)%Z
               then isSleeping st' = true ∧ prevPositions st' = positions st
               else isSleeping st' = isSleeping st
                    ∧ prevPositions st' = prevPositions st)
       else sleepCounter st' = 0%Z ∧ isSleeping st' = isSleeping st
            ∧ prevPositions st' = prevPositions st).
Proof.
  intros Hok. unfold settle.
  destruct (negb moved && (maxVel <? VEL_EPS)); simpl.
  - destruct (SLEEP_FRAMES <=? sleepCounter st + 1)%Z.
    + rewrite sync_prev_spec by done. eexists. split; [done|]. simpl.
      unfold chain_ok. simpl. done.
    + eexists. split; [done|]. simpl. done.
  - eexists. split; [done|]. simpl. done.
Qed.

(** A frame that starts asleep with unmoved inputs does not call [step]:
    it is [begin_frame] alone. *)
Lemma onTriggered_asleep (io : ports) (now now' : float) (st : state) :
  isSleeping (begin_frame io now st) = true → inputsMoved io st = false →
  onTriggered hypot io now now' st
  = Some (begin_frame io now st, flatten (positions (begin_frame io now st))).
Proof.
  intros Hs Hm. unfold onTriggered. rewrite Hs, Hm. simpl. by rewrite Hs.
Qed.

(** A frame that starts awake calls [step] with the frame's [dt]. *)
Lemma onTriggered_awake (io : ports) (now now' : float) (st : state) :
  isSleeping (begin_frame io now st) = false →
  onTriggered hypot io now now' st
  = '(st1, maxVel) ← step hypot io (frame_dt now st)
                       (inTopX io) (inTopY io) (inTopZ io)
                       (inBottomX io) (inBottomY io) (inBottomZ io)
                       (begin_frame io now st);
    st2 ← settle (inputsMoved io st) maxVel st1;
    Some (st2, flatten (positions st2)).
Proof.
  intros Hs. unfold onTriggered. rewrite Hs. simpl. rewrite Hs. simpl.
  destruct (step _ _ _ _ _ _ _ _ _ _) as [[st1 mv]|]; done.
Qed.

(** A frame that starts asleep with moved inputs wakes up and calls
    [step] with a [dt] of 0. *)
Lemma onTriggered_wake (io : ports) (now now' : float) (st : state) :
  chain_ok (begin_frame io now st) →
  isSleeping (begin_frame io now st) = true → inputsMoved io st = true →
  onTriggered hypot io now now' st
  = '(st1, maxVel) ← step hypot io 0
                       (inTopX io) (inTopY io) (inTopZ io)
                       (inBottomX io) (inBottomY io) (inBottomZ io)
                       (woken io now now' st);
    st2 ← settle true maxVel st1;
    Some (st2, flatten (positions st2)).
Proof.
  intros Hok Hs Hm. unfold onTriggered, wake. rewrite Hs, Hm. simpl.
  rewrite sync_prev_spec by done. simpl. fold (woken io now now' st).
  destruct (step _ _ _ _ _ _ _ _ _ _) as [[st1 mv]|]; done.
Qed.


(** The awake part of a frame, on an awake state [base] with a seeded
    chain: [step] and the bookkeeping return, and the invariant holds
    afterwards. *)
Lemma awake_frame_end (io : ports) (moved : bool)
  (dt topX topY topZ bottomX bottomY bottomZ : float) (base : state) :
  chain_ok base → isSleeping base = false →
  (0 ≤ sleepCounter base < SLEEP_FRAMES)%Z → positions base ≠ [] →
  ∃ ps qs maxVel st',
    step hypot io dt topX topY topZ bottomX bottomY bottomZ base
    = Some (set_chain ps qs base, maxVel)
    ∧ settle moved maxVel (set_chain ps qs base) = Some st'
    ∧ inv st'
    ∧ positions st' = ps
    ∧ (if negb moved && (maxVel <? VEL_EPS)
       then isSleeping st' = true
            ∨ (isSleeping st' = false
               ∧ sleepCounter st' = (sleepCounter base + 1)%Z)
       else isSleeping st' = false ∧ sleepCounter st' = 0%Z).
Proof.
  intros Hok Hs Hc Hne.
  destruct (step_total io dt topX topY topZ bottomX bottomY bottomZ base Hok)
    as (ps & qs & mv & Hstep & Hl1 & Hl2).
  assert (chain_ok (set_chain ps qs base)) as Hok'.
  { unfold chain_ok in *. simpl. lia. }
  destruct (settle_spec moved mv (set_chain ps qs base) Hok')
    as (st' & Hsettle & Hpos & Hok'' & Hcases).
  simpl in *. exists ps, qs, mv, st'. split_and!; try done.
  - assert (positions st' ≠ []) as Hne'.
    { rewrite Hpos. intros ->. destruct (positions base); [done|]. simpl in *. lia. }
    unfold inv, SLEEP_FRAMES in *.
    destruct (negb moved && (mv <? VEL_EPS)).
    + destruct Hcases as [Hc' Hcases].
      destruct (Z.leb_spec 6 (sleepCounter base + 1)); destruct Hcases as [Hs' _];
        split_and!; try done; try lia; rewrite Hs'; try done; intros; lia.
    + destruct Hcases as (Hc' & Hs' & _). split_and!; try done; try lia.
  - destruct (negb moved && (mv <? VEL_EPS)).
    + destruct Hcases as [Hc' Hcases].
      destruct (SLEEP_FRAMES <=? sleepCounter base + 1)%Z;
        destruct Hcases as [Hs' _]; [by left|right]. by rewrite Hs'.
    + destruct Hcases as (Hc' & Hs' & _). by rewrite Hs'.
Qed.

(** Every frame returns and keeps the invariant. *)
Lemma inv_onTriggered (io : ports) (now now' : float) (st : state) :
  inv st →
  ∃ st' out, onTriggered hypot io now now' st = Some (st', out) ∧ inv st'.
Proof.
  intros Hinv.
  destruct (begin_frame_inv io now st Hinv) as (Hinv0 & Hs0 & Hc0 & Hne0 & _).
  pose proof Hinv0 as (Hok0 & Hge0 & Hlt0 & _).
  destruct (isSleeping st) eqn:Hs; [destruct (inputsMoved io st) eqn:Hm|].
  - rewrite onTriggered_wake by done.
    destruct (awake_frame_end io true 0 (inTopX io) (inTopY io) (inTopZ io)
                (inBottomX io) (inBottomY io) (inBottomZ io) (woken io now now' st))
      as (ps & qs & mv & st' & -> & Hsettle & Hinv' & _);
      [by unfold chain_ok | done | done | done |].
    cbn [mbind option_bind]. rewrite Hsettle. by eexists _, _.
  - rewrite onTriggered_asleep by done. by eexists _, _.
  - rewrite onTriggered_awake by done.
    destruct (awake_frame_end io (inputsMoved io st) (frame_dt now st)
                (inTopX io) (inTopY io) (inTopZ io)
                (inBottomX io) (inBottomY io) (inBottomZ io) (begin_frame io now st))
      as (ps & qs & mv & st' & -> & Hsettle & Hinv' & _);
      [done | done | rewrite Hc0; split; [by destruct Hinv as (_ & ? & _)|] | done |].
    { rewrite <- Hc0. by apply Hlt0. }
    cbn [mbind option_bind]. rewrite Hsettle. by eexists _, _.
Qed.

Lemma inv_initial (t0 : float) : inv (initial t0).
Proof. by unfold inv, chain_ok, SLEEP_FRAMES. Qed.

Lemma inv_initRope (io : ports) (topX topY topZ : float) (st : state) :
  inv (initRope io topX topY topZ st).
Proof.
  rewrite initRope_spec. unfold inv, chain_ok, SLEEP_FRAMES. simpl.
  split_and!; try done.
Qed.

(** A still frame returns, keeps the invariant, freezes a sleeping
    chain and brings an awake one one frame closer to sleep. *)
Lemma still_frame (f : frame) (st : state) :
  inv st → still hypot f st = true →
  ∃ st' out,
    onTriggered hypot (f_ports f) (f_now f) (f_now' f) st = Some (st', out)
    ∧ inv st'
    ∧ (isSleeping st = true →
       st' = begin_frame (f_ports f) (f_now f) st
       ∧ isSleeping st' = true
       ∧ positions st' = positions st
       ∧ prevPositions st' = prevPositions st)
    ∧ (isSleeping st = false →
       isSleeping st' = true ∨ sleepCounter st' = (sleepCounter st + 1)%Z).
Proof.
  intros Hinv [Hm%negb_true_iff Hv]%andb_true_iff.
  destruct f as [io now now']. simpl in *.
  destruct (begin_frame_inv io now st Hinv) as (Hinv0 & Hs0 & Hc0 & Hne0 & Hkeep).
  pose proof Hinv0 as (Hok0 & Hge0 & Hlt0 & _).
  destruct (isSleeping st) eqn:Hs.
  - rewrite onTriggered_asleep by done. eexists _, _. split; [done|].
    destruct Hinv as (_ & _ & _ & Hnil).
    assert (positions st ≠ []) as Hne by (intros [? _]%Hnil; congruence).
    destruct (Hkeep Hne) as [Hp Hq]. split_and!; done.
  - rewrite onTriggered_awake by done.
    destruct (awake_frame_end io (inputsMoved io st) (frame_dt now st)
                (inTopX io) (inTopY io) (inTopZ io)
                (inBottomX io) (inBottomY io) (inBottomZ io) (begin_frame io now st))
      as (ps & qs & mv' & st' & Hstep & Hsettle & Hinv' & _ & Hcases);
      [done | done | split; [done | by apply Hlt0] | done |].
    unfold frame_maxVel in Hv. simpl in Hv. rewrite Hstep in Hv. simpl in Hv.
    rewrite Hstep. cbn [mbind option_bind]. rewrite Hsettle.
    eexists _, _. split; [done|]. split; [done|]. split; [done|].
    intros _. rewrite Hm, Hv in Hcases. simpl in Hcases.
    destruct Hcases as [?|[_ ?]]; [by left|right; congruence].
Qed.

(** Still frames put the operator to sleep once the counter reaches
    [SLEEP_FRAMES], and keep it asleep with every position unchanged. *)
Lemma still_run_sleeps (fs : list frame) (st : state) :
  inv st → still_run hypot fs st = true →
  ∃ st', run hypot fs st = Some st' ∧ inv st'
    ∧ (isSleeping st = true →
       isSleeping st' = true
       ∧ positions st' = positions st ∧ prevPositions st' = prevPositions st)
    ∧ ((SLEEP_FRAMES ≤ sleepCounter st + Z.of_nat (length fs))%Z →
       isSleeping st' = true).
Proof.
  revert st. induction fs as [|f fs IH]; intros st Hinv Hrun.
  - exists st. simpl. split_and!; try done.
    intros Hc. destruct (isSleeping st) eqn:Hs; [done|].
    destruct Hinv as (_ & _ & Hlt & _). specialize (Hlt Hs). lia.
  - cbn [still_run] in Hrun. apply andb_true_iff in Hrun as [Hstill Hrun].
    destruct (still_frame f st Hinv Hstill) as (st1 & out & Hf & Hinv1 & Hasleep & Hawake).
    rewrite Hf in Hrun.
    destruct (IH st1 Hinv1 Hrun) as (st' & Hrun' & Hinv' & Hkeep & Hsleep).
    exists st'. simpl. rewrite Hf. simpl. split_and!; try done.
    + intros Hs. destruct (Hasleep Hs) as (_ & Hs1 & Hp & Hq).
      destruct (Hkeep Hs1) as (? & ? & ?). split_and!; congruence.
    + intros Hc. destruct (isSleeping st) eqn:Hs.
      * destruct (Hasleep eq_refl) as (_ & Hs1 & _). by apply Hkeep.
      * destruct (Hawake eq_refl) as [Hs1|Hc1]; [by apply Hkeep|].
        apply Hsleep. rewrite Hc1. simpl length in Hc. lia.
Qed.

(** The wake-up frame: from a sleeping state with moved inputs, the
    frame clears the sleep state, copies the positions to the previous
    positions and calls [step] with a [dt] of 0. *)
Lemma wake_frame (io : ports) (now now' : float) (st : state) :
  inv st → isSleeping st = true → inputsMoved io st = true →
  positions (woken io now now' st) = positions st
  ∧ prevPositions (woken io now now' st) = positions st
  ∧ isSleeping (woken io now now' st) = false
  ∧ sleepCounter (woken io now now' st) = 0%Z
  ∧ ∃ st1 maxVel,
      step hypot io 0 (inTopX io) (inTopY io) (inTopZ io)
        (inBottomX io) (inBottomY io) (inBottomZ io) (woken io now now' st)
      = Some (st1, maxVel)
      ∧ onTriggered hypot io now now' st
        = Some (set_sleep false 0 st1, flatten (positions st1)).
Proof.
  intros Hinv Hs Hm.
  destruct (begin_frame_inv io now st Hinv) as (Hinv0 & Hs0 & Hc0 & Hne0 & Hkeep).
  pose proof Hinv0 as (Hok0 & _).
  destruct Hinv as (_ & _ & _ & Hnil).
  assert (positions st ≠ []) as Hne by (intros [? _]%Hnil; congruence).
  destruct (Hkeep Hne) as [Hp Hq]. split_and!; try done.
  rewrite onTriggered_wake by congruence.
  destruct (step_total io 0 (inTopX io) (inTopY io) (inTopZ io)
              (inBottomX io) (inBottomY io) (inBottomZ io) (woken io now now' st))
    as (ps & qs & mv & -> & _); [by unfold chain_ok|].
  eexists _, _. split; [done|]. done.
Qed.

End WithHypot.

End Rope3DFrameFacts.

(** ** The properties of the 3D operator *)

Module Rope3DResults.

Import Rope3D Rope3DFacts Rope3DFrameFacts.
Local Open Scope float_scope.

(** The speeds of the free points are the speeds of the points
    [1, ..., n - 1]. *)
Lemma free_speeds_elem (damping : float) (n : nat) (ps qs : list point) (v : float) :
  length ps = (n + 1)%nat → length qs = (n + 1)%nat →
  v ∈ free_speeds damping ps qs
  ↔ ∃ i p q, (1 ≤ i < n)%nat ∧ ps !! i = Some p ∧ qs !! i = Some q
             ∧ v = speed (velocity damping p q).
Proof.
  intros Hps Hqs. unfold free_speeds, free_points.
  rewrite list_elem_of_lookup. split.
  - intros (k & (p & q & -> & Hp & Hq)%lookup_zip_with_Some).
    apply lookup_take_Some in Hp as [Hp Hk]. apply lookup_take_Some in Hq as [Hq _].
    rewrite lookup_drop in Hp, Hq.
    exists (1 + k)%nat, p, q. split_and!; try done; lia.
  - intros (i & p & q & Hi & Hp & Hq & ->). exists (i - 1)%nat.
    apply lookup_zip_with_Some. exists p, q. split; [done|].
    rewrite !lookup_take_Some, !lookup_drop.
    replace (1 + (i - 1))%nat with i by lia. split_and!; try done; lia.
Qed.

Lemma initRope_idem (io : ports) (topX topY topZ : float) (st : state) :
  initRope io topX topY topZ (initRope io topX topY topZ st)
  = initRope io topX topY topZ st.
Proof. by rewrite !initRope_spec. Qed.

(** [initRope]: the straight line, at rest and awake. *)
Lemma initRope_line (io : ports) (topX topY topZ : float) (st : state) :
  let n := Z.to_nat (segments io) in
  let segLen := inLength io / JS.number_of_Z (segments io) in
  let st' := initRope io topX topY topZ st in
  length (positions st') = (n + 1)%nat
  ∧ (∀ i, (i ≤ n)%nat →
       positions st' !! i = Some (Point topX (topY - segLen * JS.number_of_nat i) topZ))
  ∧ prevPositions st' = positions st'
  ∧ isSleeping st' = false
  ∧ sleepCounter st' = 0%Z
  ∧ initRope io topX topY topZ st' = st'.
Proof.
  intros n segLen st'. subst st'. rewrite initRope_idem, initRope_spec. simpl.
  rewrite length_seed. split_and!; try done.
  intros i Hi. unfold seed. rewrite list_lookup_fmap, lookup_seq_lt by (fold n; lia).
  done.
Qed.

(** A segment count the port can hold as a 32-bit integer, and at least 1,
    is the number of segments of the seeded chain. *)
Lemma segments_valid (io : ports) :
  (1 ≤ inSegments io < 2 ^ 31)%Z → segments io = inSegments io.
Proof. intros Hv. unfold segments. rewrite to_int32_id; lia. Qed.

Lemma length_initRope (io : ports) (topX topY topZ : float) (st : state) :
  (1 ≤ inSegments io < 2 ^ 31)%Z →
  length (positions (initRope io topX topY topZ st)) = (Z.to_nat (inSegments io) + 1)%nat
  ∧ length (prevPositions (initRope io topX topY topZ st))
    = (Z.to_nat (inSegments io) + 1)%nat.
Proof.
  intros Hv. rewrite initRope_spec. simpl. rewrite length_seed, segments_valid by done.
  done.
Qed.

(** The re-seeding callbacks. *)
Lemma port_changed_reseeds (c : change) (io : ports) (st : state) :
  (port_changed c (io, st)).2
  = match c with
    | SetTopX _ | SetTopY _ | SetTopZ _ | SetSegments _ | SetLength _ =>
        initRope (write_port c io) (inTopX (write_port c io))
          (inTopY (write_port c io)) (inTopZ (write_port c io)) st
    | SetBottomX _ | SetBottomY _ | SetBottomZ _
    | SetGravity _ | SetIter _ | SetDamping _ => st
    end.
Proof. by destruct c. Qed.

Lemma inv_port_changed (c : change) (io : ports) (st : state) :
  inv st → inv (port_changed c (io, st)).2.
Proof. intros Hinv. rewrite port_changed_reseeds. destruct c; done || apply inv_initRope. Qed.

Section WithHypot.

Context (hypot : float → float → float → float).

(** On a chain of at least two segments no segment's constraint moves
    the first or the last point. *)
Lemma satisfy_segment_pins (restLen : float) (n i : nat) (ps : list point) :
  (2 ≤ n)%nat → (i < n)%nat → length ps = (n + 1)%nat →
  ∃ ps', satisfy_segment hypot restLen n i ps = Some ps'
    ∧ ps' !! 0%nat = ps !! 0%nat ∧ ps' !! n = ps !! n.
Proof.
  intros Hn Hi Hlen.
  destruct (satisfy_segment_frame hypot restLen n i ps)
    as (ps' & Hseg & _ & Hout & Hfst & Hlst); [lia|].
  exists ps'. split_and!; [done| |].
  - destruct (decide (i = 0%nat)) as [->|Hne]; [by apply Hfst|]. apply Hout; lia.
  - destruct (decide (i = (n - 1)%nat)) as [Hin|Hne].
    + replace n with (i + 1)%nat at 1 2 by lia. apply Hlst; lia.
    + apply Hout; lia.
Qed.

(** [step] returns; it pins the first point in both arrays and the last
    point in [prevPositions], and on a chain of at least two segments
    the last point of [positions] as well. *)
Lemma step_pins (io : ports) (dt topX topY topZ bottomX bottomY bottomZ : float)
  (st : state) (n : nat) :
  chain_ok st → length (positions st) = (n + 1)%nat → (1 ≤ n)%nat →
  ∃ st' maxVel,
    step hypot io dt topX topY topZ bottomX bottomY bottomZ st = Some (st', maxVel)
    ∧ positions st' !! 0%nat = Some (Point topX topY topZ)
    ∧ prevPositions st' !! 0%nat = Some (Point topX topY topZ)
    ∧ prevPositions st' !! n = Some (Point bottomX bottomY bottomZ)
    ∧ ((2 ≤ n)%nat → positions st' !! n = Some (Point bottomX bottomY bottomZ)).
Proof.
  intros Hok Hlen Hn.
  destruct (step_spec hypot io dt topX topY topZ bottomX bottomY bottomZ st n Hok Hlen Hn)
    as (ps' & qs' & mv & ps'' & Hmove & Hsolve & ->).
  destruct (move_points_spec io dt topX topY topZ bottomX bottomY bottomZ n
              (positions st) (prevPositions st))
    as (ps1 & qs1 & mv1 & Hmove1 & Hl1 & _ & Hp0 & Hq0 & Hpn & Hqn & _);
    [unfold chain_ok in Hok; lia..|].
  rewrite Hmove in Hmove1. injection Hmove1 as <- <- <-.
  destruct (solve_frame hypot (inLength io / JS.number_of_nat n) n
              (Z.to_nat (iterations io)) ps' Hl1) as (ps2 & Hsolve2 & _ & H0 & Hlast).
  rewrite Hsolve in Hsolve2. injection Hsolve2 as <-.
  eexists _, _. split; [done|]. simpl. split_and!; try done.
  - by rewrite H0.
  - intros H2. by rewrite Hlast.
Qed.

(** The motion update of [step] and the value [step] returns. *)
Lemma step_motion (io : ports) (dt topX topY topZ bottomX bottomY bottomZ : float)
  (st : state) (n : nat) :
  chain_ok st → length (positions st) = (n + 1)%nat → (1 ≤ n)%nat →
  ∃ ps' qs' maxVel st',
    move_points io dt topX topY topZ bottomX bottomY bottomZ n
      (positions st, prevPositions st) = Some (ps', qs', maxVel)
    ∧ step hypot io dt topX topY topZ bottomX bottomY bottomZ st = Some (st', maxVel)
    ∧ prevPositions st' = qs'
    ∧ (∀ i p q, (1 ≤ i < n)%nat →
         positions st !! i = Some p → prevPositions st !! i = Some q →
         ps' !! i = Some (advance (inGravity io) dt p (velocity (inDamping io) p q))
         ∧ qs' !! i = Some p
         ∧ (maxVel <? speed (velocity (inDamping io) p q)) = false)
    ∧ maxVel = max_speed (free_speeds (inDamping io) (positions st) (prevPositions st))
    ∧ (maxVel = 0
       ∨ ∃ i p q, (1 ≤ i < n)%nat
           ∧ positions st !! i = Some p ∧ prevPositions st !! i = Some q
           ∧ maxVel = speed (velocity (inDamping io) p q))
    ∧ (n = 1%nat → maxVel = 0).
Proof.
  intros Hok Hlen Hn.
  destruct (step_spec hypot io dt topX topY topZ bottomX bottomY bottomZ st n Hok Hlen Hn)
    as (ps' & qs' & mv & ps'' & Hmove & Hsolve & Hstep).
  destruct (move_points_spec io dt topX topY topZ bottomX bottomY bottomZ n
              (positions st) (prevPositions st))
    as (ps1 & qs1 & mv1 & Hmove1 & _ & _ & _ & _ & _ & _ & Hfree & Hmv);
    [unfold chain_ok in Hok; lia..|].
  rewrite Hmove in Hmove1. injection Hmove1 as <- <- <-.
  assert (length (prevPositions st) = (n + 1)%nat) as Hlen'
    by (unfold chain_ok in Hok; lia).
  exists ps', qs', mv, (set_chain ps'' qs' st). split_and!; try done.
  - intros i p q Hi Hp Hq. destruct (Hfree i p q Hi Hp Hq) as [? ?].
    split_and!; try done. rewrite Hmv. apply max_speed_upper.
    apply (free_speeds_elem _ n); [done..|]. by exists i, p, q.
  - destruct (max_speed_attained
                (free_speeds (inDamping io) (positions st) (prevPositions st)))
      as [H0|Hin]; [left; by rewrite Hmv|right].
    apply (free_speeds_elem _ n) in Hin as (i & p & q & ? & ? & ? & Hv); [|done..].
    exists i, p, q. split_and!; try done; try lia. by rewrite Hmv.
  - intros ->. rewrite Hmv. unfold free_speeds, free_points.
    by rewrite Hlen.
Qed.

Lemma still_run_app (fs gs : list frame) (st : state) :
  inv st → still_run hypot (fs ++ gs) st = true →
  still_run hypot fs st = true
  ∧ ∀ st1, run hypot fs st = Some st1 → still_run hypot gs st1 = true.
Proof.
  revert st. induction fs as [|f fs IH]; intros st Hinv Hrun.
  - simpl in *. split; [done|]. by intros st1 [= <-].
  - cbn [app still_run] in Hrun. apply andb_true_iff in Hrun as [Hstill Hrun].
    cbn [still_run run].
    destruct (inv_onTriggered hypot (f_ports f) (f_now f) (f_now' f) st Hinv)
      as (st0 & out & Hf & Hinv0).
    rewrite Hf in Hrun. destruct (IH st0 Hinv0 Hrun) as [Hfs Hgs].
    rewrite Hf. cbn [mbind option_bind]. split; [|done].
    by rewrite Hstill, Hfs.
Qed.

(** Six still frames put an awake operator to sleep, and on the still
    frames that follow every position stays as it is. *)
Lemma sleep_after_still_frames (fs gs : list frame) (st : state) :
  inv st → isSleeping st = false → length fs = 6%nat →
  still_run hypot (fs ++ gs) st = true →
  ∃ st1 st2,
    run hypot fs st = Some st1 ∧ isSleeping st1 = true
    ∧ run hypot gs st1 = Some st2 ∧ isSleeping st2 = true
    ∧ positions st2 = positions st1 ∧ prevPositions st2 = prevPositions st1.
Proof.
  intros Hinv Hs Hlen Hrun.
  destruct (still_run_app fs gs st Hinv Hrun) as [Hfs Hgs].
  destruct (still_run_sleeps hypot fs st Hinv Hfs) as (st1 & Hrun1 & Hinv1 & _ & Hsleep).
  destruct (still_run_sleeps hypot gs st1 Hinv1 (Hgs st1 Hrun1))
    as (st2 & Hrun2 & _ & Hkeep & _).
  assert (isSleeping st1 = true) as Hs1.
  { apply Hsleep. destruct Hinv as (_ & ? & _). unfold SLEEP_FRAMES. lia. }
  destruct (Hkeep Hs1) as (? & ? & ?). by exists st1, st2.
Qed.

(** A frame on a sleeping operator whose inputs did not move is
    [begin_frame] alone: no call of [step], no position changed. *)
Lemma asleep_frame (io : ports) (now now' : float) (st : state) :
  inv st → isSleeping st = true → inputsMoved io st = false →
  onTriggered hypot io now now' st
  = Some (begin_frame io now st, flatten (positions st))
  ∧ positions (begin_frame io now st) = positions st
  ∧ prevPositions (begin_frame io now st) = prevPositions st
  ∧ isSleeping (begin_frame io now st) = true.
Proof.
  intros Hinv Hs Hm.
  destruct (begin_frame_inv io now st Hinv) as (_ & Hs0 & _ & _ & Hkeep).
  assert (positions st ≠ []) as Hne.
  { destruct Hinv as (_ & _ & _ & Hnil). intros [? _]%Hnil. congruence. }
  destruct (Hkeep Hne) as [Hp Hq].
  rewrite onTriggered_asleep by congruence. rewrite Hp. split_and!; congruence.
Qed.

(** Every reachable state satisfies the invariant. *)
Lemma reachable_inv (st : state) : reachable hypot st → inv st.
Proof.
  induction 1 as [t0|io now now' st st' out _ IH Hf|c io st _ IH].
  - apply inv_initial.
  - destruct (inv_onTriggered hypot io now now' st IH) as (st1 & out1 & Hf1 & Hinv1).
    rewrite Hf in Hf1. by injection Hf1 as -> _.
  - by apply inv_port_changed.
Qed.

End WithHypot.

End Rope3DResults.

(** ** Facts about the 2D operator *)

Module Rope2DFacts.

Import Rope2D.
Local Open Scope float_scope.

Local Arguments pin_point : simpl never.
Local Arguments for_rangeM : simpl never.
Local Arguments solve : simpl never.
Local Arguments move_points : simpl never.

Lemma point_eta_2d (p : point) : Point (x p) (y p) = p.
Proof. by destruct p. Qed.

Lemma pin_point_spec_2d (i : nat) (px py : float) (ps qs : list point) :
  (i < length ps)%nat → (i < length qs)%nat →
  pin_point i px py (ps, qs)
  = Some (<[i := Point px py]> ps, <[i := Point px py]> qs).
Proof.
  intros [p Hp]%lookup_lt_is_Some [q Hq]%lookup_lt_is_Some. unfold pin_point.
  rewrite Hp, Hq. simpl. rewrite list_lookup_insert_eq by by eapply lookup_lt_Some.
  done.
Qed.

Lemma integrate_point_spec_2d (g damping dt : float) (i : nat)
  (ps qs : list point) (maxVel : float) (p q : point) :
  ps !! i = Some p → qs !! i = Some q →
  integrate_point g damping dt i (ps, qs, maxVel)
  = Some (<[i := advance g dt p (velocity damping p q)]> ps, <[i := p]> qs,
          if maxVel <? speed (velocity damping p q)
          then speed (velocity damping p q) else maxVel).
Proof.
  intros Hp Hq. unfold integrate_point. rewrite Hp, Hq. simpl.
  by rewrite point_eta_2d.
Qed.

Lemma speeds_below_S_2d (damping : float) (j : nat) (ps qs : list point) (p q : point) :
  (1 ≤ j)%nat → length qs = length ps →
  ps !! j = Some p → qs !! j = Some q →
  speeds_below damping (Datatypes.S j) ps qs
  = speeds_below damping j ps qs ++ [speed (velocity damping p q)].
Proof.
  intros Hj Hlen Hp Hq. unfold speeds_below.
  replace (Datatypes.S j - 1)%nat with (Datatypes.S (j - 1)) by lia.
  rewrite (take_S_r _ _ p), (take_S_r _ _ q).
  - rewrite zip_with_app; [done|]. rewrite !length_take, !length_drop. lia.
  - rewrite lookup_drop. by replace (1 + (j - 1))%nat with j by lia.
  - rewrite lookup_drop. by replace (1 + (j - 1))%nat with j by lia.
Qed.

(** The Verlet loop of [step]: what it leaves in the arrays and in [maxVel]. *)
Lemma integrate_loop_spec_2d (g damping dt : float) (n : nat) (ps0 qs0 : list point) :
  (1 ≤ n)%nat → (n < length ps0)%nat → length qs0 = length ps0 →
  ∃ ps qs maxVel,
    for_rangeM (integrate_point g damping dt) 1 (n - 1) (ps0, qs0, 0)
    = Some (ps, qs, maxVel)
    ∧ length ps = length ps0 ∧ length qs = length qs0
    ∧ (∀ i p q, (1 ≤ i < n)%nat → ps0 !! i = Some p → qs0 !! i = Some q →
         ps !! i = Some (advance g dt p (velocity damping p q)) ∧ qs !! i = Some p)
    ∧ (∀ i, (i < 1 ∨ n ≤ i)%nat → ps !! i = ps0 !! i ∧ qs !! i = qs0 !! i)
    ∧ maxVel = max_speed (speeds_below damping n ps0 qs0).
Proof.
  intros Hn Hlt Hlen.
  pose (I := λ (j : nat) (s : list point * list point * float),
    length s.1.1 = length ps0 ∧ length s.1.2 = length qs0
    ∧ (∀ i p q, (1 ≤ i < j)%nat → ps0 !! i = Some p → qs0 !! i = Some q →
         s.1.1 !! i = Some (advance g dt p (velocity damping p q)) ∧ s.1.2 !! i = Some p)
    ∧ (∀ i, (i < 1 ∨ j ≤ i)%nat → s.1.1 !! i = ps0 !! i ∧ s.1.2 !! i = qs0 !! i)
    ∧ s.2 = max_speed (speeds_below damping j ps0 qs0)).
  destruct (for_rangeM_rule I (integrate_point g damping dt) 1 (n - 1) (ps0, qs0, 0))
    as ([[ps qs] mv] & Hrun & HI).
  - unfold I; simpl. split_and!; try done. intros; lia.
  - intros j [[ps qs] mv] Hj (Hl1 & Hl2 & Hdone & Hrest & Hmv); simpl in *.
    destruct (Hrest j) as [Hpj Hqj]; [lia|].
    destruct (lookup_lt_is_Some_2 ps0 j) as [p Hp]; [lia|].
    destruct (lookup_lt_is_Some_2 qs0 j) as [q Hq]; [lia|].
    rewrite Hp in Hpj. rewrite Hq in Hqj.
    eexists. split; [by apply integrate_point_spec_2d|].
    unfold I; simpl. rewrite !length_insert. split_and!; try done.
    + intros i p0 q0 Hi Hp0 Hq0. destruct (decide (i = j)) as [->|Hne].
      * rewrite !list_lookup_insert_eq by lia. split; congruence.
      * rewrite !list_lookup_insert_ne by done. apply (Hdone i p0 q0); [lia|done..].
    + intros i Hi. rewrite !list_lookup_insert_ne by lia. apply Hrest. lia.
    + rewrite (speeds_below_S_2d damping j ps0 qs0 p q) by (done || lia).
      rewrite max_speed_snoc. by rewrite Hmv.
  - exists ps, qs, mv. replace (1 + (n - 1))%nat with n in HI by lia.
    destruct HI as (? & ? & ? & ? & ?). done.
Qed.


Lemma speeds_below_free_2d (damping : float) (n : nat) (ps qs : list point) (b : point) :
  (1 ≤ n)%nat → length ps = (n + 1)%nat → length qs = (n + 1)%nat →
  speeds_below damping n (<[n := b]> ps) (<[n := b]> qs) = free_speeds damping ps qs.
Proof.
  intros Hn Hps Hqs. unfold speeds_below, free_speeds, free_points.
  rewrite !drop_insert_ge, !take_insert_ge by lia.
  by replace (length ps - 2)%nat with (n - 1)%nat by lia;
     replace (length qs - 2)%nat with (n - 1)%nat by lia.
Qed.

(** The first half of [step]: both ends pinned in both arrays, the free
    points moved, [maxVel] the largest speed. *)
Lemma move_points_spec_2d (io : ports) (dt topX topY bottomX bottomY : float)
  (n : nat) (ps qs : list point) :
  (1 ≤ n)%nat → length ps = (n + 1)%nat → length qs = (n + 1)%nat →
  ∃ ps' qs' maxVel,
    move_points io dt topX topY bottomX bottomY n (ps, qs)
    = Some (ps', qs', maxVel)
    ∧ length ps' = (n + 1)%nat ∧ length qs' = (n + 1)%nat
    ∧ ps' !! 0%nat = Some (Point topX topY)
    ∧ qs' !! 0%nat = Some (Point topX topY)
    ∧ ps' !! n = Some (Point bottomX bottomY)
    ∧ qs' !! n = Some (Point bottomX bottomY)
    ∧ (∀ i p q, (1 ≤ i < n)%nat → ps !! i = Some p → qs !! i = Some q →
         ps' !! i = Some (advance (inGravity io) dt p (velocity (inDamping io) p q))
         ∧ qs' !! i = Some p)
    ∧ maxVel = max_speed (free_speeds (inDamping io) ps qs).
Proof.
  intros Hn Hps Hqs. unfold move_points.
  rewrite pin_point_spec_2d by lia. simpl.
  set (b := Point bottomX bottomY).
  destruct (integrate_loop_spec_2d (inGravity io) (inDamping io) dt n
              (<[n := b]> ps) (<[n := b]> qs))
    as (ps1 & qs1 & mv & -> & Hl1 & Hl2 & Hfree & Hrest & Hmv);
    [rewrite ?length_insert; lia..|].
  rewrite !length_insert in Hl1, Hl2. simpl.
  rewrite pin_point_spec_2d by lia. simpl.
  exists (<[0%nat := Point topX topY]> ps1),
         (<[0%nat := Point topX topY]> qs1), mv.
  rewrite !length_insert. split_and!; try done; try lia.
  - apply list_lookup_insert_eq. lia.
  - apply list_lookup_insert_eq. lia.
  - rewrite list_lookup_insert_ne by lia.
    destruct (Hrest n) as [-> _]; [lia|]. apply list_lookup_insert_eq. lia.
  - rewrite list_lookup_insert_ne by lia.
    destruct (Hrest n) as [_ ->]; [lia|]. apply list_lookup_insert_eq. lia.
  - intros i p q Hi Hp Hq. rewrite !list_lookup_insert_ne by lia.
    apply Hfree; [done|by rewrite list_lookup_insert_ne by lia..].
  - rewrite Hmv. by rewrite speeds_below_free_2d.
Qed.

Section WithHypot.

Context (hypot : float → float → float).

(** A segment's constraint keeps the length of the array, every point
    outside the segment, the first point of segment 0, and the last
    point of segment [n - 1] unless that is segment 0 as well. *)
Lemma satisfy_segment_frame_2d (restLen : float) (n i : nat) (ps : list point) :
  (i + 1 < length ps)%nat →
  ∃ ps', satisfy_segment hypot restLen n i ps = Some ps'
    ∧ length ps' = length ps
    ∧ (∀ j, j ≠ i → j ≠ (i + 1)%nat → ps' !! j = ps !! j)
    ∧ (i = 0%nat → ps' !! i = ps !! i)
    ∧ (i ≠ 0%nat → i = (n - 1)%nat → ps' !! (i + 1)%nat = ps !! (i + 1)%nat).
Proof.
  intros Hi.
  destruct (lookup_lt_is_Some_2 ps i) as [p1 Hp1]; [lia|].
  destruct (lookup_lt_is_Some_2 ps (i + 1)) as [p2 Hp2]; [lia|].
  unfold satisfy_segment. rewrite Hp1, Hp2. simpl.
  destruct (JS.truthy _); simpl; [|by exists ps].
  destruct (Nat.eqb_spec i 0) as [Hi0|Hi0]; [|destruct (Nat.eqb_spec i (n - 1)) as [Hin|Hin]];
    (eexists; split; [reflexivity|]);
    rewrite ?length_insert; split_and!; try done; intros;
    rewrite ?list_lookup_insert_ne by lia; done.
Qed.

(** One pass keeps the length and the first point and, on a chain of at
    least two segments, the last point. *)
Lemma relax_pass_frame_2d (restLen : float) (n : nat) (ps : list point) :
  length ps = (n + 1)%nat →
  ∃ ps', relax_pass hypot restLen n ps = Some ps'
    ∧ length ps' = (n + 1)%nat
    ∧ ps' !! 0%nat = ps !! 0%nat
    ∧ ((2 ≤ n)%nat → ps' !! n = ps !! n).
Proof.
  intros Hlen. unfold relax_pass.
  apply (for_rangeM_inv (λ ps', length ps' = (n + 1)%nat
           ∧ ps' !! 0%nat = ps !! 0%nat ∧ ((2 ≤ n)%nat → ps' !! n = ps !! n))).
  { done. }
  intros i t Hi (Ht & H0 & Hn).
  destruct (satisfy_segment_frame_2d restLen n i t) as (t' & -> & Hl & Hout & Hfst & Hlst);
    [lia|].
  exists t'. split; [done|]. split_and!.
  - lia.
  - rewrite <- H0. destruct (decide (i = 0%nat)) as [->|Hne]; [by apply Hfst|].
    apply Hout; lia.
  - intros H2. rewrite <- (Hn H2).
    destruct (decide (i = (n - 1)%nat)) as [Hin|Hne].
    + replace n with (i + 1)%nat at 1 2 by lia. apply Hlst; lia.
    + apply Hout; lia.
Qed.

(** The solver keeps them too, whatever the number of passes. *)
Lemma solve_frame_2d (restLen : float) (n iters : nat) (ps : list point) :
  length ps = (n + 1)%nat →
  ∃ ps', solve hypot restLen n iters ps = Some ps'
    ∧ length ps' = (n + 1)%nat
    ∧ ps' !! 0%nat = ps !! 0%nat
    ∧ ((2 ≤ n)%nat → ps' !! n = ps !! n).
Proof.
  intros Hlen. unfold solve.
  apply (repeatM_inv (λ ps', length ps' = (n + 1)%nat
           ∧ ps' !! 0%nat = ps !! 0%nat ∧ ((2 ≤ n)%nat → ps' !! n = ps !! n))).
  { done. }
  intros t (Ht & H0 & Hn).
  destruct (relax_pass_frame_2d restLen n t Ht) as (t' & -> & Hl & H0' & Hn').
  exists t'. split; [done|]. split_and!; [done|congruence|].
  intros H2. rewrite Hn' by done. by apply Hn.
Qed.

(** [step] on a chain of [n >= 1] segments: it returns, and its result
    is the solver run on the chain [move_points] leaves. *)
Lemma step_spec_2d (io : ports) (dt topX topY bottomX bottomY : float)
  (st : state) (n : nat) :
  chain_ok st → length (positions st) = (n + 1)%nat → (1 ≤ n)%nat →
  ∃ ps' qs' maxVel ps'',
    move_points io dt topX topY bottomX bottomY n
      (positions st, prevPositions st) = Some (ps', qs', maxVel)
    ∧ solve hypot (inLength io / JS.number_of_nat n) n
        (Z.to_nat (iterations io)) ps' = Some ps''
    ∧ step hypot io dt topX topY bottomX bottomY st
      = Some (set_chain ps'' qs' st, maxVel).
Proof.
  intros Hok Hlen Hn. unfold chain_ok in Hok.
  destruct (move_points_spec_2d io dt topX topY bottomX bottomY n
              (positions st) (prevPositions st))
    as (ps' & qs' & mv & Hmove & Hl1 & _); [lia..|].
  destruct (solve_frame_2d (inLength io / JS.number_of_nat n) n
              (Z.to_nat (iterations io)) ps' Hl1) as (ps'' & Hsolve & _).
  exists ps', qs', mv, ps''. split_and!; [done..|].
  unfold step. rewrite Hlen.
  replace (n + 1 - 1)%nat with n by lia.
  destruct (Nat.ltb_spec n 1) as [?|_]; [lia|].
  rewrite Hmove. simpl. rewrite Hsolve. done.
Qed.

(** A segment with a positive length: which points its constraint
    replaces, and by what. *)
Lemma satisfy_segment_moves_2d (restLen : float) (n i : nat) (ps : list point)
  (p1 p2 : point) :
  ps !! i = Some p1 → ps !! (i + 1)%nat = Some p2 →
  let d := delta p1 p2 in
  let dist := hypot (x d) (y d) in
  let correction := (dist - restLen) / dist in
  (0 <? dist) = true →
  satisfy_segment hypot restLen n i ps
  = Some (if decide (i = 0%nat)
          then <[(i + 1)%nat := minus_scaled p2 d correction]> ps
          else if decide (i = (n - 1)%nat)
          then <[i := plus_scaled p1 d correction]> ps
          else <[(i + 1)%nat := minus_scaled p2 d (correction * 0.5)]>
                 (<[i := plus_scaled p1 d (correction * 0.5)]> ps)).
Proof.
  intros Hp1 Hp2 d dist correction Hdist.
  unfold satisfy_segment. rewrite Hp1, Hp2. cbn [mbind option_bind].
  fold (x d) in *. change (hypot _ _) with dist.
  rewrite (positive_truthy dist Hdist). cbn [negb].
  destruct (Nat.eqb_spec i 0); [by rewrite decide_True|].
  rewrite decide_False by done.
  destruct (Nat.eqb_spec i (n - 1)); [by rewrite decide_True|].
  by rewrite decide_False.
Qed.

(** A segment whose length is falsy (a zero or NaN) is left alone. *)
Lemma satisfy_segment_skips_2d (restLen : float) (n i : nat) (ps : list point)
  (p1 p2 : point) :
  ps !! i = Some p1 → ps !! (i + 1)%nat = Some p2 →
  JS.truthy (hypot (x (delta p1 p2)) (y (delta p1 p2))) = false →
  satisfy_segment hypot restLen n i ps = Some ps.
Proof.
  intros Hp1 Hp2 Hdist.
  unfold satisfy_segment. rewrite Hp1, Hp2. cbn [mbind option_bind].
  change (hypot _ _) with (hypot (x (delta p1 p2)) (y (delta p1 p2))).
  by rewrite Hdist.
Qed.

(** A pass that reaches a segment of length zero goes on with the next
    segment, on the chain as it is. *)
Lemma relax_pass_skips_2d (restLen : float) (n i : nat) (ps t : list point)
  (p1 p2 : point) :
  (i < n)%nat →
  for_rangeM (satisfy_segment hypot restLen n) 0 i ps = Some t →
  t !! i = Some p1 → t !! (i + 1)%nat = Some p2 →
  (hypot (x (delta p1 p2)) (y (delta p1 p2)) =? 0) = true →
  satisfy_segment hypot restLen n i t = Some t
  ∧ relax_pass hypot restLen n ps
    = for_rangeM (satisfy_segment hypot restLen n) (i + 1) (n - (i + 1)) t.
Proof.
  intros Hi Hrun Hp1 Hp2 Hdist.
  assert (satisfy_segment hypot restLen n i t = Some t) as Hskip.
  { apply (satisfy_segment_skips_2d restLen n i t p1 p2); [done..|]. by apply zero_falsy. }
  split; [done|]. unfold relax_pass.
  replace n with (i + (1 + (n - (i + 1))))%nat at 2 by lia.
  rewrite for_rangeM_split, Hrun. cbn [mbind option_bind].
  rewrite for_rangeM_split, for_rangeM_1. cbn [Nat.add]. rewrite Hskip. done.
Qed.

(** The solver of [step]: [inIter] passes, each over the segments
    [0, 1, ..., n - 1] in this order. *)
Lemma step_solver_2d (io : ports) (dt topX topY bottomX bottomY : float)
  (st : state) (n : nat) :
  chain_ok st → length (positions st) = (n + 1)%nat → (1 ≤ n)%nat →
  (1 ≤ inIter io < 2 ^ 31)%Z →
  ∃ ps' qs' maxVel ps'',
    move_points io dt topX topY bottomX bottomY n
      (positions st, prevPositions st) = Some (ps', qs', maxVel)
    ∧ Nat.iter (Z.to_nat (inIter io))
        (λ acc, acc ≫= visit_in_order
           (satisfy_segment hypot (inLength io / JS.number_of_nat n) n) (seq 0 n))
        (Some ps') = Some ps''
    ∧ step hypot io dt topX topY bottomX bottomY st
      = Some (set_chain ps'' qs' st, maxVel).
Proof.
  intros Hok Hlen Hn Hiter.
  destruct (step_spec_2d io dt topX topY bottomX bottomY st n Hok Hlen Hn)
    as (ps' & qs' & mv & ps'' & Hmove & Hsolve & Hstep).
  exists ps', qs', mv, ps''. split_and!; [done| |done].
  rewrite <- Hsolve. unfold solve, iterations.
  rewrite to_int32_id, Z.max_r by lia. rewrite repeatM_iter.
  apply iter_bind_ext. intros t. symmetry. apply for_rangeM_visit.
Qed.

End WithHypot.

End Rope2DFacts.

(** ** Facts about the frames of the 2D operator *)

Module Rope2DFrameFacts.

Import Rope2D Rope2DFacts.
Local Open Scope float_scope.

Local Arguments for_rangeM : simpl never.
Local Arguments for_range : simpl never.
Local Arguments step : simpl never.
Local Arguments sync_prev : simpl never.
Local Arguments initRope : simpl never.
Local Arguments flatten : simpl never.
Local Arguments settle : simpl never.
Local Arguments begin_frame : simpl never.

(** The seeding loop pushes the same points on both arrays. *)
Lemma for_range_push_2d (f : nat → point) (i count : nat) (ps qs : list point) :
  for_range (λ i '(ps, qs), (ps ++ [f i], qs ++ [f i])) i count (ps, qs)
  = (ps ++ map f (seq i count), qs ++ map f (seq i count)).
Proof.
  revert i ps qs. induction count as [|k IH]; intros i ps qs; simpl.
  - by rewrite !app_nil_r.
  - unfold for_range; fold (@for_range (list point * list point)).
    rewrite IH. by rewrite <- !app_assoc.
Qed.

Lemma initRope_spec_2d (io : ports) (topX topY : float) (st : state) :
  initRope io topX topY st
  = set_sleep false 0 (set_chain (seed io topX topY) (seed io topX topY) st).
Proof.
  unfold initRope, seed.
  by rewrite (for_range_push_2d
    (λ i, Point topX (topY - inLength io / JS.number_of_Z (segments io)
                             * JS.number_of_nat i))).
Qed.

Lemma length_seed_2d (io : ports) (topX topY : float) :
  length (seed io topX topY) = (Z.to_nat (segments io) + 1)%nat.
Proof. unfold seed. by rewrite length_map, length_seq. Qed.

Lemma seed_not_nil_2d (io : ports) (topX topY : float) :
  seed io topX topY ≠ [].
Proof. intros H%(f_equal length). rewrite length_seed_2d in H. simpl in H. lia. Qed.

(** The copy loop of the frame callback makes [prevPositions] equal to
    [positions]. *)
Lemma sync_prev_spec_2d (st : state) :
  chain_ok st → sync_prev st = Some (set_prevPositions (positions st) st).
Proof.
  intros Hok. unfold sync_prev, chain_ok in *.
  destruct (for_rangeM_rule
    (λ j qs, length qs = length (positions st)
             ∧ (∀ i, (i < j)%nat → qs !! i = positions st !! i))
    (λ i qs, _ ← qs !! i; p ← positions st !! i;
             Some (<[i := Point (x p) (y p)]> qs))
    0 (length (positions st)) (prevPositions st)) as (qs & -> & Hl & Hqs).
  - split; [done|]. intros; lia.
  - intros j qs Hj [Hl Hqs].
    destruct (lookup_lt_is_Some_2 qs j) as [q ->]; [lia|].
    destruct (lookup_lt_is_Some_2 (positions st) j) as [p Hp]; [lia|].
    rewrite Hp. simpl. eexists. split; [done|]. rewrite length_insert.
    split; [done|]. intros i Hi. destruct (decide (i = j)) as [->|Hne].
    + rewrite list_lookup_insert_eq by lia. by rewrite point_eta_2d.
    + rewrite list_lookup_insert_ne by done. apply Hqs. lia.
  - simpl. do 2 f_equal. apply list_eq. intros i.
    destruct (decide (i < length (positions st))%nat) as [Hi|Hi]; [by apply Hqs|].
    rewrite !lookup_ge_None_2 by lia. done.
Qed.

Section WithHypot.

Context (hypot : float → float → float).

(** [step] returns on every state with two arrays of the same length;
    it keeps their lengths and touches nothing but the arrays. *)
Lemma step_total_2d (io : ports) (dt topX topY bottomX bottomY : float)
  (st : state) :
  chain_ok st →
  ∃ ps qs maxVel,
    step hypot io dt topX topY bottomX bottomY st
    = Some (set_chain ps qs st, maxVel)
    ∧ length ps = length (positions st)
    ∧ length qs = length (prevPositions st).
Proof.
  intros Hok.
  destruct (decide (length (positions st) - 1 < 1)%nat) as [Hn|Hn].
  - exists (positions st), (prevPositions st), 0.
    split; [|done]. unfold step.
    destruct (Nat.ltb_spec (length (positions st) - 1) 1); [|lia].
    by destruct st.
  - destruct (step_spec_2d hypot io dt topX topY bottomX bottomY st
                (length (positions st) - 1)) as (ps' & qs' & mv & ps'' & Hm & Hs & ->);
      [done|lia|lia|].
    destruct (move_points_spec_2d io dt topX topY bottomX bottomY
                (length (positions st) - 1) (positions st) (prevPositions st))
      as (ps1 & qs1 & mv1 & Hm1 & Hl1 & Hl2 & _);
      [unfold chain_ok in Hok; lia..|].
    rewrite Hm in Hm1. injection Hm1 as <- <- <-.
    destruct (solve_frame_2d hypot (inLength io / JS.number_of_nat (length (positions st) - 1))
                (length (positions st) - 1) (Z.to_nat (iterations io)) ps' Hl1)
      as (ps2 & Hs2 & Hl3 & _).
    rewrite Hs in Hs2. injection Hs2 as <-.
    exists ps'', qs', mv. unfold chain_ok in Hok. split_and!; [done|lia..].
Qed.


Lemma begin_frame_seeded_2d (io : ports) (now : float) (st : state) :
  positions st ≠ [] →
  begin_frame io now st
  = set_last (inTopX io) (inTopY io)
      (inBottomX io) (inBottomY io) (set_lastTime now st).
Proof.
  intros Hne. unfold begin_frame. simpl.
  destruct (positions st); [done|]. done.
Qed.

Lemma begin_frame_unseeded_2d (io : ports) (now : float) (st : state) :
  positions st = [] →
  begin_frame io now st
  = initRope io (inTopX io) (inTopY io)
      (set_last (inTopX io) (inTopY io)
         (inBottomX io) (inBottomY io) (set_lastTime now st)).
Proof. intros Hnil. unfold begin_frame. simpl. by rewrite Hnil. Qed.

(** The start of a frame keeps the invariant and the sleep state, and
    leaves a seeded chain. *)
Lemma begin_frame_inv_2d (io : ports) (now : float) (st : state) :
  inv st →
  inv (begin_frame io now st)
  ∧ isSleeping (begin_frame io now st) = isSleeping st
  ∧ sleepCounter (begin_frame io now st) = sleepCounter st
  ∧ positions (begin_frame io now st) ≠ []
  ∧ (positions st ≠ [] →
     positions (begin_frame io now st) = positions st
     ∧ prevPositions (begin_frame io now st) = prevPositions st).
Proof.
  intros (Hok & Hc0 & Hc6 & Hnil).
  destruct (decide (positions st = [])) as [He|Hne].
  - destruct (Hnil He) as [Hs Hc]. rewrite begin_frame_unseeded_2d, initRope_spec_2d by done.
    simpl. split_and!; try done. apply seed_not_nil_2d.
  - rewrite begin_frame_seeded_2d by done. simpl. split_and!; try done.
Qed.

(** The bookkeeping after [step]. *)
Lemma settle_spec_2d (moved : bool) (maxVel : float) (st : state) :
  chain_ok st →
  ∃ st', settle moved maxVel st = Some st'
    ∧ positions st' = positions st
    ∧ chain_ok st'
    ∧ (if negb moved && (maxVel <? VEL_EPS)
       then sleepCounter st' = (sleepCounter st + 1)%Z
            ∧ (if (SLEEP_FRAMES <=? sleepCounter st + 1)%Z
               then isSleeping st' = true ∧ prevPositions st' = positions st
               else isSleeping st' = isSleeping st
                    ∧ prevPositions st' = prevPositions st)
       else sleepCounter st' = 0%Z ∧ isSleeping st' = isSleeping st
            ∧ prevPositions st' = prevPositions st).
Proof.
  intros Hok. unfold settle.
  destruct (negb moved && (maxVel <? VEL_EPS)); simpl.
  - destruct (SLEEP_FRAMES <=? sleepCounter st + 1)%Z.
    + rewrite sync_prev_spec_2d by done. eexists. split; [done|]. simpl.
      unfold chain_ok. simpl. done.
    + eexists. split; [done|]. simpl. done.
  - eexists. split; [done|]. simpl. done.
Qed.

(** A frame that starts asleep with unmoved inputs does not call [step]:
    it is [begin_frame] alone. *)
Lemma onTriggered_asleep_2d (io : ports) (now now' : float) (st : state) :
  isSleeping (begin_frame io now st) = true → inputsMoved io st = false →
  onTriggered hypot io now now' st
  = Some (begin_frame io now st, flatten (positions (begin_frame io now st))).
Proof.
  intros Hs Hm. unfold onTriggered. rewrite Hs, Hm. simpl. by rewrite Hs.
Qed.

(** A frame that starts awake calls [step] with the frame's [dt]. *)
Lemma onTriggered_awake_2d (io : ports) (now now' : float) (st : state) :
  isSleeping (begin_frame io now st) = false →
  onTriggered hypot io now now' st
  = '(st1, maxVel) ← step hypot io (frame_dt now st)
                       (inTopX io) (inTopY io)
                       (inBottomX io) (inBottomY io)
                       (begin_frame io now st);
    st2 ← settle (inputsMoved io st) maxVel st1;
    Some (st2, flatten (positions st2)).
Proof.
  intros Hs. unfold onTriggered. rewrite Hs. simpl. rewrite Hs. simpl.
  destruct (step _ _ _ _ _ _ _ _) as [[st1 mv]|]; done.
Qed.

(** A frame that starts asleep with moved inputs wakes up and calls
    [step] with a [dt] of 0. *)
Lemma onTriggered_wake_2d (io : ports) (now now' : float) (st : state) :
  chain_ok (begin_frame io now st) →
  isSleeping (begin_frame io now st) = true → inputsMoved io st = true →
  onTriggered hypot io now now' st
  = '(st1, maxVel) ← step hypot io 0
                       (inTopX io) (inTopY io)
                       (inBottomX io) (inBottomY io)
                       (woken io now now' st);
    st2 ← settle true maxVel st1;
    Some (st2, flatten (positions st2)).
Proof.
  intros Hok Hs Hm. unfold onTriggered, wake. rewrite Hs, Hm. simpl.
  rewrite sync_prev_spec_2d by done. simpl. fold (woken io now now' st).
  destruct (step _ _ _ _ _ _ _ _) as [[st1 mv]|]; done.
Qed.


(** The awake part of a frame, on an awake state [base] with a seeded
    chain: [step] and the bookkeeping return, and the invariant holds
    afterwards. *)
Lemma awake_frame_end_2d (io : ports) (moved : bool)
  (dt topX topY bottomX bottomY : float) (base : state) :
  chain_ok base → isSleeping base = false →
  (0 ≤ sleepCounter base < SLEEP_FRAMES)%Z → positions base ≠ [] →
  ∃ ps qs maxVel st',
    step hypot io dt topX topY bottomX bottomY base
    = Some (set_chain ps qs base, maxVel)
    ∧ settle moved maxVel (set_chain ps qs base) = Some st'
    ∧ inv st'
    ∧ positions st' = ps
    ∧ (if negb moved && (maxVel <? VEL_EPS)
       then isSleeping st' = true
            ∨ (isSleeping st' = false
               ∧ sleepCounter st' = (sleepCounter base + 1)%Z)
       else isSleeping st' = false ∧ sleepCounter st' = 0%Z).
Proof.
  intros Hok Hs Hc Hne.
  destruct (step_total_2d io dt topX topY bottomX bottomY base Hok)
    as (ps & qs & mv & Hstep & Hl1 & Hl2).
  assert (chain_ok (set_chain ps qs base)) as Hok'.
  { unfold chain_ok in *. simpl. lia. }
  destruct (settle_spec_2d moved mv (set_chain ps qs base) Hok')
    as (st' & Hsettle & Hpos & Hok'' & Hcases).
  simpl in *. exists ps, qs, mv, st'. split_and!; try done.
  - assert (positions st' ≠ []) as Hne'.
    { rewrite Hpos. intros ->. destruct (positions base); [done|]. simpl in *. lia. }
    unfold inv, SLEEP_FRAMES in *.
    destruct (negb moved && (mv <? VEL_EPS)).
    + destruct Hcases as [Hc' Hcases].
      destruct (Z.leb_spec 6 (sleepCounter base + 1)); destruct Hcases as [Hs' _];
        split_and!; try done; try lia; rewrite Hs'; try done; intros; lia.
    + destruct Hcases as (Hc' & Hs' & _). split_and!; try done; try lia.
  - destruct (negb moved && (mv <? VEL_EPS)).
    + destruct Hcases as [Hc' Hcases].
      destruct (SLEEP_FRAMES <=? sleepCounter base + 1)%Z;
        destruct Hcases as [Hs' _]; [by left|right]. by rewrite Hs'.
    + destruct Hcases as (Hc' & Hs' & _). by rewrite Hs'.
Qed.

(** Every frame returns and keeps the invariant. *)
Lemma inv_onTriggered_2d (io : ports) (now now' : float) (st : state) :
  inv st →
  ∃ st' out, onTriggered hypot io now now' st = Some (st', out) ∧ inv st'.
Proof.
  intros Hinv.
  destruct (begin_frame_inv_2d io now st Hinv) as (Hinv0 & Hs0 & Hc0 & Hne0 & _).
  pose proof Hinv0 as (Hok0 & Hge0 & Hlt0 & _).
  destruct (isSleeping st) eqn:Hs; [destruct (inputsMoved io st) eqn:Hm|].
  - rewrite onTriggered_wake_2d by done.
    destruct (awake_frame_end_2d io true 0 (inTopX io) (inTopY io)
                (inBottomX io) (inBottomY io) (woken io now now' st))
      as (ps & qs & mv & st' & -> & Hsettle & Hinv' & _);
      [by unfold chain_ok | done | done | done |].
    cbn [mbind option_bind]. rewrite Hsettle. by eexists _, _.
  - rewrite onTriggered_asleep_2d by done. by eexists _, _.
  - rewrite onTriggered_awake_2d by done.
    destruct (awake_frame_end_2d io (inputsMoved io st) (frame_dt now st)
                (inTopX io) (inTopY io)
                (inBottomX io) (inBottomY io) (begin_frame io now st))
      as (ps & qs & mv & st' & -> & Hsettle & Hinv' & _);
      [done | done | rewrite Hc0; split; [by destruct Hinv as (_ & ? & _)|] | done |].
    { rewrite <- Hc0. by apply Hlt0. }
    cbn [mbind option_bind]. rewrite Hsettle. by eexists _, _.
Qed.

Lemma inv_initial_2d (t0 : float) : inv (initial t0).
Proof. by unfold inv, chain_ok, SLEEP_FRAMES. Qed.

Lemma inv_initRope_2d (io : ports) (topX topY : float) (st : state) :
  inv (initRope io topX topY st).
Proof.
  rewrite initRope_spec_2d. unfold inv, chain_ok, SLEEP_FRAMES. simpl.
  split_and!; try done.
Qed.

(** A still frame returns, keeps the invariant, freezes a sleeping
    chain and brings an awake one one frame closer to sleep. *)
Lemma still_frame_2d (f : frame) (st : state) :
  inv st → still hypot f st = true →
  ∃ st' out,
    onTriggered hypot (f_ports f) (f_now f) (f_now' f) st = Some (st', out)
    ∧ inv st'
    ∧ (isSleeping st = true →
       st' = begin_frame (f_ports f) (f_now f) st
       ∧ isSleeping st' = true
       ∧ positions st' = positions st
       ∧ prevPositions st' = prevPositions st)
    ∧ (isSleeping st = false →
       isSleeping st' = true ∨ sleepCounter st' = (sleepCounter st + 1)%Z).
Proof.
  intros Hinv [Hm%negb_true_iff Hv]%andb_true_iff.
  destruct f as [io now now']. simpl in *.
  destruct (begin_frame_inv_2d io now st Hinv) as (Hinv0 & Hs0 & Hc0 & Hne0 & Hkeep).
  pose proof Hinv0 as (Hok0 & Hge0 & Hlt0 & _).
  destruct (isSleeping st) eqn:Hs.
  - rewrite onTriggered_asleep_2d by done. eexists _, _. split; [done|].
    destruct Hinv as (_ & _ & _ & Hnil).
    assert (positions st ≠ []) as Hne by (intros [? _]%Hnil; congruence).
    destruct (Hkeep Hne) as [Hp Hq]. split_and!; done.
  - rewrite onTriggered_awake_2d by done.
    destruct (awake_frame_end_2d io (inputsMoved io st) (frame_dt now st)
                (inTopX io) (inTopY io)
                (inBottomX io) (inBottomY io) (begin_frame io now st))
      as (ps & qs & mv' & st' & Hstep & Hsettle & Hinv' & _ & Hcases);
      [done | done | split; [done | by apply Hlt0] | done |].
    unfold frame_maxVel in Hv. simpl in Hv. rewrite Hstep in Hv. simpl in Hv.
    rewrite Hstep. cbn [mbind option_bind]. rewrite Hsettle.
    eexists _, _. split; [done|]. split; [done|]. split; [done|].
    intros _. rewrite Hm, Hv in Hcases. simpl in Hcases.
    destruct Hcases as [?|[_ ?]]; [by left|right; congruence].
Qed.

(** Still frames put the operator to sleep once the counter reaches
    [SLEEP_FRAMES], and keep it asleep with every position unchanged. *)
Lemma still_run_sleeps_2d (fs : list frame) (st : state) :
  inv st → still_run hypot fs st = true →
  ∃ st', run hypot fs st = Some st' ∧ inv st'
    ∧ (isSleeping st = true →
       isSleeping st' = true
       ∧ positions st' = positions st ∧ prevPositions st' = prevPositions st)
    ∧ ((SLEEP_FRAMES ≤ sleepCounter st + Z.of_nat (length fs))%Z →
       isSleeping st' = true).
Proof.
  revert st. induction fs as [|f fs IH]; intros st Hinv Hrun.
  - exists st. simpl. split_and!; try done.
    intros Hc. destruct (isSleeping st) eqn:Hs; [done|].
    destruct Hinv as (_ & _ & Hlt & _). specialize (Hlt Hs). lia.
  - cbn [still_run] in Hrun. apply andb_true_iff in Hrun as [Hstill Hrun].
    destruct (still_frame_2d f st Hinv Hstill) as (st1 & out & Hf & Hinv1 & Hasleep & Hawake).
    rewrite Hf in Hrun.
    destruct (IH st1 Hinv1 Hrun) as (st' & Hrun' & Hinv' & Hkeep & Hsleep).
    exists st'. simpl. rewrite Hf. simpl. split_and!; try done.
    + intros Hs. destruct (Hasleep Hs) as (_ & Hs1 & Hp & Hq).
      destruct (Hkeep Hs1) as (? & ? & ?). split_and!; congruence.
    + intros Hc. destruct (isSleeping st) eqn:Hs.
      * destruct (Hasleep eq_refl) as (_ & Hs1 & _). by apply Hkeep.
      * destruct (Hawake eq_refl) as [Hs1|Hc1]; [by apply Hkeep|].
        apply Hsleep. rewrite Hc1. simpl length in Hc. lia.
Qed.

(** The wake-up frame: from a sleeping state with moved inputs, the
    frame clears the sleep state, copies the positions to the previous
    positions and calls [step] with a [dt] of 0. *)
Lemma wake_frame_2d (io : ports) (now now' : float) (st : state) :
  inv st → isSleeping st = true → inputsMoved io st = true →
  positions (woken io now now' st) = positions st
  ∧ prevPositions (woken io now now' st) = positions st
  ∧ isSleeping (woken io now now' st) = false
  ∧ sleepCounter (woken io now now' st) = 0%Z
  ∧ ∃ st1 maxVel,
      step hypot io 0 (inTopX io) (inTopY io)
        (inBottomX io) (inBottomY io) (woken io now now' st)
      = Some (st1, maxVel)
      ∧ onTriggered hypot io now now' st
        = Some (set_sleep false 0 st1, flatten (positions st1)).
Proof.
  intros Hinv Hs Hm.
  destruct (begin_frame_inv_2d io now st Hinv) as (Hinv0 & Hs0 & Hc0 & Hne0 & Hkeep).
  pose proof Hinv0 as (Hok0 & _).
  destruct Hinv as (_ & _ & _ & Hnil).
  assert (positions st ≠ []) as Hne by (intros [? _]%Hnil; congruence).
  destruct (Hkeep Hne) as [Hp Hq]. split_and!; try done.
  rewrite onTriggered_wake_2d by congruence.
  destruct (step_total_2d io 0 (inTopX io) (inTopY io)
              (inBottomX io) (inBottomY io) (woken io now now' st))
    as (ps & qs & mv & -> & _); [by unfold chain_ok|].
  eexists _, _. split; [done|]. done.
Qed.

End WithHypot.

End Rope2DFrameFacts.

(** ** The properties of the 2D operator *)

Module Rope2DResults.

Import Rope2D Rope2DFacts Rope2DFrameFacts.
Local Open Scope float_scope.

(** The speeds of the free points are the speeds of the points
    [1, ..., n - 1]. *)
Lemma free_speeds_elem_2d (damping : float) (n : nat) (ps qs : list point) (v : float) :
  length ps = (n + 1)%nat → length qs = (n + 1)%nat →
  v ∈ free_speeds damping ps qs
  ↔ ∃ i p q, (1 ≤ i < n)%nat ∧ ps !! i = Some p ∧ qs !! i = Some q
             ∧ v = speed (velocity damping p q).
Proof.
  intros Hps Hqs. unfold free_speeds, free_points.
  rewrite list_elem_of_lookup. split.
  - intros (k & (p & q & -> & Hp & Hq)%lookup_zip_with_Some).
    apply lookup_take_Some in Hp as [Hp Hk]. apply lookup_take_Some in Hq as [Hq _].
    rewrite lookup_drop in Hp, Hq.
    exists (1 + k)%nat, p, q. split_and!; try done; lia.
  - intros (i & p & q & Hi & Hp & Hq & ->). exists (i - 1)%nat.
    apply lookup_zip_with_Some. exists p, q. split; [done|].
    rewrite !lookup_take_Some, !lookup_drop.
    replace (1 + (i - 1))%nat with i by lia. split_and!; try done; lia.
Qed.

Lemma initRope_idem_2d (io : ports) (topX topY : float) (st : state) :
  initRope io topX topY (initRope io topX topY st)
  = initRope io topX topY st.
Proof. by rewrite !initRope_spec_2d. Qed.

(** [initRope]: the straight line, at rest and awake. *)
Lemma initRope_line_2d (io : ports) (topX topY : float) (st : state) :
  let n := Z.to_nat (segments io) in
  let segLen := inLength io / JS.number_of_Z (segments io) in
  let st' := initRope io topX topY st in
  length (positions st') = (n + 1)%nat
  ∧ (∀ i, (i ≤ n)%nat →
       positions st' !! i = Some (Point topX (topY - segLen * JS.number_of_nat i)))
  ∧ prevPositions st' = positions st'
  ∧ isSleeping st' = false
  ∧ sleepCounter st' = 0%Z
  ∧ initRope io topX topY st' = st'.
Proof.
  intros n segLen st'. subst st'. rewrite initRope_idem_2d, initRope_spec_2d. simpl.
  rewrite length_seed_2d. split_and!; try done.
  intros i Hi. unfold seed. rewrite list_lookup_fmap, lookup_seq_lt by (fold n; lia).
  done.
Qed.

(** A segment count the port can hold as a 32-bit integer, and at least 1,
    is the number of segments of the seeded chain. *)
Lemma segments_valid_2d (io : ports) :
  (1 ≤ inSegments io < 2 ^ 31)%Z → segments io = inSegments io.
Proof. intros Hv. unfold segments. rewrite to_int32_id; lia. Qed.

Lemma length_initRope_2d (io : ports) (topX topY : float) (st : state) :
  (1 ≤ inSegments io < 2 ^ 31)%Z →
  length (positions (initRope io topX topY st)) = (Z.to_nat (inSegments io) + 1)%nat
  ∧ length (prevPositions (initRope io topX topY st))
    = (Z.to_nat (inSegments io) + 1)%nat.
Proof.
  intros Hv. rewrite initRope_spec_2d. simpl. rewrite length_seed_2d, segments_valid_2d by done.
  done.
Qed.

(** The re-seeding callbacks. *)
Lemma port_changed_reseeds_2d (c : change) (io : ports) (st : state) :
  (port_changed c (io, st)).2
  = match c with
    | SetTopX _ | SetTopY _ | SetSegments _ | SetLength _ =>
        initRope (write_port c io) (inTopX (write_port c io))
          (inTopY (write_port c io)) st
    | SetBottomX _ | SetBottomY _
    | SetGravity _ | SetIter _ | SetDamping _ => st
    end.
Proof. by destruct c. Qed.

Lemma inv_port_changed_2d (c : change) (io : ports) (st : state) :
  inv st → inv (port_changed c (io, st)).2.
Proof. intros Hinv. rewrite port_changed_reseeds_2d. destruct c; done || apply inv_initRope_2d. Qed.

Section WithHypot.

Context (hypot : float → float → float).

(** On a chain of at least two segments no segment's constraint moves
    the first or the last point. *)
Lemma satisfy_segment_pins_2d (restLen : float) (n i : nat) (ps : list point) :
  (2 ≤ n)%nat → (i < n)%nat → length ps = (n + 1)%nat →
  ∃ ps', satisfy_segment hypot restLen n i ps = Some ps'
    ∧ ps' !! 0%nat = ps !! 0%nat ∧ ps' !! n = ps !! n.
Proof.
  intros Hn Hi Hlen.
  destruct (satisfy_segment_frame_2d hypot restLen n i ps)
    as (ps' & Hseg & _ & Hout & Hfst & Hlst); [lia|].
  exists ps'. split_and!; [done| |].
  - destruct (decide (i = 0%nat)) as [->|Hne]; [by apply Hfst|]. apply Hout; lia.
  - destruct (decide (i = (n - 1)%nat)) as [Hin|Hne].
    + replace n with (i + 1)%nat at 1 2 by lia. apply Hlst; lia.
    + apply Hout; lia.
Qed.

(** [step] returns; it pins the first point in both arrays and the last
    point in [prevPositions], and on a chain of at least two segments
    the last point of [positions] as well. *)
Lemma step_pins_2d (io : ports) (dt topX topY bottomX bottomY : float)
  (st : state) (n : nat) :
  chain_ok st → length (positions st) = (n + 1)%nat → (1 ≤ n)%nat →
  ∃ st' maxVel,
    step hypot io dt topX topY bottomX bottomY st = Some (st', maxVel)
    ∧ positions st' !! 0%nat = Some (Point topX topY)
    ∧ prevPositions st' !! 0%nat = Some (Point topX topY)
    ∧ prevPositions st' !! n = Some (Point bottomX bottomY)
    ∧ ((2 ≤ n)%nat → positions st' !! n = Some (Point bottomX bottomY)).
Proof.
  intros Hok Hlen Hn.
  destruct (step_spec_2d hypot io dt topX topY bottomX bottomY st n Hok Hlen Hn)
    as (ps' & qs' & mv & ps'' & Hmove & Hsolve & ->).
  destruct (move_points_spec_2d io dt topX topY bottomX bottomY n
              (positions st) (prevPositions st))
    as (ps1 & qs1 & mv1 & Hmove1 & Hl1 & _ & Hp0 & Hq0 & Hpn & Hqn & _);
    [unfold chain_ok in Hok; lia..|].
  rewrite Hmove in Hmove1. injection Hmove1 as <- <- <-.
  destruct (solve_frame_2d hypot (inLength io / JS.number_of_nat n) n
              (Z.to_nat (iterations io)) ps' Hl1) as (ps2 & Hsolve2 & _ & H0 & Hlast).
  rewrite Hsolve in Hsolve2. injection Hsolve2 as <-.
  eexists _, _. split; [done|]. simpl. split_and!; try done.
  - by rewrite H0.
  - intros H2. by rewrite Hlast.
Qed.

(** The motion update of [step] and the value [step] returns. *)
Lemma step_motion_2d (io : ports) (dt topX topY bottomX bottomY : float)
  (st : state) (n : nat) :
  chain_ok st → length (positions st) = (n + 1)%nat → (1 ≤ n)%nat →
  ∃ ps' qs' maxVel st',
    move_points io dt topX topY bottomX bottomY n
      (positions st, prevPositions st) = Some (ps', qs', maxVel)
    ∧ step hypot io dt topX topY bottomX bottomY st = Some (st', maxVel)
    ∧ prevPositions st' = qs'
    ∧ (∀ i p q, (1 ≤ i < n)%nat →
         positions st !! i = Some p → prevPositions st !! i = Some q →
         ps' !! i = Some (advance (inGravity io) dt p (velocity (inDamping io) p q))
         ∧ qs' !! i = Some p
         ∧ (maxVel <? speed (velocity (inDamping io) p q)) = false)
    ∧ maxVel = max_speed (free_speeds (inDamping io) (positions st) (prevPositions st))
    ∧ (maxVel = 0
       ∨ ∃ i p q, (1 ≤ i < n)%nat
           ∧ positions st !! i = Some p ∧ prevPositions st !! i = Some q
           ∧ maxVel = speed (velocity (inDamping io) p q))
    ∧ (n = 1%nat → maxVel = 0).
Proof.
  intros Hok Hlen Hn.
  destruct (step_spec_2d hypot io dt topX topY bottomX bottomY st n Hok Hlen Hn)
    as (ps' & qs' & mv & ps'' & Hmove & Hsolve & Hstep).
  destruct (move_points_spec_2d io dt topX topY bottomX bottomY n
              (positions st) (prevPositions st))
    as (ps1 & qs1 & mv1 & Hmove1 & _ & _ & _ & _ & _ & _ & Hfree & Hmv);
    [unfold chain_ok in Hok; lia..|].
  rewrite Hmove in Hmove1. injection Hmove1 as <- <- <-.
  assert (length (prevPositions st) = (n + 1)%nat) as Hlen'
    by (unfold chain_ok in Hok; lia).
  exists ps', qs', mv, (set_chain ps'' qs' st). split_and!; try done.
  - intros i p q Hi Hp Hq. destruct (Hfree i p q Hi Hp Hq) as [? ?].
    split_and!; try done. rewrite Hmv. apply max_speed_upper.
    apply (free_speeds_elem_2d _ n); [done..|]. by exists i, p, q.
  - destruct (max_speed_attained
                (free_speeds (inDamping io) (positions st) (prevPositions st)))
      as [H0|Hin]; [left; by rewrite Hmv|right].
    apply (free_speeds_elem_2d _ n) in Hin as (i & p & q & ? & ? & ? & Hv); [|done..].
    exists i, p, q. split_and!; try done; try lia. by rewrite Hmv.
  - intros ->. rewrite Hmv. unfold free_speeds, free_points.
    by rewrite Hlen.
Qed.

Lemma still_run_app_2d (fs gs : list frame) (st : state) :
  inv st → still_run hypot (fs ++ gs) st = true →
  still_run hypot fs st = true
  ∧ ∀ st1, run hypot fs st = Some st1 → still_run hypot gs st1 = true.
Proof.
  revert st. induction fs as [|f fs IH]; intros st Hinv Hrun.
  - simpl in *. split; [done|]. by intros st1 [= <-].
  - cbn [app still_run] in Hrun. apply andb_true_iff in Hrun as [Hstill Hrun].
    cbn [still_run run].
    destruct (inv_onTriggered_2d hypot (f_ports f) (f_now f) (f_now' f) st Hinv)
      as (st0 & out & Hf & Hinv0).
    rewrite Hf in Hrun. destruct (IH st0 Hinv0 Hrun) as [Hfs Hgs].
    rewrite Hf. cbn [mbind option_bind]. split; [|done].
    by rewrite Hstill, Hfs.
Qed.

(** Six still frames put an awake operator to sleep, and on the still
    frames that follow every position stays as it is. *)
Lemma sleep_after_still_frames_2d (fs gs : list frame) (st : state) :
  inv st → isSleeping st = false → length fs = 6%nat →
  still_run hypot (fs ++ gs) st = true →
  ∃ st1 st2,
    run hypot fs st = Some st1 ∧ isSleeping st1 = true
    ∧ run hypot gs st1 = Some st2 ∧ isSleeping st2 = true
    ∧ positions st2 = positions st1 ∧ prevPositions st2 = prevPositions st1.
Proof.
  intros Hinv Hs Hlen Hrun.
  destruct (still_run_app_2d fs gs st Hinv Hrun) as [Hfs Hgs].
  destruct (still_run_sleeps_2d hypot fs st Hinv Hfs) as (st1 & Hrun1 & Hinv1 & _ & Hsleep).
  destruct (still_run_sleeps_2d hypot gs st1 Hinv1 (Hgs st1 Hrun1))
    as (st2 & Hrun2 & _ & Hkeep & _).
  assert (isSleeping st1 = true) as Hs1.
  { apply Hsleep. destruct Hinv as (_ & ? & _). unfold SLEEP_FRAMES. lia. }
  destruct (Hkeep Hs1) as (? & ? & ?). by exists st1, st2.
Qed.

(** A frame on a sleeping operator whose inputs did not move is
    [begin_frame] alone: no call of [step], no position changed. *)
Lemma asleep_frame_2d (io : ports) (now now' : float) (st : state) :
  inv st → isSleeping st = true → inputsMoved io st = false →
  onTriggered hypot io now now' st
  = Some (begin_frame io now st, flatten (positions st))
  ∧ positions (begin_frame io now st) = positions st
  ∧ prevPositions (begin_frame io now st) = prevPositions st
  ∧ isSleeping (begin_frame io now st) = true.
Proof.
  intros Hinv Hs Hm.
  destruct (begin_frame_inv_2d io now st Hinv) as (_ & Hs0 & _ & _ & Hkeep).
  assert (positions st ≠ []) as Hne.
  { destruct Hinv as (_ & _ & _ & Hnil). intros [? _]%Hnil. congruence. }
  destruct (Hkeep Hne) as [Hp Hq].
  rewrite onTriggered_asleep_2d by congruence. rewrite Hp. split_and!; congruence.
Qed.

(** Every reachable state satisfies the invariant. *)
Lemma reachable_inv_2d (st : state) : reachable hypot st → inv st.
Proof.
  induction 1 as [t0|io now now' st st' out _ IH Hf|c io st _ IH].
  - apply inv_initial_2d.
  - destruct (inv_onTriggered_2d hypot io now now' st IH) as (st1 & out1 & Hf1 & Hinv1).
    rewrite Hf in Hf1. by injection Hf1 as -> _.
  - by apply inv_port_changed_2d.
Qed.

End WithHypot.

End Rope2DResults.

(** ** Facts about the host of the 3D operator *)

Module Rope3DHostFacts.

Import Rope3D Rope3DHost.

(** A change of a port without a callback writes the port and leaves the
    state of the operator as it is. *)
Lemma quiet_change (c : change) (w : ports * state) :
  reseeding (Change c) = false → port_changed c w = (write_port c w.1, w.2).
Proof. unfold port_changed. simpl. by destruct (onChange c). Qed.

Lemma no_reseed_cons (e : event) (es : list event) :
  no_reseed (e :: es) = true ↔ reseeding e = false ∧ no_reseed es = true.
Proof.
  unfold no_reseed. simpl. rewrite andb_true_iff, negb_true_iff. done.
Qed.

Lemma no_reseed_app (es gs : list event) :
  no_reseed (es ++ gs) = true ↔ no_reseed es = true ∧ no_reseed gs = true.
Proof. unfold no_reseed. rewrite forallb_app, andb_true_iff. done. Qed.

Section WithHypot.

Context (hypot : float → float → float → float).

(** The events of a run in two parts. *)
Lemma host_run_app (es gs : list event) (w : ports * state) :
  host_run hypot (es ++ gs) w = w' ← host_run hypot es w; host_run hypot gs w'.
Proof.
  revert w. induction es as [|e es IH]; intros w; [done|].
  simpl. destruct (host_step hypot e w) as [w1|]; [|done]. simpl. apply IH.
Qed.

Lemma frames_still_app (es gs : list event) (w : ports * state) :
  frames_still hypot (es ++ gs) w = true →
  frames_still hypot es w = true
  ∧ ∀ w', host_run hypot es w = Some w' → frames_still hypot gs w' = true.
Proof.
  revert w. induction es as [|e es IH]; intros w Hs.
  - split; [done|]. intros w' [= <-]. done.
  - cbn [app frames_still] in Hs. apply andb_true_iff in Hs as [He Hs].
    cbn [frames_still host_run]. rewrite He.
    destruct (host_step hypot e w) as [w1|]; [|done].
    destruct (IH w1 Hs) as [H1 H2]. done.
Qed.

(** One event of a run in which no port with a callback changes and
    every frame is still: the event returns, keeps the invariant,
    leaves a sleeping chain as it is, and a frame on an awake operator
    puts it to sleep or counts one more still frame. *)
Lemma calm_event (e : event) (w : ports * state) :
  inv w.2 → reseeding e = false → frames_still hypot [e] w = true →
  ∃ w', host_step hypot e w = Some w' ∧ inv w'.2
    ∧ (isSleeping w.2 = true →
       isSleeping w'.2 = true
       ∧ positions w'.2 = positions w.2 ∧ prevPositions w'.2 = prevPositions w.2)
    ∧ (isSleeping w.2 = false →
       isSleeping w'.2 = true
       ∨ sleepCounter w'.2 = (sleepCounter w.2 + Z.of_nat (frames [e]))%Z).
Proof.
  intros Hinv Hq Hs. destruct e as [c|now now'].
  - exists (port_changed c w). cbn [host_step]. rewrite (quiet_change c w Hq). simpl.
    split; [done|]. split; [done|]. split; [done|].
    intros _. right. lia.
  - cbn [frames_still] in Hs. apply andb_true_iff in Hs as [Hs _].
    destruct (Rope3DFrameFacts.still_frame hypot _ _ Hinv Hs)
      as (st' & out & Hf & Hinv' & Hasleep & Hawake).
    simpl in Hf. exists (w.1, st'). simpl. rewrite Hf. simpl.
    split_and!; try done.
    intros Ha. by destruct (Hasleep Ha) as (_ & ? & ? & ?).
Qed.

(** Such events put the operator to sleep once its counter reaches
    [SLEEP_FRAMES], and keep it asleep with every position unchanged. *)
Lemma calm_run_sleeps (es : list event) (w : ports * state) :
  inv w.2 → no_reseed es = true → frames_still hypot es w = true →
  ∃ w', host_run hypot es w = Some w' ∧ inv w'.2
    ∧ (isSleeping w.2 = true →
       isSleeping w'.2 = true
       ∧ positions w'.2 = positions w.2 ∧ prevPositions w'.2 = prevPositions w.2)
    ∧ ((SLEEP_FRAMES ≤ sleepCounter w.2 + Z.of_nat (frames es))%Z →
       isSleeping w'.2 = true).
Proof.
  revert w. induction es as [|e es IH]; intros w Hinv Hq Hs.
  - exists w. simpl. split_and!; try done.
    intros Hc. destruct (isSleeping w.2) eqn:Ha; [done|].
    destruct Hinv as (_ & _ & Hlt & _). specialize (Hlt Ha). lia.
  - apply no_reseed_cons in Hq as [Hq Hqs].
    cbn [frames_still] in Hs. apply andb_true_iff in Hs as [He Hs].
    destruct (calm_event e w Hinv Hq) as (w1 & Hf & Hinv1 & Hasleep & Hawake).
    { cbn [frames_still]. rewrite He. by destruct (host_step hypot e w). }
    rewrite Hf in Hs.
    destruct (IH w1 Hinv1 Hqs Hs) as (w' & Hrun & Hinv' & Hkeep & Hsleep).
    exists w'. cbn [host_run]. rewrite Hf. cbn [mbind option_bind].
    split_and!; try done.
    + intros Ha. destruct (Hasleep Ha) as (Ha1 & Hp & Hp').
      destruct (Hkeep Ha1) as (? & ? & ?). split_and!; congruence.
    + intros Hc. destruct (isSleeping w.2) eqn:Ha.
      * destruct (Hasleep eq_refl) as (Ha1 & _). by apply Hkeep.
      * destruct (Hawake eq_refl) as [Ha1|Hc1]; [by apply Hkeep|].
        apply Hsleep. rewrite Hc1.
        assert (frames (e :: es) = (frames [e] + frames es)%nat) as Hn
          by (by destruct e).
        rewrite Hn in Hc. lia.
Qed.

(** With no port with a callback changed on the way, six still frames
    put an awake operator to sleep, and on the still frames that follow
    every position stays as it is. *)
Lemma sleep_after_still_events (es gs : list event) (w : ports * state) :
  inv w.2 → isSleeping w.2 = false → (6 ≤ frames es)%nat →
  no_reseed (es ++ gs) = true → frames_still hypot (es ++ gs) w = true →
  ∃ w1 w2,
    host_run hypot es w = Some w1 ∧ isSleeping w1.2 = true
    ∧ host_run hypot gs w1 = Some w2 ∧ isSleeping w2.2 = true
    ∧ positions w2.2 = positions w1.2 ∧ prevPositions w2.2 = prevPositions w1.2.
Proof.
  intros Hinv Ha Hn [Hqe Hqg]%no_reseed_app [Hse Hsg]%frames_still_app.
  destruct (calm_run_sleeps es w Hinv Hqe Hse) as (w1 & Hrun1 & Hinv1 & _ & Hsleep).
  destruct (calm_run_sleeps gs w1 Hinv1 Hqg (Hsg w1 Hrun1))
    as (w2 & Hrun2 & _ & Hkeep & _).
  assert (isSleeping w1.2 = true) as Ha1.
  { apply Hsleep. destruct Hinv as (_ & ? & _). unfold SLEEP_FRAMES. lia. }
  destruct (Hkeep Ha1) as (? & ? & ?). by exists w1, w2.
Qed.

End WithHypot.

End Rope3DHostFacts.

(** ** Facts about the host of the 2D operator *)

Module Rope2DHostFacts.

Import Rope2D Rope2DHost.

(** A change of a port without a callback writes the port and leaves the
    state of the operator as it is. *)
Lemma quiet_change_2d (c : change) (w : ports * state) :
  reseeding (Change c) = false → port_changed c w = (write_port c w.1, w.2).
Proof. unfold port_changed. simpl. by destruct (onChange c). Qed.

Lemma no_reseed_cons_2d (e : event) (es : list event) :
  no_reseed (e :: es) = true ↔ reseeding e = false ∧ no_reseed es = true.
Proof.
  unfold no_reseed. simpl. rewrite andb_true_iff, negb_true_iff. done.
Qed.

Lemma no_reseed_app_2d (es gs : list event) :
  no_reseed (es ++ gs) = true ↔ no_reseed es = true ∧ no_reseed gs = true.
Proof. unfold no_reseed. rewrite forallb_app, andb_true_iff. done. Qed.

Section WithHypot.

Context (hypot : float → float → float).

(** The events of a run in two parts. *)
Lemma host_run_app_2d (es gs : list event) (w : ports * state) :
  host_run hypot (es ++ gs) w = w' ← host_run hypot es w; host_run hypot gs w'.
Proof.
  revert w. induction es as [|e es IH]; intros w; [done|].
  simpl. destruct (host_step hypot e w) as [w1|]; [|done]. simpl. apply IH.
Qed.

Lemma frames_still_app_2d (es gs : list event) (w : ports * state) :
  frames_still hypot (es ++ gs) w = true →
  frames_still hypot es w = true
  ∧ ∀ w', host_run hypot es w = Some w' → frames_still hypot gs w' = true.
Proof.
  revert w. induction es as [|e es IH]; intros w Hs.
  - split; [done|]. intros w' [= <-]. done.
  - cbn [app frames_still] in Hs. apply andb_true_iff in Hs as [He Hs].
    cbn [frames_still host_run]. rewrite He.
    destruct (host_step hypot e w) as [w1|]; [|done].
    destruct (IH w1 Hs) as [H1 H2]. done.
Qed.

(** One event of a run in which no port with a callback changes and
    every frame is still: the event returns, keeps the invariant,
    leaves a sleeping chain as it is, and a frame on an awake operator
    puts it to sleep or counts one more still frame. *)
Lemma calm_event_2d (e : event) (w : ports * state) :
  inv w.2 → reseeding e = false → frames_still hypot [e] w = true →
  ∃ w', host_step hypot e w = Some w' ∧ inv w'.2
    ∧ (isSleeping w.2 = true →
       isSleeping w'.2 = true
       ∧ positions w'.2 = positions w.2 ∧ prevPositions w'.2 = prevPositions w.2)
    ∧ (isSleeping w.2 = false →
       isSleeping w'.2 = true
       ∨ sleepCounter w'.2 = (sleepCounter w.2 + Z.of_nat (frames [e]))%Z).
Proof.
  intros Hinv Hq Hs. destruct e as [c|now now'].
  - exists (port_changed c w). cbn [host_step]. rewrite (quiet_change_2d c w Hq). simpl.
    split; [done|]. split; [done|]. split; [done|].
    intros _. right. lia.
  - cbn [frames_still] in Hs. apply andb_true_iff in Hs as [Hs _].
    destruct (Rope2DFrameFacts.still_frame_2d hypot _ _ Hinv Hs)
      as (st' & out & Hf & Hinv' & Hasleep & Hawake).
    simpl in Hf. exists (w.1, st'). simpl. rewrite Hf. simpl.
    split_and!; try done.
    intros Ha. by destruct (Hasleep Ha) as (_ & ? & ? & ?).
Qed.

(** Such events put the operator to sleep once its counter reaches
    [SLEEP_FRAMES], and keep it asleep with every position unchanged. *)
Lemma calm_run_sleeps_2d (es : list event) (w : ports * state) :
  inv w.2 → no_reseed es = true → frames_still hypot es w = true →
  ∃ w', host_run hypot es w = Some w' ∧ inv w'.2
    ∧ (isSleeping w.2 = true →
       isSleeping w'.2 = true
       ∧ positions w'.2 = positions w.2 ∧ prevPositions w'.2 = prevPositions w.2)
    ∧ ((SLEEP_FRAMES ≤ sleepCounter w.2 + Z.of_nat (frames es))%Z →
       isSleeping w'.2 = true).
Proof.
  revert w. induction es as [|e es IH]; intros w Hinv Hq Hs.
  - exists w. simpl. split_and!; try done.
    intros Hc. destruct (isSleeping w.2) eqn:Ha; [done|].
    destruct Hinv as (_ & _ & Hlt & _). specialize (Hlt Ha). lia.
  - apply no_reseed_cons_2d in Hq as [Hq Hqs].
    cbn [frames_still] in Hs. apply andb_true_iff in Hs as [He Hs].
    destruct (calm_event_2d e w Hinv Hq) as (w1 & Hf & Hinv1 & Hasleep & Hawake).
    { cbn [frames_still]. rewrite He. by destruct (host_step hypot e w). }
    rewrite Hf in Hs.
    destruct (IH w1 Hinv1 Hqs Hs) as (w' & Hrun & Hinv' & Hkeep & Hsleep).
    exists w'. cbn [host_run]. rewrite Hf. cbn [mbind option_bind].
    split_and!; try done.
    + intros Ha. destruct (Hasleep Ha) as (Ha1 & Hp & Hp').
      destruct (Hkeep Ha1) as (? & ? & ?). split_and!; congruence.
    + intros Hc. destruct (isSleeping w.2) eqn:Ha.
      * destruct (Hasleep eq_refl) as (Ha1 & _). by apply Hkeep.
      * destruct (Hawake eq_refl) as [Ha1|Hc1]; [by apply Hkeep|].
        apply Hsleep. rewrite Hc1.
        assert (frames (e :: es) = (frames [e] + frames es)%nat) as Hn
          by (by destruct e).
        rewrite Hn in Hc. lia.
Qed.

(** With no port with a callback changed on the way, six still frames
    put an awake operator to sleep, and on the still frames that follow
    every position stays as it is. *)
Lemma sleep_after_still_events_2d (es gs : list event) (w : ports * state) :
  inv w.2 → isSleeping w.2 = false → (6 ≤ frames es)%nat →
  no_reseed (es ++ gs) = true → frames_still hypot (es ++ gs) w = true →
  ∃ w1 w2,
    host_run hypot es w = Some w1 ∧ isSleeping w1.2 = true
    ∧ host_run hypot gs w1 = Some w2 ∧ isSleeping w2.2 = true
    ∧ positions w2.2 = positions w1.2 ∧ prevPositions w2.2 = prevPositions w1.2.
Proof.
  intros Hinv Ha Hn [Hqe Hqg]%no_reseed_app_2d [Hse Hsg]%frames_still_app_2d.
  destruct (calm_run_sleeps_2d es w Hinv Hqe Hse) as (w1 & Hrun1 & Hinv1 & _ & Hsleep).
  destruct (calm_run_sleeps_2d gs w1 Hinv1 Hqg (Hsg w1 Hrun1))
    as (w2 & Hrun2 & _ & Hkeep & _).
  assert (isSleeping w1.2 = true) as Ha1.
  { apply Hsleep. destruct Hinv as (_ & ? & _). unfold SLEEP_FRAMES. lia. }
  destruct (Hkeep Ha1) as (? & ? & ?). by exists w1, w2.
Qed.

End WithHypot.

End Rope2DHostFacts.

(** * The properties of the two operators *)

Local Open Scope float_scope.

(** C1, the case the source misses.  With a single segment, segment 0 is the
    last segment as well, and the solver takes the branch of segment 0: it
    moves point 1, which is the end point.  On the sample chain of one
    segment of length 2, with the anchor at (0, 2, 0) and the end supplied
    at (0, -2, 0), [step] returns with the anchor pinned but leaves the end
    point at (0, 0, 0) (at (0, 0) in 2D), not at the supplied position. *)
Theorem step_one_segment_moves_end :
  (∃ st' maxVel,
     Rope3D.step JS.hypot3_ref Samples.io3_one 0.016 0 2 0 0 (-2) 0 Samples.st3_one
     = Some (st', maxVel)
     ∧ length (Rope3D.positions Samples.st3_one) = 2%nat
     ∧ Rope3D.positions st' !! 0%nat = Some (Rope3D.Point 0 2 0)
     ∧ Rope3D.positions st' !! 1%nat = Some (Rope3D.Point 0 0 0)
     ∧ Rope3D.positions st' !! 1%nat ≠ Some (Rope3D.Point 0 (-2) 0))
  ∧ (∃ st' maxVel,
       Rope2D.step JS.hypot2_ref Samples.io2_one 0.016 0 2 0 (-2) Samples.st2_one
       = Some (st', maxVel)
       ∧ length (Rope2D.positions Samples.st2_one) = 2%nat
       ∧ Rope2D.positions st' !! 0%nat = Some (Rope2D.Point 0 2)
       ∧ Rope2D.positions st' !! 1%nat = Some (Rope2D.Point 0 0)
       ∧ Rope2D.positions st' !! 1%nat ≠ Some (Rope2D.Point 0 (-2))).
Proof.
  split.
  - eexists _, _. split; [vm_compute; reflexivity|]. split_and!; [done..|].
    intros H. apply (f_equal (λ o, match o with
                                   | Some p => Rope3D.y p <? 0
                                   | None => false
                                   end)) in H.
    vm_compute in H. discriminate.
  - eexists _, _. split; [vm_compute; reflexivity|]. split_and!; [done..|].
    intros H. apply (f_equal (λ o, match o with
                                   | Some p => Rope2D.y p <? 0
                                   | None => false
                                   end)) in H.
    vm_compute in H. discriminate.
Qed.

(** C2.  On a chain of at least two segments no segment's constraint
    displaces point 0 or point N, in any pass, and [step] returns with
    point 0 at the supplied anchor and point N at the supplied end.  Both
    operators. *)
Theorem step_pins_both_ends
  (hypot3 : float → float → float → float) (hypot2 : float → float → float)
  (io3 : Rope3D.ports) (st3 : Rope3D.state) (n3 : nat)
  (io2 : Rope2D.ports) (st2 : Rope2D.state) (n2 : nat)
  (dt topX topY topZ bottomX bottomY bottomZ : float) :
  Rope3D.chain_ok st3 → length (Rope3D.positions st3) = (n3 + 1)%nat → (2 ≤ n3)%nat →
  Rope2D.chain_ok st2 → length (Rope2D.positions st2) = (n2 + 1)%nat → (2 ≤ n2)%nat →
  ((∀ restLen i ps, (i < n3)%nat → length ps = (n3 + 1)%nat →
      ∃ ps', Rope3D.satisfy_segment hypot3 restLen n3 i ps = Some ps'
             ∧ ps' !! 0%nat = ps !! 0%nat ∧ ps' !! n3 = ps !! n3)
   ∧ (∀ restLen iters ps, length ps = (n3 + 1)%nat →
      ∃ ps', Rope3D.solve hypot3 restLen n3 iters ps = Some ps'
             ∧ ps' !! 0%nat = ps !! 0%nat ∧ ps' !! n3 = ps !! n3)
   ∧ ∃ st' maxVel,
       Rope3D.step hypot3 io3 dt topX topY topZ bottomX bottomY bottomZ st3
       = Some (st', maxVel)
       ∧ Rope3D.positions st' !! 0%nat = Some (Rope3D.Point topX topY topZ)
       ∧ Rope3D.positions st' !! n3 = Some (Rope3D.Point bottomX bottomY bottomZ))
  ∧ ((∀ restLen i ps, (i < n2)%nat → length ps = (n2 + 1)%nat →
        ∃ ps', Rope2D.satisfy_segment hypot2 restLen n2 i ps = Some ps'
               ∧ ps' !! 0%nat = ps !! 0%nat ∧ ps' !! n2 = ps !! n2)
     ∧ (∀ restLen iters ps, length ps = (n2 + 1)%nat →
        ∃ ps', Rope2D.solve hypot2 restLen n2 iters ps = Some ps'
               ∧ ps' !! 0%nat = ps !! 0%nat ∧ ps' !! n2 = ps !! n2)
     ∧ ∃ st' maxVel,
         Rope2D.step hypot2 io2 dt topX topY bottomX bottomY st2 = Some (st', maxVel)
         ∧ Rope2D.positions st' !! 0%nat = Some (Rope2D.Point topX topY)
         ∧ Rope2D.positions st' !! n2 = Some (Rope2D.Point bottomX bottomY)).
Proof.
  intros Hok3 Hlen3 Hn3 Hok2 Hlen2 Hn2. split; split_and!.
  - intros restLen i ps Hi Hps. by apply Rope3DResults.satisfy_segment_pins.
  - intros restLen iters ps Hps.
    destruct (Rope3DFacts.solve_frame hypot3 restLen n3 iters ps Hps)
      as (ps' & ? & _ & ? & Hlast).
    exists ps'. split_and!; [done..|]. by apply Hlast.
  - destruct (Rope3DResults.step_pins hypot3 io3 dt topX topY topZ bottomX bottomY bottomZ
                st3 n3 Hok3 Hlen3) as (st' & mv & ? & ? & _ & _ & Hlast); [lia|].
    exists st', mv. split_and!; [done..|]. by apply Hlast.
  - intros restLen i ps Hi Hps. by apply Rope2DResults.satisfy_segment_pins_2d.
  - intros restLen iters ps Hps.
    destruct (Rope2DFacts.solve_frame_2d hypot2 restLen n2 iters ps Hps)
      as (ps' & ? & _ & ? & Hlast).
    exists ps'. split_and!; [done..|]. by apply Hlast.
  - destruct (Rope2DResults.step_pins_2d hypot2 io2 dt topX topY bottomX bottomY
                st2 n2 Hok2 Hlen2) as (st' & mv & ? & ? & _ & _ & Hlast); [lia|].
    exists st', mv. split_and!; [done..|]. by apply Hlast.
Qed.

(** C7 as written fails: in the 2D operator a change of "Top X" runs the
    [onChange] callback of the port, which re-seeds the chain.  Here the
    seeded chain at x = 0 is re-seeded at x = 1. *)
Lemma anchor_change_2d_reseeds :
  (Rope2D.port_changed (Rope2D.SetTopX 1) (Samples.io2_two, Samples.st2_two)).2
  = Rope2D.initRope (Rope2D.write_port (Rope2D.SetTopX 1) Samples.io2_two) 1 2
      Samples.st2_two
  ∧ Rope2D.positions
      (Rope2D.port_changed (Rope2D.SetTopX 1) (Samples.io2_two, Samples.st2_two)).2
    = [Rope2D.Point 1 2; Rope2D.Point 1 1; Rope2D.Point 1 0]
  ∧ Rope2D.positions Samples.st2_two
    = [Rope2D.Point 0 2; Rope2D.Point 0 1; Rope2D.Point 0 0]
  ∧ (Rope2D.port_changed (Rope2D.SetTopX 1) (Samples.io2_two, Samples.st2_two)).2
    ≠ Samples.st2_two.
Proof.
  split_and!; [done|vm_compute; reflexivity|vm_compute; reflexivity|].
  intros H. apply (f_equal (λ st, match Rope2D.positions st with
                                  | p :: _ => Rope2D.x p <? 0.5
                                  | [] => false
                                  end)) in H.
  vm_compute in H. discriminate.
Qed.

(** C7, amended.  In both operators a change of a coordinate of the anchor
    re-seeds the chain from the new anchor, as a change of the segment
    count or of the total length does; a change of the end position, of
    the gravity, of the iteration count or of the damping leaves the state
    as it is. *)
Theorem anchor_change_reseeds
  (c3 : Rope3D.change) (io3 : Rope3D.ports) (st3 : Rope3D.state)
  (c2 : Rope2D.change) (io2 : Rope2D.ports) (st2 : Rope2D.state) :
  (Rope3D.port_changed c3 (io3, st3)).2
  = match c3 with
    | Rope3D.SetTopX _ | Rope3D.SetTopY _ | Rope3D.SetTopZ _
    | Rope3D.SetSegments _ | Rope3D.SetLength _ =>
        Rope3D.initRope (Rope3D.write_port c3 io3)
          (Rope3D.inTopX (Rope3D.write_port c3 io3))
          (Rope3D.inTopY (Rope3D.write_port c3 io3))
          (Rope3D.inTopZ (Rope3D.write_port c3 io3)) st3
    | Rope3D.SetBottomX _ | Rope3D.SetBottomY _ | Rope3D.SetBottomZ _
    | Rope3D.SetGravity _ | Rope3D.SetIter _ | Rope3D.SetDamping _ => st3
    end
  ∧ (Rope2D.port_changed c2 (io2, st2)).2
    = match c2 with
      | Rope2D.SetTopX _ | Rope2D.SetTopY _
      | Rope2D.SetSegments _ | Rope2D.SetLength _ =>
          Rope2D.initRope (Rope2D.write_port c2 io2)
            (Rope2D.inTopX (Rope2D.write_port c2 io2))
            (Rope2D.inTopY (Rope2D.write_port c2 io2)) st2
      | Rope2D.SetBottomX _ | Rope2D.SetBottomY _
      | Rope2D.SetGravity _ | Rope2D.SetIter _ | Rope2D.SetDamping _ => st2
      end.
Proof.
  split; [apply Rope3DResults.port_changed_reseeds
         | apply Rope2DResults.port_changed_reseeds_2d].
Qed.

(** C9.  [initRope] always returns.  With [N] the segment count read as a
    32-bit integer and clamped below to 1, it leaves [N + 1] points, point
    [i] at the anchor moved down the y axis by [totalLength / N * i]; the
    previous positions are the positions; the operator is awake with its
    counter at 0; and a second call with the same arguments changes
    nothing.  Both operators. *)
Theorem initRope_straight_line
  (io3 : Rope3D.ports) (st3 : Rope3D.state)
  (io2 : Rope2D.ports) (st2 : Rope2D.state) (topX topY topZ : float) :
  (let N := Z.max 1 (JS.to_int32 (Rope3D.inSegments io3)) in
   let segLen := Rope3D.inLength io3 / JS.number_of_Z N in
   let st' := Rope3D.initRope io3 topX topY topZ st3 in
   length (Rope3D.positions st') = (Z.to_nat N + 1)%nat
   ∧ (∀ i, (i ≤ Z.to_nat N)%nat →
        Rope3D.positions st' !! i
        = Some (Rope3D.Point topX (topY - segLen * JS.number_of_nat i) topZ))
   ∧ Rope3D.prevPositions st' = Rope3D.positions st'
   ∧ Rope3D.isSleeping st' = false
   ∧ Rope3D.sleepCounter st' = 0%Z
   ∧ Rope3D.initRope io3 topX topY topZ st' = st')
  ∧ (let N := Z.max 1 (JS.to_int32 (Rope2D.inSegments io2)) in
     let segLen := Rope2D.inLength io2 / JS.number_of_Z N in
     let st' := Rope2D.initRope io2 topX topY st2 in
     length (Rope2D.positions st') = (Z.to_nat N + 1)%nat
     ∧ (∀ i, (i ≤ Z.to_nat N)%nat →
          Rope2D.positions st' !! i
          = Some (Rope2D.Point topX (topY - segLen * JS.number_of_nat i)))
     ∧ Rope2D.prevPositions st' = Rope2D.positions st'
     ∧ Rope2D.isSleeping st' = false
     ∧ Rope2D.sleepCounter st' = 0%Z
     ∧ Rope2D.initRope io2 topX topY st' = st').
Proof.
  split; [apply Rope3DResults.initRope_line | apply Rope2DResults.initRope_line_2d].
Qed.

(** C10.  For a segment count from 1 up (and within the 32-bit integers the
    port is read as), the two arrays hold [segmentCount + 1] points each
    after [initRope]; and [step] returns on every chain with two arrays of
    the same length and leaves both lengths as they are.  Both
    operators. *)
Theorem chain_length
  (hypot3 : float → float → float → float) (hypot2 : float → float → float)
  (io3 : Rope3D.ports) (st3 : Rope3D.state)
  (io2 : Rope2D.ports) (st2 : Rope2D.state)
  (dt topX topY topZ bottomX bottomY bottomZ : float) :
  (1 ≤ Rope3D.inSegments io3 < 2 ^ 31)%Z → Rope3D.chain_ok st3 →
  (1 ≤ Rope2D.inSegments io2 < 2 ^ 31)%Z → Rope2D.chain_ok st2 →
  (length (Rope3D.positions (Rope3D.initRope io3 topX topY topZ st3))
   = (Z.to_nat (Rope3D.inSegments io3) + 1)%nat
   ∧ length (Rope3D.prevPositions (Rope3D.initRope io3 topX topY topZ st3))
     = (Z.to_nat (Rope3D.inSegments io3) + 1)%nat
   ∧ ∃ st' maxVel,
       Rope3D.step hypot3 io3 dt topX topY topZ bottomX bottomY bottomZ st3
       = Some (st', maxVel)
       ∧ length (Rope3D.positions st') = length (Rope3D.positions st3)
       ∧ length (Rope3D.prevPositions st') = length (Rope3D.prevPositions st3))
  ∧ (length (Rope2D.positions (Rope2D.initRope io2 topX topY st2))
     = (Z.to_nat (Rope2D.inSegments io2) + 1)%nat
     ∧ length (Rope2D.prevPositions (Rope2D.initRope io2 topX topY st2))
       = (Z.to_nat (Rope2D.inSegments io2) + 1)%nat
     ∧ ∃ st' maxVel,
         Rope2D.step hypot2 io2 dt topX topY bottomX bottomY st2 = Some (st', maxVel)
         ∧ length (Rope2D.positions st') = length (Rope2D.positions st2)
         ∧ length (Rope2D.prevPositions st') = length (Rope2D.prevPositions st2)).
Proof.
  intros Hseg3 Hok3 Hseg2 Hok2. split; split_and!.
  - by apply Rope3DResults.length_initRope.
  - by apply Rope3DResults.length_initRope.
  - destruct (Rope3DFrameFacts.step_total hypot3 io3 dt topX topY topZ
                bottomX bottomY bottomZ st3 Hok3) as (ps & qs & mv & -> & ? & ?).
    by eexists _, _.
  - by apply Rope2DResults.length_initRope_2d.
  - by apply Rope2DResults.length_initRope_2d.
  - destruct (Rope2DFrameFacts.step_total_2d hypot2 io2 dt topX topY
                bottomX bottomY st2 Hok2) as (ps & qs & mv & -> & ? & ?).
    by eexists _, _.
Qed.

(** C3.  A segment between points [i] and [i + 1] whose length [dist] is
    above 0, with the correction factor [(dist - restLength) / dist]: the
    constraint of segment 0 replaces point 1 alone, displaced by the full
    correction; else that of segment [N - 1] replaces point [N - 1] alone,
    displaced by the full correction; else points [i] and [i + 1] take half
    the correction each, in opposite directions.  A pass visits the
    segments in the order 0, ..., N - 1, each on the chain the previous one
    left, and [step] runs [inIter] passes on the chain the motion update
    leaves.  Both operators. *)
Theorem solver_pass
  (hypot3 : float → float → float → float) (hypot2 : float → float → float)
  (restLen : float) (n3 i3 : nat) (ps3 : list Rope3D.point) (p1 p2 : Rope3D.point)
  (n2 i2 : nat) (ps2 : list Rope2D.point) (q1 q2 : Rope2D.point)
  (io3 : Rope3D.ports) (st3 : Rope3D.state) (m3 : nat)
  (io2 : Rope2D.ports) (st2 : Rope2D.state) (m2 : nat)
  (dt topX topY topZ bottomX bottomY bottomZ : float) :
  ps3 !! i3 = Some p1 → ps3 !! (i3 + 1)%nat = Some p2 →
  (0 <? hypot3 (Rope3D.x (Rope3D.delta p1 p2)) (Rope3D.y (Rope3D.delta p1 p2))
          (Rope3D.z (Rope3D.delta p1 p2))) = true →
  ps2 !! i2 = Some q1 → ps2 !! (i2 + 1)%nat = Some q2 →
  (0 <? hypot2 (Rope2D.x (Rope2D.delta q1 q2)) (Rope2D.y (Rope2D.delta q1 q2))) = true →
  Rope3D.chain_ok st3 → length (Rope3D.positions st3) = (m3 + 1)%nat → (1 ≤ m3)%nat →
  (1 ≤ Rope3D.inIter io3 < 2 ^ 31)%Z →
  Rope2D.chain_ok st2 → length (Rope2D.positions st2) = (m2 + 1)%nat → (1 ≤ m2)%nat →
  (1 ≤ Rope2D.inIter io2 < 2 ^ 31)%Z →
  (let d := Rope3D.delta p1 p2 in
   let dist := hypot3 (Rope3D.x d) (Rope3D.y d) (Rope3D.z d) in
   let correction := (dist - restLen) / dist in
   Rope3D.satisfy_segment hypot3 restLen n3 i3 ps3
   = Some (if decide (i3 = 0%nat)
           then <[(i3 + 1)%nat := Rope3D.minus_scaled p2 d correction]> ps3
           else if decide (i3 = (n3 - 1)%nat)
           then <[i3 := Rope3D.plus_scaled p1 d correction]> ps3
           else <[(i3 + 1)%nat := Rope3D.minus_scaled p2 d (correction * 0.5)]>
                  (<[i3 := Rope3D.plus_scaled p1 d (correction * 0.5)]> ps3)))
  ∧ Rope3D.relax_pass hypot3 restLen n3 ps3
    = visit_in_order (Rope3D.satisfy_segment hypot3 restLen n3) (seq 0 n3) ps3
  ∧ (∃ ps' qs' maxVel ps'',
       Rope3D.move_points io3 dt topX topY topZ bottomX bottomY bottomZ m3
         (Rope3D.positions st3, Rope3D.prevPositions st3) = Some (ps', qs', maxVel)
       ∧ Nat.iter (Z.to_nat (Rope3D.inIter io3))
           (λ acc, acc ≫= visit_in_order
              (Rope3D.satisfy_segment hypot3
                 (Rope3D.inLength io3 / JS.number_of_nat m3) m3) (seq 0 m3))
           (Some ps') = Some ps''
       ∧ Rope3D.step hypot3 io3 dt topX topY topZ bottomX bottomY bottomZ st3
         = Some (Rope3D.set_chain ps'' qs' st3, maxVel))
  ∧ (let d := Rope2D.delta q1 q2 in
     let dist := hypot2 (Rope2D.x d) (Rope2D.y d) in
     let correction := (dist - restLen) / dist in
     Rope2D.satisfy_segment hypot2 restLen n2 i2 ps2
     = Some (if decide (i2 = 0%nat)
             then <[(i2 + 1)%nat := Rope2D.minus_scaled q2 d correction]> ps2
             else if decide (i2 = (n2 - 1)%nat)
             then <[i2 := Rope2D.plus_scaled q1 d correction]> ps2
             else <[(i2 + 1)%nat := Rope2D.minus_scaled q2 d (correction * 0.5)]>
                    (<[i2 := Rope2D.plus_scaled q1 d (correction * 0.5)]> ps2)))
  ∧ Rope2D.relax_pass hypot2 restLen n2 ps2
    = visit_in_order (Rope2D.satisfy_segment hypot2 restLen n2) (seq 0 n2) ps2
  ∧ (∃ ps' qs' maxVel ps'',
       Rope2D.move_points io2 dt topX topY bottomX bottomY m2
         (Rope2D.positions st2, Rope2D.prevPositions st2) = Some (ps', qs', maxVel)
       ∧ Nat.iter (Z.to_nat (Rope2D.inIter io2))
           (λ acc, acc ≫= visit_in_order
              (Rope2D.satisfy_segment hypot2
                 (Rope2D.inLength io2 / JS.number_of_nat m2) m2) (seq 0 m2))
           (Some ps') = Some ps''
       ∧ Rope2D.step hypot2 io2 dt topX topY bottomX bottomY st2
         = Some (Rope2D.set_chain ps'' qs' st2, maxVel)).
Proof.
  intros Hp1 Hp2 Hd3 Hq1 Hq2 Hd2 Hok3 Hlen3 Hm3 Hit3 Hok2 Hlen2 Hm2 Hit2.
  split_and!.
  - by apply Rope3DFacts.satisfy_segment_moves.
  - apply for_rangeM_visit.
  - by apply Rope3DFacts.step_solver.
  - by apply Rope2DFacts.satisfy_segment_moves_2d.
  - apply for_rangeM_visit.
  - by apply Rope2DFacts.step_solver_2d.
Qed.

(** C4.  [step] on a chain of N >= 1 segments.  For every free point [i] in
    1..N-1, with velocity [v = (current[i] - previous[i]) * damping], the
    motion update leaves [previous[i]] at the old [current[i]] and
    [current[i]] at the old one plus [v], plus [gravity * dt * dt] on the y
    axis alone.  The value returned is the largest speed of the free
    points, a speed being the largest absolute coordinate of [v]: no free
    point has a speed above it, and it is 0 or the speed of a free point;
    it is 0 when there is no free point.  Both operators. *)
Theorem step_motion_update
  (hypot3 : float → float → float → float) (hypot2 : float → float → float)
  (io3 : Rope3D.ports) (st3 : Rope3D.state) (n3 : nat)
  (io2 : Rope2D.ports) (st2 : Rope2D.state) (n2 : nat)
  (dt topX topY topZ bottomX bottomY bottomZ : float) :
  Rope3D.chain_ok st3 → length (Rope3D.positions st3) = (n3 + 1)%nat → (1 ≤ n3)%nat →
  Rope2D.chain_ok st2 → length (Rope2D.positions st2) = (n2 + 1)%nat → (1 ≤ n2)%nat →
  (∃ ps' qs' maxVel st',
     Rope3D.move_points io3 dt topX topY topZ bottomX bottomY bottomZ n3
       (Rope3D.positions st3, Rope3D.prevPositions st3) = Some (ps', qs', maxVel)
     ∧ Rope3D.step hypot3 io3 dt topX topY topZ bottomX bottomY bottomZ st3
       = Some (st', maxVel)
     ∧ Rope3D.prevPositions st' = qs'
     ∧ (∀ i p q, (1 ≤ i < n3)%nat →
          Rope3D.positions st3 !! i = Some p → Rope3D.prevPositions st3 !! i = Some q →
          let v := Rope3D.Point ((Rope3D.x p - Rope3D.x q) * Rope3D.inDamping io3)
                     ((Rope3D.y p - Rope3D.y q) * Rope3D.inDamping io3)
                     ((Rope3D.z p - Rope3D.z q) * Rope3D.inDamping io3) in
          ps' !! i = Some (Rope3D.Point (Rope3D.x p + Rope3D.x v)
                             (Rope3D.y p + (Rope3D.y v + Rope3D.inGravity io3 * dt * dt))
                             (Rope3D.z p + Rope3D.z v))
          ∧ qs' !! i = Some p
          ∧ (maxVel <? Rope3D.speed v) = false)
     ∧ maxVel = max_speed (Rope3D.free_speeds (Rope3D.inDamping io3)
                             (Rope3D.positions st3) (Rope3D.prevPositions st3))
     ∧ (maxVel = 0
        ∨ ∃ i p q, (1 ≤ i < n3)%nat
            ∧ Rope3D.positions st3 !! i = Some p ∧ Rope3D.prevPositions st3 !! i = Some q
            ∧ maxVel = Rope3D.speed (Rope3D.velocity (Rope3D.inDamping io3) p q))
     ∧ (n3 = 1%nat → maxVel = 0))
  ∧ (∃ ps' qs' maxVel st',
       Rope2D.move_points io2 dt topX topY bottomX bottomY n2
         (Rope2D.positions st2, Rope2D.prevPositions st2) = Some (ps', qs', maxVel)
       ∧ Rope2D.step hypot2 io2 dt topX topY bottomX bottomY st2 = Some (st', maxVel)
       ∧ Rope2D.prevPositions st' = qs'
       ∧ (∀ i p q, (1 ≤ i < n2)%nat →
            Rope2D.positions st2 !! i = Some p → Rope2D.prevPositions st2 !! i = Some q →
            let v := Rope2D.Point ((Rope2D.x p - Rope2D.x q) * Rope2D.inDamping io2)
                       ((Rope2D.y p - Rope2D.y q) * Rope2D.inDamping io2) in
            ps' !! i = Some (Rope2D.Point (Rope2D.x p + Rope2D.x v)
                               (Rope2D.y p + (Rope2D.y v + Rope2D.inGravity io2 * dt * dt)))
            ∧ qs' !! i = Some p
            ∧ (maxVel <? Rope2D.speed v) = false)
       ∧ maxVel = max_speed (Rope2D.free_speeds (Rope2D.inDamping io2)
                               (Rope2D.positions st2) (Rope2D.prevPositions st2))
       ∧ (maxVel = 0
          ∨ ∃ i p q, (1 ≤ i < n2)%nat
              ∧ Rope2D.positions st2 !! i = Some p ∧ Rope2D.prevPositions st2 !! i = Some q
              ∧ maxVel = Rope2D.speed (Rope2D.velocity (Rope2D.inDamping io2) p q))
       ∧ (n2 = 1%nat → maxVel = 0)).
Proof.
  intros Hok3 Hlen3 Hn3 Hok2 Hlen2 Hn2. split.
  - by apply Rope3DResults.step_motion.
  - by apply Rope2DResults.step_motion_2d.
Qed.

(** C5 as written fails: a change of "Top X" runs the [onChange] callback of
    the port, which re-seeds the chain and clears the counter of still
    frames, however small the change.  Here the host sets "Top X" to 1e-7
    and back to 0 in turn, once before each of six frames.  Every frame
    finds the operator awake and the inputs within [INPUT_EPS] of the
    cached ones, and [step] returns 0, which is below [VEL_EPS]; after the
    six frames the operator is still awake, with its counter at 1.  Both
    operators. *)
Lemma sleep_blocked_by_anchor_changes :
  (Rope3D.inv HostSamples.world3.2
   ∧ Rope3DHost.frames HostSamples.jitter3 = 6%nat
   ∧ Rope3DHost.frames_still JS.hypot3_ref HostSamples.jitter3 HostSamples.world3 = true
   ∧ Rope3DHost.frame_log JS.hypot3_ref HostSamples.jitter3 HostSamples.world3
     = repeat (false, false, Some 0%float) 6
   ∧ (λ w, (Rope3D.isSleeping w.2, Rope3D.sleepCounter w.2))
       <$> Rope3DHost.host_run JS.hypot3_ref HostSamples.jitter3 HostSamples.world3
     = Some (false, 1%Z))
  ∧ (Rope2D.inv HostSamples.world2.2
     ∧ Rope2DHost.frames HostSamples.jitter2 = 6%nat
     ∧ Rope2DHost.frames_still JS.hypot2_ref HostSamples.jitter2 HostSamples.world2 = true
     ∧ Rope2DHost.frame_log JS.hypot2_ref HostSamples.jitter2 HostSamples.world2
       = repeat (false, false, Some 0%float) 6
     ∧ (λ w, (Rope2D.isSleeping w.2, Rope2D.sleepCounter w.2))
         <$> Rope2DHost.host_run JS.hypot2_ref HostSamples.jitter2 HostSamples.world2
       = Some (false, 1%Z)).
Proof.
  split.
  - split.
    { unfold Rope3D.inv, Rope3D.chain_ok. vm_compute. split_and!; try done. }
    split; [reflexivity|]. split; [vm_compute; reflexivity|].
    split; vm_compute; reflexivity.
  - split.
    { unfold Rope2D.inv, Rope2D.chain_ok. vm_compute. split_and!; try done. }
    split; [reflexivity|]. split; [vm_compute; reflexivity|].
    split; vm_compute; reflexivity.
Qed.

(** C5, amended.  As long as the host changes no port with an [onChange]
    callback ("Top X", "Top Y", "Top Z", "Segments", "Rope Length", whose
    callback re-seeds the chain), six frames of an awake operator in which
    the inputs do not move beyond [INPUT_EPS] and [step] returns a value
    below [VEL_EPS] set the sleep flag; on the still frames that follow,
    the operator stays asleep and both arrays stay as they are.  The other
    ports may change between the frames.  A frame on a sleeping operator
    with unmoved inputs is [begin_frame] alone (the clock and the cache of
    the last inputs): it does not call [step].  Both operators. *)
Theorem sleep_after_six_still_frames
  (hypot3 : float → float → float → float) (hypot2 : float → float → float)
  (es3 gs3 : list Rope3DHost.event) (w3 : Rope3D.ports * Rope3D.state)
  (es2 gs2 : list Rope2DHost.event) (w2 : Rope2D.ports * Rope2D.state) :
  Rope3D.inv w3.2 → Rope3D.isSleeping w3.2 = false →
  (6 ≤ Rope3DHost.frames es3)%nat →
  Rope3DHost.no_reseed (es3 ++ gs3) = true →
  Rope3DHost.frames_still hypot3 (es3 ++ gs3) w3 = true →
  Rope2D.inv w2.2 → Rope2D.isSleeping w2.2 = false →
  (6 ≤ Rope2DHost.frames es2)%nat →
  Rope2DHost.no_reseed (es2 ++ gs2) = true →
  Rope2DHost.frames_still hypot2 (es2 ++ gs2) w2 = true →
  ((∃ w1 w',
      Rope3DHost.host_run hypot3 es3 w3 = Some w1 ∧ Rope3D.isSleeping w1.2 = true
      ∧ Rope3DHost.host_run hypot3 gs3 w1 = Some w' ∧ Rope3D.isSleeping w'.2 = true
      ∧ Rope3D.positions w'.2 = Rope3D.positions w1.2
      ∧ Rope3D.prevPositions w'.2 = Rope3D.prevPositions w1.2)
   ∧ (∀ io now now' st,
        Rope3D.inv st → Rope3D.isSleeping st = true → Rope3D.inputsMoved io st = false →
        Rope3D.onTriggered hypot3 io now now' st
        = Some (Rope3D.begin_frame io now st, Rope3D.flatten (Rope3D.positions st))
        ∧ Rope3D.positions (Rope3D.begin_frame io now st) = Rope3D.positions st
        ∧ Rope3D.prevPositions (Rope3D.begin_frame io now st) = Rope3D.prevPositions st
        ∧ Rope3D.isSleeping (Rope3D.begin_frame io now st) = true))
  ∧ ((∃ w1 w',
        Rope2DHost.host_run hypot2 es2 w2 = Some w1 ∧ Rope2D.isSleeping w1.2 = true
        ∧ Rope2DHost.host_run hypot2 gs2 w1 = Some w' ∧ Rope2D.isSleeping w'.2 = true
        ∧ Rope2D.positions w'.2 = Rope2D.positions w1.2
        ∧ Rope2D.prevPositions w'.2 = Rope2D.prevPositions w1.2)
     ∧ (∀ io now now' st,
          Rope2D.inv st → Rope2D.isSleeping st = true → Rope2D.inputsMoved io st = false →
          Rope2D.onTriggered hypot2 io now now' st
          = Some (Rope2D.begin_frame io now st, Rope2D.flatten (Rope2D.positions st))
          ∧ Rope2D.positions (Rope2D.begin_frame io now st) = Rope2D.positions st
          ∧ Rope2D.prevPositions (Rope2D.begin_frame io now st) = Rope2D.prevPositions st
          ∧ Rope2D.isSleeping (Rope2D.begin_frame io now st) = true)).
Proof.
  intros Hinv3 Hs3 Hn3 Hq3 Hrun3 Hinv2 Hs2 Hn2 Hq2 Hrun2. split; split.
  - by apply Rope3DHostFacts.sleep_after_still_events.
  - intros io now now' st. apply Rope3DResults.asleep_frame.
  - by apply Rope2DHostFacts.sleep_after_still_events_2d.
  - intros io now now' st. apply Rope2DResults.asleep_frame_2d.
Qed.

(** C6.  A frame that finds the operator asleep and the inputs moved beyond
    [INPUT_EPS] clears the sleep flag and the counter, makes every previous
    position the current one, and calls [step] that same frame with a [dt]
    of 0; the frame ends awake with the counter at 0.  Both operators. *)
Theorem wake_on_moved_inputs
  (hypot3 : float → float → float → float) (hypot2 : float → float → float)
  (io3 : Rope3D.ports) (st3 : Rope3D.state)
  (io2 : Rope2D.ports) (st2 : Rope2D.state) (now now' : float) :
  Rope3D.inv st3 → Rope3D.isSleeping st3 = true → Rope3D.inputsMoved io3 st3 = true →
  Rope2D.inv st2 → Rope2D.isSleeping st2 = true → Rope2D.inputsMoved io2 st2 = true →
  (let woken := Rope3D.woken io3 now now' st3 in
   Rope3D.positions woken = Rope3D.positions st3
   ∧ Rope3D.prevPositions woken = Rope3D.positions st3
   ∧ Rope3D.isSleeping woken = false
   ∧ Rope3D.sleepCounter woken = 0%Z
   ∧ ∃ st1 maxVel st' out,
       Rope3D.step hypot3 io3 0 (Rope3D.inTopX io3) (Rope3D.inTopY io3) (Rope3D.inTopZ io3)
         (Rope3D.inBottomX io3) (Rope3D.inBottomY io3) (Rope3D.inBottomZ io3) woken
       = Some (st1, maxVel)
       ∧ Rope3D.onTriggered hypot3 io3 now now' st3 = Some (st', out)
       ∧ Rope3D.positions st' = Rope3D.positions st1
       ∧ Rope3D.prevPositions st' = Rope3D.prevPositions st1
       ∧ out = Rope3D.flatten (Rope3D.positions st1)
       ∧ Rope3D.isSleeping st' = false
       ∧ Rope3D.sleepCounter st' = 0%Z)
  ∧ (let woken := Rope2D.woken io2 now now' st2 in
     Rope2D.positions woken = Rope2D.positions st2
     ∧ Rope2D.prevPositions woken = Rope2D.positions st2
     ∧ Rope2D.isSleeping woken = false
     ∧ Rope2D.sleepCounter woken = 0%Z
     ∧ ∃ st1 maxVel st' out,
         Rope2D.step hypot2 io2 0 (Rope2D.inTopX io2) (Rope2D.inTopY io2)
           (Rope2D.inBottomX io2) (Rope2D.inBottomY io2) woken
         = Some (st1, maxVel)
         ∧ Rope2D.onTriggered hypot2 io2 now now' st2 = Some (st', out)
         ∧ Rope2D.positions st' = Rope2D.positions st1
         ∧ Rope2D.prevPositions st' = Rope2D.prevPositions st1
         ∧ out = Rope2D.flatten (Rope2D.positions st1)
         ∧ Rope2D.isSleeping st' = false
         ∧ Rope2D.sleepCounter st' = 0%Z).
Proof.
  intros Hinv3 Hs3 Hm3 Hinv2 Hs2 Hm2. split.
  - destruct (Rope3DFrameFacts.wake_frame hypot3 io3 now now' st3 Hinv3 Hs3 Hm3)
      as (? & ? & ? & ? & st1 & mv & Hstep & Hf).
    split_and!; [done..|]. eexists st1, mv, _, _. split_and!; done.
  - destruct (Rope2DFrameFacts.wake_frame_2d hypot2 io2 now now' st2 Hinv2 Hs2 Hm2)
      as (? & ? & ? & ? & st1 & mv & Hstep & Hf).
    split_and!; [done..|]. eexists st1, mv, _, _. split_and!; done.
Qed.

(** C8.  In a pass that has reached segment [i], if the distance between
    points [i] and [i + 1] is zero, the constraint of the segment returns
    the chain as it is, whatever the rest length (the quotient is not
    formed), and the pass goes on with segment [i + 1] on that chain.  Both
    operators. *)
Theorem zero_length_segment_skipped
  (hypot3 : float → float → float → float) (hypot2 : float → float → float)
  (restLen : float)
  (n3 i3 : nat) (ps3 t3 : list Rope3D.point) (p1 p2 : Rope3D.point)
  (n2 i2 : nat) (ps2 t2 : list Rope2D.point) (q1 q2 : Rope2D.point) :
  (i3 < n3)%nat →
  for_rangeM (Rope3D.satisfy_segment hypot3 restLen n3) 0 i3 ps3 = Some t3 →
  t3 !! i3 = Some p1 → t3 !! (i3 + 1)%nat = Some p2 →
  (hypot3 (Rope3D.x (Rope3D.delta p1 p2)) (Rope3D.y (Rope3D.delta p1 p2))
     (Rope3D.z (Rope3D.delta p1 p2)) =? 0) = true →
  (i2 < n2)%nat →
  for_rangeM (Rope2D.satisfy_segment hypot2 restLen n2) 0 i2 ps2 = Some t2 →
  t2 !! i2 = Some q1 → t2 !! (i2 + 1)%nat = Some q2 →
  (hypot2 (Rope2D.x (Rope2D.delta q1 q2)) (Rope2D.y (Rope2D.delta q1 q2)) =? 0) = true →
  (Rope3D.satisfy_segment hypot3 restLen n3 i3 t3 = Some t3
   ∧ Rope3D.relax_pass hypot3 restLen n3 ps3
     = for_rangeM (Rope3D.satisfy_segment hypot3 restLen n3) (i3 + 1) (n3 - (i3 + 1)) t3)
  ∧ (Rope2D.satisfy_segment hypot2 restLen n2 i2 t2 = Some t2
     ∧ Rope2D.relax_pass hypot2 restLen n2 ps2
       = for_rangeM (Rope2D.satisfy_segment hypot2 restLen n2) (i2 + 1) (n2 - (i2 + 1)) t2).
Proof.
  intros Hi3 Hrun3 Hp1 Hp2 Hd3 Hi2 Hrun2 Hq1 Hq2 Hd2. split.
  - by apply (Rope3DFacts.relax_pass_skips hypot3 restLen n3 i3 ps3 t3 p1 p2).
  - by apply (Rope2DFacts.relax_pass_skips_2d hypot2 restLen n2 i2 ps2 t2 q1 q2).
Qed.


(** ** The properties on the sample chains *)

(** C2 on the two sample chains of two segments. *)
Lemma step_pins_both_ends_witness :
  (Rope3D.chain_ok Samples.st3_two
   ∧ length (Rope3D.positions Samples.st3_two) = (2 + 1)%nat ∧ (2 ≤ 2)%nat
   ∧ Rope2D.chain_ok Samples.st2_two
   ∧ length (Rope2D.positions Samples.st2_two) = (2 + 1)%nat)
  ∧ (∃ st' maxVel,
       Rope3D.step JS.hypot3_ref Samples.io3_two 0.016 0 2 0 0 0 0 Samples.st3_two
       = Some (st', maxVel)
       ∧ Rope3D.positions st' !! 0%nat = Some (Rope3D.Point 0 2 0)
       ∧ Rope3D.positions st' !! 2%nat = Some (Rope3D.Point 0 0 0))
  ∧ (∃ st' maxVel,
       Rope2D.step JS.hypot2_ref Samples.io2_two 0.016 0 2 0 0 Samples.st2_two
       = Some (st', maxVel)
       ∧ Rope2D.positions st' !! 0%nat = Some (Rope2D.Point 0 2)
       ∧ Rope2D.positions st' !! 2%nat = Some (Rope2D.Point 0 0)).
Proof.
  assert (Rope3D.chain_ok Samples.st3_two) as H1 by (vm_compute; reflexivity).
  assert (length (Rope3D.positions Samples.st3_two) = (2 + 1)%nat) as H2
    by (vm_compute; reflexivity).
  assert (2 ≤ 2)%nat as H3 by lia.
  assert (Rope2D.chain_ok Samples.st2_two) as H4 by (vm_compute; reflexivity).
  assert (length (Rope2D.positions Samples.st2_two) = (2 + 1)%nat) as H5
    by (vm_compute; reflexivity).
  destruct (step_pins_both_ends JS.hypot3_ref JS.hypot2_ref
              Samples.io3_two Samples.st3_two 2 Samples.io2_two Samples.st2_two 2
              0.016 0 2 0 0 0 0 H1 H2 H3 H4 H5 H3) as [(_ & _ & R3) (_ & _ & R2)].
  split; [by split_and!|]. split; [exact R3 | exact R2].
Defined.

(** C3 on the last segment of the sample chains whose first two points
    coincide: point 1 takes the full correction. *)
Lemma solver_pass_witness :
  (Samples.folded3 !! 1%nat = Some (Rope3D.Point 0 2 0)
   ∧ Samples.folded3 !! (1 + 1)%nat = Some (Rope3D.Point 0 1 0)
   ∧ (0 <? JS.hypot3_ref 0 (-1) 0) = true
   ∧ Samples.folded2 !! 1%nat = Some (Rope2D.Point 0 2)
   ∧ Samples.folded2 !! (1 + 1)%nat = Some (Rope2D.Point 0 1)
   ∧ (0 <? JS.hypot2_ref 0 (-1)) = true
   ∧ Rope3D.chain_ok Samples.st3_two ∧ Rope2D.chain_ok Samples.st2_two
   ∧ (1 ≤ Rope3D.inIter Samples.io3_two < 2 ^ 31)%Z
   ∧ (1 ≤ Rope2D.inIter Samples.io2_two < 2 ^ 31)%Z)
  ∧ Rope3D.satisfy_segment JS.hypot3_ref 0.5 2 1 Samples.folded3
    = Some [Rope3D.Point 0 2 0; Rope3D.Point 0 1.5 0; Rope3D.Point 0 1 0]
  ∧ Rope2D.satisfy_segment JS.hypot2_ref 0.5 2 1 Samples.folded2
    = Some [Rope2D.Point 0 2; Rope2D.Point 0 1.5; Rope2D.Point 0 1].
Proof.
  assert (Samples.folded3 !! 1%nat = Some (Rope3D.Point 0 2 0)) as H1 by reflexivity.
  assert (Samples.folded3 !! (1 + 1)%nat = Some (Rope3D.Point 0 1 0)) as H2 by reflexivity.
  assert ((0 <? JS.hypot3_ref 0 (-1) 0) = true) as H3 by (vm_compute; reflexivity).
  assert (Samples.folded2 !! 1%nat = Some (Rope2D.Point 0 2)) as H4 by reflexivity.
  assert (Samples.folded2 !! (1 + 1)%nat = Some (Rope2D.Point 0 1)) as H5 by reflexivity.
  assert ((0 <? JS.hypot2_ref 0 (-1)) = true) as H6 by (vm_compute; reflexivity).
  assert (Rope3D.chain_ok Samples.st3_two) as H7 by (vm_compute; reflexivity).
  assert (length (Rope3D.positions Samples.st3_two) = (2 + 1)%nat) as H8
    by (vm_compute; reflexivity).
  assert (1 ≤ 2)%nat as H9 by lia.
  assert (1 ≤ Rope3D.inIter Samples.io3_two < 2 ^ 31)%Z as H10 by (simpl; lia).
  assert (Rope2D.chain_ok Samples.st2_two) as H11 by (vm_compute; reflexivity).
  assert (length (Rope2D.positions Samples.st2_two) = (2 + 1)%nat) as H12
    by (vm_compute; reflexivity).
  assert (1 ≤ Rope2D.inIter Samples.io2_two < 2 ^ 31)%Z as H13 by (simpl; lia).
  destruct (solver_pass JS.hypot3_ref JS.hypot2_ref 0.5
              2 1 Samples.folded3 (Rope3D.Point 0 2 0) (Rope3D.Point 0 1 0)
              2 1 Samples.folded2 (Rope2D.Point 0 2) (Rope2D.Point 0 1)
              Samples.io3_two Samples.st3_two 2 Samples.io2_two Samples.st2_two 2
              0.016 0 2 0 0 0 0 H1 H2 H3 H4 H5 H6 H7 H8 H9 H10 H11 H12 H9 H13)
    as (R3 & _ & _ & R2 & _ & _).
  split; [by split_and!|]. split.
  - rewrite R3. vm_compute. reflexivity.
  - rewrite R2. vm_compute. reflexivity.
Defined.

(** C4 on the two sample chains of two segments, at rest. *)
Lemma step_motion_update_witness :
  (Rope3D.chain_ok Samples.st3_two
   ∧ length (Rope3D.positions Samples.st3_two) = (2 + 1)%nat ∧ (1 ≤ 2)%nat
   ∧ Rope2D.chain_ok Samples.st2_two
   ∧ length (Rope2D.positions Samples.st2_two) = (2 + 1)%nat)
  ∧ (∃ st',
       Rope3D.step JS.hypot3_ref Samples.io3_two 0.016 0 2 0 0 0 0 Samples.st3_two
       = Some (st', 0))
  ∧ (∃ st',
       Rope2D.step JS.hypot2_ref Samples.io2_two 0.016 0 2 0 0 Samples.st2_two
       = Some (st', 0)).
Proof.
  assert (Rope3D.chain_ok Samples.st3_two) as H1 by (vm_compute; reflexivity).
  assert (length (Rope3D.positions Samples.st3_two) = (2 + 1)%nat) as H2
    by (vm_compute; reflexivity).
  assert (1 ≤ 2)%nat as H3 by lia.
  assert (Rope2D.chain_ok Samples.st2_two) as H4 by (vm_compute; reflexivity).
  assert (length (Rope2D.positions Samples.st2_two) = (2 + 1)%nat) as H5
    by (vm_compute; reflexivity).
  destruct (step_motion_update JS.hypot3_ref JS.hypot2_ref
              Samples.io3_two Samples.st3_two 2 Samples.io2_two Samples.st2_two 2
              0.016 0 2 0 0 0 0 H1 H2 H3 H4 H5 H3)
    as [(ps3 & qs3 & mv3 & st3' & _ & R3 & _ & _ & M3 & _)
        (ps2 & qs2 & mv2 & st2' & _ & R2 & _ & _ & M2 & _)].
  split; [by split_and!|]. split.
  - exists st3'. rewrite R3, M3. vm_compute. reflexivity.
  - exists st2'. rewrite R2, M2. vm_compute. reflexivity.
Defined.

(** C5 on the sample chains: after the first frame, six still frames with
    "Damping" and "Bottom X" changed on the way, and two more frames on the
    sleeping operator. *)
Lemma sleep_after_six_still_frames_witness :
  (Rope3D.inv HostSamples.world3.2 ∧ Rope3D.isSleeping HostSamples.world3.2 = false
   ∧ (6 ≤ Rope3DHost.frames HostSamples.calm3)%nat
   ∧ Rope3DHost.no_reseed (HostSamples.calm3 ++ HostSamples.asleep3) = true
   ∧ Rope3DHost.frames_still JS.hypot3_ref
       (HostSamples.calm3 ++ HostSamples.asleep3) HostSamples.world3 = true
   ∧ Rope2D.inv HostSamples.world2.2 ∧ Rope2D.isSleeping HostSamples.world2.2 = false
   ∧ (6 ≤ Rope2DHost.frames HostSamples.calm2)%nat
   ∧ Rope2DHost.no_reseed (HostSamples.calm2 ++ HostSamples.asleep2) = true
   ∧ Rope2DHost.frames_still JS.hypot2_ref
       (HostSamples.calm2 ++ HostSamples.asleep2) HostSamples.world2 = true)
  ∧ (∃ w1, Rope3DHost.host_run JS.hypot3_ref HostSamples.calm3 HostSamples.world3
           = Some w1 ∧ Rope3D.isSleeping w1.2 = true)
  ∧ (∃ w1, Rope2DHost.host_run JS.hypot2_ref HostSamples.calm2 HostSamples.world2
           = Some w1 ∧ Rope2D.isSleeping w1.2 = true).
Proof.
  assert (Rope3D.inv HostSamples.world3.2) as H1.
  { unfold Rope3D.inv, Rope3D.chain_ok. vm_compute. split_and!; try done. }
  assert (Rope3D.isSleeping HostSamples.world3.2 = false) as H2 by (vm_compute; reflexivity).
  assert (6 ≤ Rope3DHost.frames HostSamples.calm3)%nat as H3 by (vm_compute; lia).
  assert (Rope3DHost.no_reseed (HostSamples.calm3 ++ HostSamples.asleep3) = true) as H4
    by (vm_compute; reflexivity).
  assert (Rope3DHost.frames_still JS.hypot3_ref
            (HostSamples.calm3 ++ HostSamples.asleep3) HostSamples.world3 = true) as H5
    by (vm_compute; reflexivity).
  assert (Rope2D.inv HostSamples.world2.2) as H6.
  { unfold Rope2D.inv, Rope2D.chain_ok. vm_compute. split_and!; try done. }
  assert (Rope2D.isSleeping HostSamples.world2.2 = false) as H7 by (vm_compute; reflexivity).
  assert (6 ≤ Rope2DHost.frames HostSamples.calm2)%nat as H8 by (vm_compute; lia).
  assert (Rope2DHost.no_reseed (HostSamples.calm2 ++ HostSamples.asleep2) = true) as H9
    by (vm_compute; reflexivity).
  assert (Rope2DHost.frames_still JS.hypot2_ref
            (HostSamples.calm2 ++ HostSamples.asleep2) HostSamples.world2 = true) as H10
    by (vm_compute; reflexivity).
  destruct (sleep_after_six_still_frames JS.hypot3_ref JS.hypot2_ref
              HostSamples.calm3 HostSamples.asleep3 HostSamples.world3
              HostSamples.calm2 HostSamples.asleep2 HostSamples.world2
              H1 H2 H3 H4 H5 H6 H7 H8 H9 H10)
    as [[(s3 & _ & R3 & S3 & _) _] [(s2 & _ & R2 & S2 & _) _]].
  split.
  { exact (conj H1 (conj H2 (conj H3 (conj H4 (conj H5
             (conj H6 (conj H7 (conj H8 (conj H9 H10))))))))). }
  split; [exists s3; exact (conj R3 S3) | exists s2; exact (conj R2 S2)].
Defined.

(** C6 on the sample chains: asleep after seven frames, then the "Bottom"
    ports move. *)
Lemma wake_on_moved_inputs_witness :
  (Rope3D.inv (Samples.after3 7) ∧ Rope3D.isSleeping (Samples.after3 7) = true
   ∧ Rope3D.inputsMoved Samples.io3_moved (Samples.after3 7) = true
   ∧ Rope2D.inv (Samples.after2 7) ∧ Rope2D.isSleeping (Samples.after2 7) = true
   ∧ Rope2D.inputsMoved Samples.io2_moved (Samples.after2 7) = true)
  ∧ (∃ st' out,
       Rope3D.onTriggered JS.hypot3_ref Samples.io3_moved 128 128 (Samples.after3 7)
       = Some (st', out)
       ∧ Rope3D.isSleeping st' = false ∧ Rope3D.sleepCounter st' = 0%Z)
  ∧ (∃ st' out,
       Rope2D.onTriggered JS.hypot2_ref Samples.io2_moved 128 128 (Samples.after2 7)
       = Some (st', out)
       ∧ Rope2D.isSleeping st' = false ∧ Rope2D.sleepCounter st' = 0%Z).
Proof.
  assert (Rope3D.inv (Samples.after3 7)) as H1.
  { unfold Rope3D.inv, Rope3D.chain_ok. vm_compute. split_and!; try done. }
  assert (Rope3D.isSleeping (Samples.after3 7) = true) as H2 by (vm_compute; reflexivity).
  assert (Rope3D.inputsMoved Samples.io3_moved (Samples.after3 7) = true) as H3
    by (vm_compute; reflexivity).
  assert (Rope2D.inv (Samples.after2 7)) as H4.
  { unfold Rope2D.inv, Rope2D.chain_ok. vm_compute. split_and!; try done. }
  assert (Rope2D.isSleeping (Samples.after2 7) = true) as H5 by (vm_compute; reflexivity).
  assert (Rope2D.inputsMoved Samples.io2_moved (Samples.after2 7) = true) as H6
    by (vm_compute; reflexivity).
  destruct (wake_on_moved_inputs JS.hypot3_ref JS.hypot2_ref
              Samples.io3_moved (Samples.after3 7) Samples.io2_moved (Samples.after2 7)
              128 128 H1 H2 H3 H4 H5 H6)
    as [(_ & _ & _ & _ & a3 & v3 & s3 & o3 & _ & R3 & _ & _ & _ & S3 & C3)
        (_ & _ & _ & _ & a2 & v2 & s2 & o2 & _ & R2 & _ & _ & _ & S2 & C2)].
  split; [exact (conj H1 (conj H2 (conj H3 (conj H4 (conj H5 H6)))))|].
  split; [exists s3, o3; exact (conj R3 (conj S3 C3))
         | exists s2, o2; exact (conj R2 (conj S2 C2))].
Defined.

(** C8 on the chains whose first two points coincide. *)
Lemma zero_length_segment_skipped_witness :
  ((0 < 2)%nat
   ∧ for_rangeM (Rope3D.satisfy_segment JS.hypot3_ref 1 2) 0 0 Samples.folded3
     = Some Samples.folded3
   ∧ Samples.folded3 !! 0%nat = Some (Rope3D.Point 0 2 0)
   ∧ Samples.folded3 !! (0 + 1)%nat = Some (Rope3D.Point 0 2 0)
   ∧ (JS.hypot3_ref 0 0 0 =? 0) = true
   ∧ for_rangeM (Rope2D.satisfy_segment JS.hypot2_ref 1 2) 0 0 Samples.folded2
     = Some Samples.folded2
   ∧ Samples.folded2 !! 0%nat = Some (Rope2D.Point 0 2)
   ∧ Samples.folded2 !! (0 + 1)%nat = Some (Rope2D.Point 0 2)
   ∧ (JS.hypot2_ref 0 0 =? 0) = true)
  ∧ Rope3D.satisfy_segment JS.hypot3_ref 1 2 0 Samples.folded3 = Some Samples.folded3
  ∧ Rope2D.satisfy_segment JS.hypot2_ref 1 2 0 Samples.folded2 = Some Samples.folded2.
Proof.
  assert (0 < 2)%nat as H1 by lia.
  assert (for_rangeM (Rope3D.satisfy_segment JS.hypot3_ref 1 2) 0 0 Samples.folded3
          = Some Samples.folded3) as H2 by reflexivity.
  assert (Samples.folded3 !! 0%nat = Some (Rope3D.Point 0 2 0)) as H3 by reflexivity.
  assert (Samples.folded3 !! (0 + 1)%nat = Some (Rope3D.Point 0 2 0)) as H4 by reflexivity.
  assert ((JS.hypot3_ref 0 0 0 =? 0) = true) as H5 by (vm_compute; reflexivity).
  assert (for_rangeM (Rope2D.satisfy_segment JS.hypot2_ref 1 2) 0 0 Samples.folded2
          = Some Samples.folded2) as H6 by reflexivity.
  assert (Samples.folded2 !! 0%nat = Some (Rope2D.Point 0 2)) as H7 by reflexivity.
  assert (Samples.folded2 !! (0 + 1)%nat = Some (Rope2D.Point 0 2)) as H8 by reflexivity.
  assert ((JS.hypot2_ref 0 0 =? 0) = true) as H9 by (vm_compute; reflexivity).
  destruct (zero_length_segment_skipped JS.hypot3_ref JS.hypot2_ref 1
              2 0 Samples.folded3 Samples.folded3 (Rope3D.Point 0 2 0) (Rope3D.Point 0 2 0)
              2 0 Samples.folded2 Samples.folded2 (Rope2D.Point 0 2) (Rope2D.Point 0 2)
              H1 H2 H3 H4 H5 H1 H6 H7 H8 H9) as [[R3 _] [R2 _]].
  split; [by split_and!|]. split; [exact R3 | exact R2].
Defined.

(** C10 on the sample chains of two segments. *)
Lemma chain_length_witness :
  ((1 ≤ Rope3D.inSegments Samples.io3_two < 2 ^ 31)%Z ∧ Rope3D.chain_ok Samples.st3_two
   ∧ (1 ≤ Rope2D.inSegments Samples.io2_two < 2 ^ 31)%Z ∧ Rope2D.chain_ok Samples.st2_two)
  ∧ length (Rope3D.positions (Rope3D.initRope Samples.io3_two 0 2 0 Samples.st3_two))
    = 3%nat
  ∧ length (Rope2D.positions (Rope2D.initRope Samples.io2_two 0 2 Samples.st2_two))
    = 3%nat.
Proof.
  assert (1 ≤ Rope3D.inSegments Samples.io3_two < 2 ^ 31)%Z as H1 by (simpl; lia).
  assert (Rope3D.chain_ok Samples.st3_two) as H2 by (vm_compute; reflexivity).
  assert (1 ≤ Rope2D.inSegments Samples.io2_two < 2 ^ 31)%Z as H3 by (simpl; lia).
  assert (Rope2D.chain_ok Samples.st2_two) as H4 by (vm_compute; reflexivity).
  destruct (chain_length JS.hypot3_ref JS.hypot2_ref
              Samples.io3_two Samples.st3_two Samples.io2_two Samples.st2_two
              0.016 0 2 0 0 0 0 H1 H2 H3 H4) as [(R3 & _) (R2 & _)].
  split; [by split_and!|]. split; [exact R3 | exact R2].
Defined.

(** ** More facts about the numbers *)

(** [v | 0] is a 32-bit integer. *)
Lemma to_int32_range (v : Z) : (- 2 ^ 31 ≤ JS.to_int32 v < 2 ^ 31)%Z.
Proof.
  unfold JS.to_int32.
  pose proof (Z.mod_pos_bound (v + 2 ^ 31) (2 ^ 32)). lia.
Qed.

(** ** More facts about the 3D operator *)

Module Rope3DMore.

Import Rope3D Rope3DFacts Rope3DFrameFacts Rope3DResults Rope3DStates.
Local Open Scope float_scope.

Local Arguments for_rangeM : simpl never.
Local Arguments for_range : simpl never.
Local Arguments step : simpl never.
Local Arguments sync_prev : simpl never.
Local Arguments initRope : simpl never.
Local Arguments flatten : simpl never.
Local Arguments settle : simpl never.
Local Arguments begin_frame : simpl never.

(** The exported array is the coordinates of the points, point by point. *)
Lemma flatten_layout (ps : list point) :
  flatten ps = concat (map (λ p, [x p; y p; z p]) ps).
Proof.
  unfold flatten.
  pose proof (for_range_rule
    (λ j flat, flat = concat (map (λ p, [x p; y p; z p]) (take j ps)))
    (λ i flat, match ps !! i with
               | Some p => flat ++ [x p; y p; z p]
               | None => flat
               end) 0 (length ps) []) as Hloop.
  simpl in Hloop. rewrite Hloop.
  - by rewrite firstn_all.
  - done.
  - intros j flat Hj ->.
    destruct (lookup_lt_is_Some_2 ps j) as [p Hp]; [lia|].
    rewrite Hp, (take_S_r _ _ p Hp), map_app, concat_app. done.
Qed.

Lemma length_flatten (ps : list point) : length (flatten ps) = (3 * length ps)%nat.
Proof.
  rewrite flatten_layout. induction ps as [|p ps IH]; [done|].
  simpl. rewrite IH. lia.
Qed.

Lemma flatten_lookup (ps : list point) (i : nat) (p : point) :
  ps !! i = Some p →
  flatten ps !! (3 * i)%nat = Some (x p)
  ∧ flatten ps !! (3 * i + 1)%nat = Some (y p)
  ∧ flatten ps !! (3 * i + 2)%nat = Some (z p).
Proof.
  rewrite flatten_layout. revert i. induction ps as [|q ps IH]; intros i Hp; [done|].
  destruct i as [|i]; simpl in *.
  - by injection Hp as ->.
  - replace (i + Datatypes.S (i + Datatypes.S (i + 0)))%nat
      with (Datatypes.S (Datatypes.S (3 * i)))%nat by lia.
    simpl. apply IH in Hp. replace (i + (i + (i + 0)))%nat with (3 * i)%nat by lia.
    done.
Qed.

(** The segment count and the number of passes the operator works with,
    whatever the ports hold. *)
Lemma segments_range (io : ports) : (1 ≤ segments io < 2 ^ 31)%Z.
Proof. unfold segments. pose proof (to_int32_range (inSegments io)). lia. Qed.


(** [initRope] leaves between 2 and 2^31 points, and 2 points when the
    "Segments" port holds 0 or a negative integer. *)
Lemma initRope_size (io : ports) (topX topY topZ : float) (st : state) :
  (2 ≤ length (positions (initRope io topX topY topZ st)))%nat
  ∧ (Z.of_nat (length (positions (initRope io topX topY topZ st))) ≤ 2 ^ 31)%Z
  ∧ length (prevPositions (initRope io topX topY topZ st))
    = length (positions (initRope io topX topY topZ st))
  ∧ ((- 2 ^ 31 ≤ inSegments io ≤ 0)%Z →
     length (positions (initRope io topX topY topZ st)) = 2%nat).
Proof.
  rewrite initRope_spec. simpl. rewrite length_seed.
  pose proof (segments_range io). split_and!; try lia.
  intros Hv. unfold segments. rewrite to_int32_id by lia. lia.
Qed.


Lemma tidy_initial (t0 : float) : tidy (initial t0).
Proof. unfold tidy, chain_ok, SLEEP_FRAMES. simpl. split_and!; try done. by left. Qed.

Lemma tidy_initRope (io : ports) (topX topY topZ : float) (st : state) :
  tidy (initRope io topX topY topZ st).
Proof.
  destruct (initRope_size io topX topY topZ st) as (H2 & _ & Hok & _).
  revert H2 Hok. rewrite initRope_spec. simpl. intros H2 Hok.
  unfold tidy, chain_ok, SLEEP_FRAMES. simpl. split_and!; try done. by right.
Qed.

(** The start of a frame on a tidy state. *)
Lemma begin_frame_tidy (io : ports) (now : float) (st : state) :
  tidy st →
  tidy (begin_frame io now st)
  ∧ (2 ≤ length (positions (begin_frame io now st)))%nat
  ∧ isSleeping (begin_frame io now st) = isSleeping st
  ∧ sleepCounter (begin_frame io now st) = sleepCounter st
  ∧ cached io (begin_frame io now st)
  ∧ lastTime (begin_frame io now st) = now.
Proof.
  intros Htidy. pose proof Htidy as (Hok & Hlen & Hawake & Hasleep & Hnil).
  destruct (decide (positions st = [])) as [He|Hne].
  - rewrite begin_frame_unseeded by done.
    pose proof (tidy_initRope io (inTopX io) (inTopY io) (inTopZ io)
      (set_last (inTopX io) (inTopY io) (inTopZ io)
         (inBottomX io) (inBottomY io) (inBottomZ io) (set_lastTime now st))) as Ht.
    destruct (initRope_size io (inTopX io) (inTopY io) (inTopZ io)
      (set_last (inTopX io) (inTopY io) (inTopZ io)
         (inBottomX io) (inBottomY io) (inBottomZ io) (set_lastTime now st)))
      as (H2 & _).
    split; [done|]. split; [done|]. rewrite initRope_spec. simpl.
    assert (isSleeping st = false) as Hs.
    { destruct (isSleeping st) eqn:Hs; [|done]. by destruct (Hasleep eq_refl) as [_ ?]. }
    rewrite Hs, (Hnil He). by unfold cached.
  - rewrite begin_frame_seeded by done. destruct Hlen as [?|Hlen]; [done|].
    unfold tidy, chain_ok, cached in *. simpl. split; [exact Htidy|]. split_and!; done.
Qed.


(** The bookkeeping after [step], in closed form. *)
Lemma settle_closed (moved : bool) (maxVel : float) (st : state) :
  chain_ok st →
  settle moved maxVel st
  = Some (if negb moved && (maxVel <? VEL_EPS)
          then if (SLEEP_FRAMES <=? sleepCounter st + 1)%Z
               then set_prevPositions (positions st) (set_sleep true (sleepCounter st + 1) st)
               else set_sleep (isSleeping st) (sleepCounter st + 1) st
          else set_sleep (isSleeping st) 0 st).
Proof.
  intros Hok. unfold settle.
  destruct (negb moved && (maxVel <? VEL_EPS)); [|done]. simpl.
  destruct (SLEEP_FRAMES <=? sleepCounter st + 1)%Z; [|done].
  by rewrite sync_prev_spec.
Qed.

(** A difference of a number with itself is never above the tolerance of
    the inputs. *)
Lemma sub_self_within_eps (v : float) : (INPUT_EPS <? abs (v - v)) = false.
Proof.
  rewrite ltb_spec, abs_spec, sub_spec.
  assert (SF64sub (Prim2SF v) (Prim2SF v) = S754_nan
          ∨ SF64sub (Prim2SF v) (Prim2SF v) = S754_zero false) as [-> | ->].
  { unfold SF64sub, SFsub. destruct (Prim2SF v) as [[]|[]| |[] m e]; auto;
      rewrite Z.sub_diag; by right. }
  - by destruct (Prim2SF INPUT_EPS).
  - vm_compute. reflexivity.
Qed.

(** With the cache holding the values of the ports, the inputs have not
    moved. *)
Lemma cached_unmoved (io : ports) (st : state) :
  cached io st → inputsMoved io st = false.
Proof.
  intros (Htx & Hty & Htz & Hbx & Hby & Hbz). unfold inputsMoved.
  rewrite Htx, Hty, Htz, Hbx, Hby, Hbz. simpl.
  by rewrite !sub_self_within_eps.
Qed.

Section WithHypot.

Context (hypot : float → float → float → float).

(** [step] touches nothing but the two arrays, and nothing at all on a
    chain of fewer than two points. *)
Lemma step_fields (io : ports) (dt topX topY topZ bottomX bottomY bottomZ : float)
  (st : state) :
  chain_ok st →
  ∃ st' maxVel,
    step hypot io dt topX topY topZ bottomX bottomY bottomZ st = Some (st', maxVel)
    ∧ length (positions st') = length (positions st)
    ∧ length (prevPositions st') = length (prevPositions st)
    ∧ lastTime st' = lastTime st
    ∧ isSleeping st' = isSleeping st
    ∧ sleepCounter st' = sleepCounter st
    ∧ (∀ io', cached io' st → cached io' st')
    ∧ ((length (positions st) ≤ 1)%nat → st' = st ∧ maxVel = 0).
Proof.
  intros Hok.
  destruct (step_total hypot io dt topX topY topZ bottomX bottomY bottomZ st Hok)
    as (ps & qs & mv & Hstep & Hl1 & Hl2).
  exists (set_chain ps qs st), mv. simpl. split_and!; try done.
  intros Hshort. revert Hstep. unfold step.
  destruct (Nat.ltb_spec (length (positions st) - 1) 1) as [_|?]; [|lia].
  intros [= Hst <-]. by rewrite Hst.
Qed.

(** The awake part of a frame, in full: what [step] and the bookkeeping
    leave on an awake state [base] with a seeded chain. *)
Lemma awake_frame_tidy (io : ports) (moved : bool)
  (dt topX topY topZ bottomX bottomY bottomZ : float) (base : state) :
  chain_ok base → isSleeping base = false →
  (0 ≤ sleepCounter base < SLEEP_FRAMES)%Z → (2 ≤ length (positions base))%nat →
  ∃ st1 maxVel st',
    step hypot io dt topX topY topZ bottomX bottomY bottomZ base = Some (st1, maxVel)
    ∧ settle moved maxVel st1 = Some st'
    ∧ tidy st'
    ∧ positions st' = positions st1
    ∧ length (positions st1) = length (positions base)
    ∧ lastTime st' = lastTime base
    ∧ (∀ io', cached io' base → cached io' st')
    ∧ (if negb moved && (maxVel <? VEL_EPS)
       then sleepCounter st' = (sleepCounter base + 1)%Z
            ∧ isSleeping st' = (SLEEP_FRAMES <=? sleepCounter base + 1)%Z
            ∧ (isSleeping st' = true → prevPositions st' = positions st')
            ∧ (isSleeping st' = false → prevPositions st' = prevPositions st1)
       else isSleeping st' = false ∧ sleepCounter st' = 0%Z
            ∧ prevPositions st' = prevPositions st1).
Proof.
  intros Hok Hs Hc Hlen.
  destruct (step_total hypot io dt topX topY topZ bottomX bottomY bottomZ base Hok)
    as (ps & qs & mv & Hstep & Hl1 & Hl2).
  assert (chain_ok (set_chain ps qs base)) as Hok'.
  { unfold chain_ok in *. simpl. lia. }
  eexists _, mv, _. split; [exact Hstep|]. split; [by apply settle_closed|].
  simpl. rewrite Hs. unfold tidy, chain_ok, cached, SLEEP_FRAMES in *.
  assert (ps ≠ []) as Hne by (intros ->; simpl in *; lia).
  destruct (negb moved && (mv <? VEL_EPS)); [destruct (Z.leb_spec 6 (sleepCounter base + 1))|];
    simpl.
  all: split; [split_and!; try done; try lia; try (right; lia);
               try (intros; lia); try (intros; split; [lia|done])|].
  all: split_and!; try done; lia.
Qed.

(** Every frame on a tidy state returns a tidy state; the output is the
    chain of the new state, which is seeded, and the cache holds the
    ports of the frame. *)
Lemma frame_tidy (io : ports) (now now' : float) (st : state) :
  tidy st →
  ∃ st' out,
    onTriggered hypot io now now' st = Some (st', out)
    ∧ tidy st'
    ∧ out = flatten (positions st')
    ∧ (2 ≤ length (positions st'))%nat
    ∧ cached io st'
    ∧ (positions st ≠ [] → length (positions st') = length (positions st)).
Proof.
  intros Htidy.
  destruct (begin_frame_tidy io now st Htidy) as (Ht0 & Hlen0 & Hs0 & Hc0 & Hcached0 & _).
  pose proof Ht0 as (Hok0 & _ & Hawake0 & _).
  assert (positions st ≠ [] →
          length (positions (begin_frame io now st)) = length (positions st)) as Hkeep.
  { intros Hne. by rewrite begin_frame_seeded. }
  destruct (isSleeping st) eqn:Hs; [destruct (inputsMoved io st) eqn:Hm|].
  - rewrite onTriggered_wake by done.
    destruct (awake_frame_tidy io true 0 (inTopX io) (inTopY io) (inTopZ io)
                (inBottomX io) (inBottomY io) (inBottomZ io) (woken io now now' st))
      as (st1 & mv & st' & -> & Hsettle & Ht' & Hp' & Hl' & _ & Hcached' & _);
      [by unfold chain_ok | done | done | done |].
    cbn [mbind option_bind]. rewrite Hsettle.
    exists st', (flatten (positions st')). simpl in Hl'.
    split_and!; try done.
    + by rewrite Hp', Hl'.
    + by apply Hcached'.
    + intros Hne. rewrite Hp', Hl'. by apply Hkeep.
  - rewrite onTriggered_asleep by done. eexists _, _. split_and!; done.
  - rewrite onTriggered_awake by done.
    destruct (awake_frame_tidy io (inputsMoved io st) (frame_dt now st)
                (inTopX io) (inTopY io) (inTopZ io)
                (inBottomX io) (inBottomY io) (inBottomZ io) (begin_frame io now st))
      as (st1 & mv & st' & -> & Hsettle & Ht' & Hp' & Hl' & _ & Hcached' & _);
      [done | done | by apply Hawake0 | done |].
    cbn [mbind option_bind]. rewrite Hsettle.
    exists st', (flatten (positions st')).
    split_and!; try done.
    + by rewrite Hp', Hl'.
    + by apply Hcached'.
    + intros Hne. rewrite Hp', Hl'. by apply Hkeep.
Qed.

(** Every reachable state is tidy. *)
Lemma reachable_tidy (st : state) : reachable hypot st → tidy st.
Proof.
  induction 1 as [t0|io now now' st st' out _ IH Hf|c io st _ IH].
  - apply tidy_initial.
  - destruct (frame_tidy io now now' st IH) as (st1 & out1 & Hf1 & Ht1 & _).
    rewrite Hf in Hf1. by injection Hf1 as -> _.
  - rewrite port_changed_reseeds. destruct c; done || apply tidy_initRope.
Qed.

(** A frame on an awake operator, in full. *)
Lemma awake_frame (f : frame) (st : state) :
  tidy st → isSleeping st = false →
  ∃ st1 maxVel st' out,
    step hypot (f_ports f) (frame_dt (f_now f) st)
      (inTopX (f_ports f)) (inTopY (f_ports f)) (inTopZ (f_ports f))
      (inBottomX (f_ports f)) (inBottomY (f_ports f)) (inBottomZ (f_ports f))
      (begin_frame (f_ports f) (f_now f) st) = Some (st1, maxVel)
    ∧ onTriggered hypot (f_ports f) (f_now f) (f_now' f) st = Some (st', out)
    ∧ tidy st'
    ∧ positions st' = positions st1
    ∧ still hypot f st = negb (inputsMoved (f_ports f) st) && (maxVel <? VEL_EPS)
    ∧ (if still hypot f st
       then sleepCounter st' = (sleepCounter st + 1)%Z
            ∧ isSleeping st' = (SLEEP_FRAMES <=? sleepCounter st + 1)%Z
            ∧ (isSleeping st' = true → prevPositions st' = positions st')
       else isSleeping st' = false ∧ sleepCounter st' = 0%Z).
Proof.
  intros Htidy Hs. destruct f as [io now now']. simpl.
  destruct (begin_frame_tidy io now st Htidy) as (Ht0 & Hlen0 & Hs0 & Hc0 & _).
  pose proof Ht0 as (Hok0 & _ & Hawake0 & _).
  rewrite Hs in Hs0.
  destruct (awake_frame_tidy io (inputsMoved io st) (frame_dt now st)
              (inTopX io) (inTopY io) (inTopZ io)
              (inBottomX io) (inBottomY io) (inBottomZ io) (begin_frame io now st))
    as (st1 & mv & st' & Hstep & Hsettle & Ht' & Hp' & _ & _ & _ & Hcases);
    [done | done | by apply Hawake0 | done |].
  exists st1, mv, st', (flatten (positions st')).
  assert (still hypot (Frame io now now') st
          = negb (inputsMoved io st) && (mv <? VEL_EPS)) as Hstill.
  { unfold still, frame_maxVel. simpl. by rewrite Hs, Hstep. }
  split_and!; try done.
  - rewrite onTriggered_awake by done. rewrite Hstep. cbn [mbind option_bind].
    by rewrite Hsettle.
  - rewrite Hstill. rewrite Hc0 in Hcases.
    destruct (negb (inputsMoved io st) && (mv <? VEL_EPS)); [|by destruct Hcases as (? & ? & _)].
    destruct Hcases as (? & ? & ? & _). done.
Qed.

(** An awake operator stays awake for as many frames as its counter is
    away from [SLEEP_FRAMES], whatever the frames. *)
Lemma awake_run (fs : list frame) (st : state) :
  tidy st → isSleeping st = false →
  (sleepCounter st + Z.of_nat (length fs) < SLEEP_FRAMES)%Z →
  ∃ st', run hypot fs st = Some st' ∧ tidy st' ∧ isSleeping st' = false
    ∧ (sleepCounter st' ≤ sleepCounter st + Z.of_nat (length fs))%Z.
Proof.
  revert st. induction fs as [|f fs IH]; intros st Htidy Hs Hc.
  - exists st. simpl. split_and!; try done. lia.
  - destruct (awake_frame f st Htidy Hs)
      as (st1 & mv & st' & out & _ & Hf & Ht' & _ & _ & Hcases).
    pose proof Htidy as (_ & _ & Hawake & _). specialize (Hawake Hs).
    simpl length in Hc.
    assert (isSleeping st' = false ∧ (sleepCounter st' ≤ sleepCounter st + 1)%Z) as [Hs' Hc'].
    { destruct (still hypot f st).
      - destruct Hcases as (-> & -> & _). split; [|lia].
        apply Z.leb_gt. unfold SLEEP_FRAMES in *. lia.
      - destruct Hcases as [-> ->]. split; [done|lia]. }
    destruct (IH st' Ht' Hs') as (st'' & Hrun & Ht'' & Hs'' & Hc''); [lia|].
    exists st''. simpl. rewrite Hf. cbn [mbind option_bind].
    split_and!; try done. lia.
Qed.


(** The first frame after the operator is loaded: the inputs count as
    moved, the chain is seeded from the "Top" ports, [step] runs on it,
    and the frame ends awake with the counter at 0. *)
Lemma first_frame (io : ports) (t0 now now' : float) :
  inputsMoved io (initial t0) = true
  ∧ ∃ st1 maxVel,
      step hypot io (frame_dt now (initial t0))
        (inTopX io) (inTopY io) (inTopZ io)
        (inBottomX io) (inBottomY io) (inBottomZ io)
        (initRope io (inTopX io) (inTopY io) (inTopZ io)
           (set_last (inTopX io) (inTopY io) (inTopZ io)
              (inBottomX io) (inBottomY io) (inBottomZ io)
              (set_lastTime now (initial t0))))
      = Some (st1, maxVel)
      ∧ onTriggered hypot io now now' (initial t0)
        = Some (set_sleep false 0 st1, flatten (positions st1))
      ∧ length (positions st1) = (Z.to_nat (segments io) + 1)%nat.
Proof.
  split; [done|].
  assert (begin_frame io now (initial t0)
          = initRope io (inTopX io) (inTopY io) (inTopZ io)
              (set_last (inTopX io) (inTopY io) (inTopZ io)
                 (inBottomX io) (inBottomY io) (inBottomZ io)
                 (set_lastTime now (initial t0)))) as Hb
    by (by apply begin_frame_unseeded).
  destruct (begin_frame_tidy io now (initial t0) (tidy_initial t0)) as ((Hok0 & _) & _).
  destruct (step_fields io (frame_dt now (initial t0))
              (inTopX io) (inTopY io) (inTopZ io)
              (inBottomX io) (inBottomY io) (inBottomZ io)
              (begin_frame io now (initial t0)) Hok0)
    as (st1 & mv & Hstep & Hl1 & Hl2 & _ & Hs1 & Hc1 & _).
  rewrite <- Hb. exists st1, mv. split; [done|].
  assert (isSleeping (begin_frame io now (initial t0)) = false) as Hs0
    by (by rewrite Hb, initRope_spec).
  split.
  - rewrite onTriggered_awake by done. rewrite Hstep. cbn [mbind option_bind].
    rewrite settle_closed by (unfold chain_ok in *; by rewrite Hl1, Hl2).
    change (inputsMoved io (initial t0)) with true. simpl. by rewrite Hs1, Hs0.
  - rewrite Hl1, Hb, initRope_spec. simpl. apply length_seed.
Qed.

(** Frames take a reachable state to a reachable state. *)
Lemma run_reachable (fs : list frame) (st st' : state) :
  reachable hypot st → run hypot fs st = Some st' → reachable hypot st'.
Proof.
  revert st. induction fs as [|f fs IH]; intros st Hr Hrun; simpl in Hrun.
  - by injection Hrun as <-.
  - destruct (onTriggered hypot (f_ports f) (f_now f) (f_now' f) st)
      as [[st1 out]|] eqn:Hf; [|done].
    apply (IH st1); [|done]. by eapply reach_frame.
Qed.


End WithHypot.

(** The [dt] of a frame is never above 0.05. *)
Lemma frame_dt_bound (now : float) (st : state) : (0.05 <? frame_dt now st) = false.
Proof.
  unfold frame_dt. destruct (0.05 <? (now - lastTime st) / 1000) eqn:E; [|done].
  apply ltb_irrefl.
Qed.

End Rope3DMore.

(** ** More facts about the 2D operator *)

Module Rope2DMore.

Import Rope2D Rope2DFacts Rope2DFrameFacts Rope2DResults Rope2DStates.
Local Open Scope float_scope.

Local Arguments for_rangeM : simpl never.
Local Arguments for_range : simpl never.
Local Arguments step : simpl never.
Local Arguments sync_prev : simpl never.
Local Arguments initRope : simpl never.
Local Arguments flatten : simpl never.
Local Arguments settle : simpl never.
Local Arguments begin_frame : simpl never.

(** The exported array is the coordinates of the points, point by point. *)
Lemma flatten_layout_2d (ps : list point) :
  flatten ps = concat (map (λ p, [x p; y p; 0]) ps).
Proof.
  unfold flatten.
  pose proof (for_range_rule
    (λ j flat, flat = concat (map (λ p, [x p; y p; 0]) (take j ps)))
    (λ i flat, match ps !! i with
               | Some p => flat ++ [x p; y p; 0]
               | None => flat
               end) 0 (length ps) []) as Hloop.
  simpl in Hloop. rewrite Hloop.
  - by rewrite firstn_all.
  - done.
  - intros j flat Hj ->.
    destruct (lookup_lt_is_Some_2 ps j) as [p Hp]; [lia|].
    rewrite Hp, (take_S_r _ _ p Hp), map_app, concat_app. done.
Qed.

Lemma length_flatten_2d (ps : list point) : length (flatten ps) = (3 * length ps)%nat.
Proof.
  rewrite flatten_layout_2d. induction ps as [|p ps IH]; [done|].
  simpl. rewrite IH. lia.
Qed.

Lemma flatten_lookup_2d (ps : list point) (i : nat) (p : point) :
  ps !! i = Some p →
  flatten ps !! (3 * i)%nat = Some (x p)
  ∧ flatten ps !! (3 * i + 1)%nat = Some (y p)
  ∧ flatten ps !! (3 * i + 2)%nat = Some 0.
Proof.
  rewrite flatten_layout_2d. revert i. induction ps as [|q ps IH]; intros i Hp; [done|].
  destruct i as [|i]; simpl in *.
  - by injection Hp as ->.
  - replace (i + Datatypes.S (i + Datatypes.S (i + 0)))%nat
      with (Datatypes.S (Datatypes.S (3 * i)))%nat by lia.
    simpl. apply IH in Hp. replace (i + (i + (i + 0)))%nat with (3 * i)%nat by lia.
    done.
Qed.

(** The segment count and the number of passes the operator works with,
    whatever the ports hold. *)
Lemma segments_range_2d (io : ports) : (1 ≤ segments io < 2 ^ 31)%Z.
Proof. unfold segments. pose proof (to_int32_range (inSegments io)). lia. Qed.


(** [initRope] leaves between 2 and 2^31 points, and 2 points when the
    "Segments" port holds 0 or a negative integer. *)
Lemma initRope_size_2d (io : ports) (topX topY : float) (st : state) :
  (2 ≤ length (positions (initRope io topX topY st)))%nat
  ∧ (Z.of_nat (length (positions (initRope io topX topY st))) ≤ 2 ^ 31)%Z
  ∧ length (prevPositions (initRope io topX topY st))
    = length (positions (initRope io topX topY st))
  ∧ ((- 2 ^ 31 ≤ inSegments io ≤ 0)%Z →
     length (positions (initRope io topX topY st)) = 2%nat).
Proof.
  rewrite initRope_spec_2d. simpl. rewrite length_seed_2d.
  pose proof (segments_range_2d io). split_and!; try lia.
  intros Hv. unfold segments. rewrite to_int32_id by lia. lia.
Qed.


Lemma tidy_initial_2d (t0 : float) : tidy (initial t0).
Proof. unfold tidy, chain_ok, SLEEP_FRAMES. simpl. split_and!; try done. by left. Qed.

Lemma tidy_initRope_2d (io : ports) (topX topY : float) (st : state) :
  tidy (initRope io topX topY st).
Proof.
  destruct (initRope_size_2d io topX topY st) as (H2 & _ & Hok & _).
  revert H2 Hok. rewrite initRope_spec_2d. simpl. intros H2 Hok.
  unfold tidy, chain_ok, SLEEP_FRAMES. simpl. split_and!; try done. by right.
Qed.

(** The start of a frame on a tidy state. *)
Lemma begin_frame_tidy_2d (io : ports) (now : float) (st : state) :
  tidy st →
  tidy (begin_frame io now st)
  ∧ (2 ≤ length (positions (begin_frame io now st)))%nat
  ∧ isSleeping (begin_frame io now st) = isSleeping st
  ∧ sleepCounter (begin_frame io now st) = sleepCounter st
  ∧ cached io (begin_frame io now st)
  ∧ lastTime (begin_frame io now st) = now.
Proof.
  intros Htidy. pose proof Htidy as (Hok & Hlen & Hawake & Hasleep & Hnil).
  destruct (decide (positions st = [])) as [He|Hne].
  - rewrite begin_frame_unseeded_2d by done.
    pose proof (tidy_initRope_2d io (inTopX io) (inTopY io)
      (set_last (inTopX io) (inTopY io)
         (inBottomX io) (inBottomY io) (set_lastTime now st))) as Ht.
    destruct (initRope_size_2d io (inTopX io) (inTopY io)
      (set_last (inTopX io) (inTopY io)
         (inBottomX io) (inBottomY io) (set_lastTime now st)))
      as (H2 & _).
    split; [done|]. split; [done|]. rewrite initRope_spec_2d. simpl.
    assert (isSleeping st = false) as Hs.
    { destruct (isSleeping st) eqn:Hs; [|done]. by destruct (Hasleep eq_refl) as [_ ?]. }
    rewrite Hs, (Hnil He). by unfold cached.
  - rewrite begin_frame_seeded_2d by done. destruct Hlen as [?|Hlen]; [done|].
    unfold tidy, chain_ok, cached in *. simpl. split; [exact Htidy|]. split_and!; done.
Qed.


(** The bookkeeping after [step], in closed form. *)
Lemma settle_closed_2d (moved : bool) (maxVel : float) (st : state) :
  chain_ok st →
  settle moved maxVel st
  = Some (if negb moved && (maxVel <? VEL_EPS)
          then if (SLEEP_FRAMES <=? sleepCounter st + 1)%Z
               then set_prevPositions (positions st) (set_sleep true (sleepCounter st + 1) st)
               else set_sleep (isSleeping st) (sleepCounter st + 1) st
          else set_sleep (isSleeping st) 0 st).
Proof.
  intros Hok. unfold settle.
  destruct (negb moved && (maxVel <? VEL_EPS)); [|done]. simpl.
  destruct (SLEEP_FRAMES <=? sleepCounter st + 1)%Z; [|done].
  by rewrite sync_prev_spec_2d.
Qed.

(** A difference of a number with itself is never above the tolerance of
    the inputs. *)
Lemma sub_self_within_eps_2d (v : float) : (INPUT_EPS <? abs (v - v)) = false.
Proof.
  rewrite ltb_spec, abs_spec, sub_spec.
  assert (SF64sub (Prim2SF v) (Prim2SF v) = S754_nan
          ∨ SF64sub (Prim2SF v) (Prim2SF v) = S754_zero false) as [-> | ->].
  { unfold SF64sub, SFsub. destruct (Prim2SF v) as [[]|[]| |[] m e]; auto;
      rewrite Z.sub_diag; by right. }
  - by destruct (Prim2SF INPUT_EPS).
  - vm_compute. reflexivity.
Qed.

(** With the cache holding the values of the ports, the inputs have not
    moved. *)
Lemma cached_unmoved_2d (io : ports) (st : state) :
  cached io st → inputsMoved io st = false.
Proof.
  intros (Htx & Hty & Hbx & Hby). unfold inputsMoved.
  rewrite Htx, Hty, Hbx, Hby. simpl.
  by rewrite !sub_self_within_eps_2d.
Qed.

Section WithHypot.

Context (hypot : float → float → float).

(** [step] touches nothing but the two arrays, and nothing at all on a
    chain of fewer than two points. *)
Lemma step_fields_2d (io : ports) (dt topX topY bottomX bottomY : float)
  (st : state) :
  chain_ok st →
  ∃ st' maxVel,
    step hypot io dt topX topY bottomX bottomY st = Some (st', maxVel)
    ∧ length (positions st') = length (positions st)
    ∧ length (prevPositions st') = length (prevPositions st)
    ∧ lastTime st' = lastTime st
    ∧ isSleeping st' = isSleeping st
    ∧ sleepCounter st' = sleepCounter st
    ∧ (∀ io', cached io' st → cached io' st')
    ∧ ((length (positions st) ≤ 1)%nat → st' = st ∧ maxVel = 0).
Proof.
  intros Hok.
  destruct (step_total_2d hypot io dt topX topY bottomX bottomY st Hok)
    as (ps & qs & mv & Hstep & Hl1 & Hl2).
  exists (set_chain ps qs st), mv. simpl. split_and!; try done.
  intros Hshort. revert Hstep. unfold step.
  destruct (Nat.ltb_spec (length (positions st) - 1) 1) as [_|?]; [|lia].
  intros [= Hst <-]. by rewrite Hst.
Qed.

(** The awake part of a frame, in full: what [step] and the bookkeeping
    leave on an awake state [base] with a seeded chain. *)
Lemma awake_frame_tidy_2d (io : ports) (moved : bool)
  (dt topX topY bottomX bottomY : float) (base : state) :
  chain_ok base → isSleeping base = false →
  (0 ≤ sleepCounter base < SLEEP_FRAMES)%Z → (2 ≤ length (positions base))%nat →
  ∃ st1 maxVel st',
    step hypot io dt topX topY bottomX bottomY base = Some (st1, maxVel)
    ∧ settle moved maxVel st1 = Some st'
    ∧ tidy st'
    ∧ positions st' = positions st1
    ∧ length (positions st1) = length (positions base)
    ∧ lastTime st' = lastTime base
    ∧ (∀ io', cached io' base → cached io' st')
    ∧ (if negb moved && (maxVel <? VEL_EPS)
       then sleepCounter st' = (sleepCounter base + 1)%Z
            ∧ isSleeping st' = (SLEEP_FRAMES <=? sleepCounter base + 1)%Z
            ∧ (isSleeping st' = true → prevPositions st' = positions st')
            ∧ (isSleeping st' = false → prevPositions st' = prevPositions st1)
       else isSleeping st' = false ∧ sleepCounter st' = 0%Z
            ∧ prevPositions st' = prevPositions st1).
Proof.
  intros Hok Hs Hc Hlen.
  destruct (step_total_2d hypot io dt topX topY bottomX bottomY base Hok)
    as (ps & qs & mv & Hstep & Hl1 & Hl2).
  assert (chain_ok (set_chain ps qs base)) as Hok'.
  { unfold chain_ok in *. simpl. lia. }
  eexists _, mv, _. split; [exact Hstep|]. split; [by apply settle_closed_2d|].
  simpl. rewrite Hs. unfold tidy, chain_ok, cached, SLEEP_FRAMES in *.
  assert (ps ≠ []) as Hne by (intros ->; simpl in *; lia).
  destruct (negb moved && (mv <? VEL_EPS)); [destruct (Z.leb_spec 6 (sleepCounter base + 1))|];
    simpl.
  all: split; [split_and!; try done; try lia; try (right; lia);
               try (intros; lia); try (intros; split; [lia|done])|].
  all: split_and!; try done; lia.
Qed.

(** Every frame on a tidy state returns a tidy state; the output is the
    chain of the new state, which is seeded, and the cache holds the
    ports of the frame. *)
Lemma frame_tidy_2d (io : ports) (now now' : float) (st : state) :
  tidy st →
  ∃ st' out,
    onTriggered hypot io now now' st = Some (st', out)
    ∧ tidy st'
    ∧ out = flatten (positions st')
    ∧ (2 ≤ length (positions st'))%nat
    ∧ cached io st'
    ∧ (positions st ≠ [] → length (positions st') = length (positions st)).
Proof.
  intros Htidy.
  destruct (begin_frame_tidy_2d io now st Htidy) as (Ht0 & Hlen0 & Hs0 & Hc0 & Hcached0 & _).
  pose proof Ht0 as (Hok0 & _ & Hawake0 & _).
  assert (positions st ≠ [] →
          length (positions (begin_frame io now st)) = length (positions st)) as Hkeep.
  { intros Hne. by rewrite begin_frame_seeded_2d. }
  destruct (isSleeping st) eqn:Hs; [destruct (inputsMoved io st) eqn:Hm|].
  - rewrite onTriggered_wake_2d by done.
    destruct (awake_frame_tidy_2d io true 0 (inTopX io) (inTopY io)
                (inBottomX io) (inBottomY io) (woken io now now' st))
      as (st1 & mv & st' & -> & Hsettle & Ht' & Hp' & Hl' & _ & Hcached' & _);
      [by unfold chain_ok | done | done | done |].
    cbn [mbind option_bind]. rewrite Hsettle.
    exists st', (flatten (positions st')). simpl in Hl'.
    split_and!; try done.
    + by rewrite Hp', Hl'.
    + by apply Hcached'.
    + intros Hne. rewrite Hp', Hl'. by apply Hkeep.
  - rewrite onTriggered_asleep_2d by done. eexists _, _. split_and!; done.
  - rewrite onTriggered_awake_2d by done.
    destruct (awake_frame_tidy_2d io (inputsMoved io st) (frame_dt now st)
                (inTopX io) (inTopY io)
                (inBottomX io) (inBottomY io) (begin_frame io now st))
      as (st1 & mv & st' & -> & Hsettle & Ht' & Hp' & Hl' & _ & Hcached' & _);
      [done | done | by apply Hawake0 | done |].
    cbn [mbind option_bind]. rewrite Hsettle.
    exists st', (flatten (positions st')).
    split_and!; try done.
    + by rewrite Hp', Hl'.
    + by apply Hcached'.
    + intros Hne. rewrite Hp', Hl'. by apply Hkeep.
Qed.

(** Every reachable state is tidy. *)
Lemma reachable_tidy_2d (st : state) : reachable hypot st → tidy st.
Proof.
  induction 1 as [t0|io now now' st st' out _ IH Hf|c io st _ IH].
  - apply tidy_initial_2d.
  - destruct (frame_tidy_2d io now now' st IH) as (st1 & out1 & Hf1 & Ht1 & _).
    rewrite Hf in Hf1. by injection Hf1 as -> _.
  - rewrite port_changed_reseeds_2d. destruct c; done || apply tidy_initRope_2d.
Qed.

(** A frame on an awake operator, in full. *)
Lemma awake_frame_2d (f : frame) (st : state) :
  tidy st → isSleeping st = false →
  ∃ st1 maxVel st' out,
    step hypot (f_ports f) (frame_dt (f_now f) st)
      (inTopX (f_ports f)) (inTopY (f_ports f))
      (inBottomX (f_ports f)) (inBottomY (f_ports f))
      (begin_frame (f_ports f) (f_now f) st) = Some (st1, maxVel)
    ∧ onTriggered hypot (f_ports f) (f_now f) (f_now' f) st = Some (st', out)
    ∧ tidy st'
    ∧ positions st' = positions st1
    ∧ still hypot f st = negb (inputsMoved (f_ports f) st) && (maxVel <? VEL_EPS)
    ∧ (if still hypot f st
       then sleepCounter st' = (sleepCounter st + 1)%Z
            ∧ isSleeping st' = (SLEEP_FRAMES <=? sleepCounter st + 1)%Z
            ∧ (isSleeping st' = true → prevPositions st' = positions st')
       else isSleeping st' = false ∧ sleepCounter st' = 0%Z).
Proof.
  intros Htidy Hs. destruct f as [io now now']. simpl.
  destruct (begin_frame_tidy_2d io now st Htidy) as (Ht0 & Hlen0 & Hs0 & Hc0 & _).
  pose proof Ht0 as (Hok0 & _ & Hawake0 & _).
  rewrite Hs in Hs0.
  destruct (awake_frame_tidy_2d io (inputsMoved io st) (frame_dt now st)
              (inTopX io) (inTopY io)
              (inBottomX io) (inBottomY io) (begin_frame io now st))
    as (st1 & mv & st' & Hstep & Hsettle & Ht' & Hp' & _ & _ & _ & Hcases);
    [done | done | by apply Hawake0 | done |].
  exists st1, mv, st', (flatten (positions st')).
  assert (still hypot (Frame io now now') st
          = negb (inputsMoved io st) && (mv <? VEL_EPS)) as Hstill.
  { unfold still, frame_maxVel. simpl. by rewrite Hs, Hstep. }
  split_and!; try done.
  - rewrite onTriggered_awake_2d by done. rewrite Hstep. cbn [mbind option_bind].
    by rewrite Hsettle.
  - rewrite Hstill. rewrite Hc0 in Hcases.
    destruct (negb (inputsMoved io st) && (mv <? VEL_EPS)); [|by destruct Hcases as (? & ? & _)].
    destruct Hcases as (? & ? & ? & _). done.
Qed.

(** An awake operator stays awake for as many frames as its counter is
    away from [SLEEP_FRAMES], whatever the frames. *)
Lemma awake_run_2d (fs : list frame) (st : state) :
  tidy st → isSleeping st = false →
  (sleepCounter st + Z.of_nat (length fs) < SLEEP_FRAMES)%Z →
  ∃ st', run hypot fs st = Some st' ∧ tidy st' ∧ isSleeping st' = false
    ∧ (sleepCounter st' ≤ sleepCounter st + Z.of_nat (length fs))%Z.
Proof.
  revert st. induction fs as [|f fs IH]; intros st Htidy Hs Hc.
  - exists st. simpl. split_and!; try done. lia.
  - destruct (awake_frame_2d f st Htidy Hs)
      as (st1 & mv & st' & out & _ & Hf & Ht' & _ & _ & Hcases).
    pose proof Htidy as (_ & _ & Hawake & _). specialize (Hawake Hs).
    simpl length in Hc.
    assert (isSleeping st' = false ∧ (sleepCounter st' ≤ sleepCounter st + 1)%Z) as [Hs' Hc'].
    { destruct (still hypot f st).
      - destruct Hcases as (-> & -> & _). split; [|lia].
        apply Z.leb_gt. unfold SLEEP_FRAMES in *. lia.
      - destruct Hcases as [-> ->]. split; [done|lia]. }
    destruct (IH st' Ht' Hs') as (st'' & Hrun & Ht'' & Hs'' & Hc''); [lia|].
    exists st''. simpl. rewrite Hf. cbn [mbind option_bind].
    split_and!; try done. lia.
Qed.


(** The first frame after the operator is loaded: the inputs count as
    moved, the chain is seeded from the "Top" ports, [step] runs on it,
    and the frame ends awake with the counter at 0. *)
Lemma first_frame_2d (io : ports) (t0 now now' : float) :
  inputsMoved io (initial t0) = true
  ∧ ∃ st1 maxVel,
      step hypot io (frame_dt now (initial t0))
        (inTopX io) (inTopY io)
        (inBottomX io) (inBottomY io)
        (initRope io (inTopX io) (inTopY io)
           (set_last (inTopX io) (inTopY io)
              (inBottomX io) (inBottomY io)
              (set_lastTime now (initial t0))))
      = Some (st1, maxVel)
      ∧ onTriggered hypot io now now' (initial t0)
        = Some (set_sleep false 0 st1, flatten (positions st1))
      ∧ length (positions st1) = (Z.to_nat (segments io) + 1)%nat.
Proof.
  split; [done|].
  assert (begin_frame io now (initial t0)
          = initRope io (inTopX io) (inTopY io)
              (set_last (inTopX io) (inTopY io)
                 (inBottomX io) (inBottomY io)
                 (set_lastTime now (initial t0)))) as Hb
    by (by apply begin_frame_unseeded_2d).
  destruct (begin_frame_tidy_2d io now (initial t0) (tidy_initial_2d t0)) as ((Hok0 & _) & _).
  destruct (step_fields_2d io (frame_dt now (initial t0))
              (inTopX io) (inTopY io)
              (inBottomX io) (inBottomY io)
              (begin_frame io now (initial t0)) Hok0)
    as (st1 & mv & Hstep & Hl1 & Hl2 & _ & Hs1 & Hc1 & _).
  rewrite <- Hb. exists st1, mv. split; [done|].
  assert (isSleeping (begin_frame io now (initial t0)) = false) as Hs0
    by (by rewrite Hb, initRope_spec_2d).
  split.
  - rewrite onTriggered_awake_2d by done. rewrite Hstep. cbn [mbind option_bind].
    rewrite settle_closed_2d by (unfold chain_ok in *; by rewrite Hl1, Hl2).
    change (inputsMoved io (initial t0)) with true. simpl. by rewrite Hs1, Hs0.
  - rewrite Hl1, Hb, initRope_spec_2d. simpl. apply length_seed_2d.
Qed.

(** Frames take a reachable state to a reachable state. *)
Lemma run_reachable_2d (fs : list frame) (st st' : state) :
  reachable hypot st → run hypot fs st = Some st' → reachable hypot st'.
Proof.
  revert st. induction fs as [|f fs IH]; intros st Hr Hrun; simpl in Hrun.
  - by injection Hrun as <-.
  - destruct (onTriggered hypot (f_ports f) (f_now f) (f_now' f) st)
      as [[st1 out]|] eqn:Hf; [|done].
    apply (IH st1); [|done]. by eapply reach_frame.
Qed.


End WithHypot.

(** The [dt] of a frame is never above 0.05. *)
Lemma frame_dt_bound_2d (now : float) (st : state) : (0.05 <? frame_dt now st) = false.
Proof.
  unfold frame_dt. destruct (0.05 <? (now - lastTime st) / 1000) eqn:E; [|done].
  apply ltb_irrefl.
Qed.

End Rope2DMore.

(** * More properties of the two operators *)

(** X1.  The array sent to the output port holds the coordinates of the
    points in order, three numbers per point: x, y, z in the 3D operator
    and x, y, 0 in the 2D operator. *)
Theorem export_layout (ps3 : list Rope3D.point) (ps2 : list Rope2D.point) :
  (Rope3D.flatten ps3
   = concat (map (λ p, [Rope3D.x p; Rope3D.y p; Rope3D.z p]) ps3)
   ∧ length (Rope3D.flatten ps3) = (3 * length ps3)%nat
   ∧ ∀ i p, ps3 !! i = Some p →
       Rope3D.flatten ps3 !! (3 * i)%nat = Some (Rope3D.x p)
       ∧ Rope3D.flatten ps3 !! (3 * i + 1)%nat = Some (Rope3D.y p)
       ∧ Rope3D.flatten ps3 !! (3 * i + 2)%nat = Some (Rope3D.z p))
  ∧ (Rope2D.flatten ps2
     = concat (map (λ p, [Rope2D.x p; Rope2D.y p; 0]) ps2)
     ∧ length (Rope2D.flatten ps2) = (3 * length ps2)%nat
     ∧ ∀ i p, ps2 !! i = Some p →
         Rope2D.flatten ps2 !! (3 * i)%nat = Some (Rope2D.x p)
         ∧ Rope2D.flatten ps2 !! (3 * i + 1)%nat = Some (Rope2D.y p)
         ∧ Rope2D.flatten ps2 !! (3 * i + 2)%nat = Some 0).
Proof.
  split; split_and!.
  - apply Rope3DMore.flatten_layout.
  - apply Rope3DMore.length_flatten.
  - apply Rope3DMore.flatten_lookup.
  - apply Rope2DMore.flatten_layout_2d.
  - apply Rope2DMore.length_flatten_2d.
  - apply Rope2DMore.flatten_lookup_2d.
Qed.

(** X2.  From every reachable state the frame callback returns (no access
    to a missing array cell); the array it sends is the chain of the new
    state, three numbers per point and at least six numbers; and a frame
    on a seeded chain keeps the number of points. *)
Theorem every_frame_returns
  (hypot3 : float → float → float → float) (hypot2 : float → float → float)
  (io3 : Rope3D.ports) (st3 : Rope3D.state)
  (io2 : Rope2D.ports) (st2 : Rope2D.state) (now now' : float) :
  Rope3D.reachable hypot3 st3 → Rope2D.reachable hypot2 st2 →
  (∃ st' out,
     Rope3D.onTriggered hypot3 io3 now now' st3 = Some (st', out)
     ∧ out = Rope3D.flatten (Rope3D.positions st')
     ∧ length out = (3 * length (Rope3D.positions st'))%nat
     ∧ (6 ≤ length out)%nat
     ∧ (Rope3D.positions st3 ≠ [] →
        length (Rope3D.positions st') = length (Rope3D.positions st3)))
  ∧ (∃ st' out,
       Rope2D.onTriggered hypot2 io2 now now' st2 = Some (st', out)
       ∧ out = Rope2D.flatten (Rope2D.positions st')
       ∧ length out = (3 * length (Rope2D.positions st'))%nat
       ∧ (6 ≤ length out)%nat
       ∧ (Rope2D.positions st2 ≠ [] →
          length (Rope2D.positions st') = length (Rope2D.positions st2))).
Proof.
  intros Hr3 Hr2. split.
  - destruct (Rope3DMore.frame_tidy hypot3 io3 now now' st3
                (Rope3DMore.reachable_tidy hypot3 st3 Hr3))
      as (st' & out & Hf & _ & -> & Hlen & _ & Hkeep).
    exists st', (Rope3D.flatten (Rope3D.positions st')).
    rewrite Rope3DMore.length_flatten. split_and!; try done. lia.
  - destruct (Rope2DMore.frame_tidy_2d hypot2 io2 now now' st2
                (Rope2DMore.reachable_tidy_2d hypot2 st2 Hr2))
      as (st' & out & Hf & _ & -> & Hlen & _ & Hkeep).
    exists st', (Rope2D.flatten (Rope2D.positions st')).
    rewrite Rope2DMore.length_flatten_2d. split_and!; try done. lia.
Qed.

(** X3.  In every reachable state the two arrays have the same length, the
    chain is empty (not seeded yet) or has at least two points, the
    counter of still frames is between 0 and 6, and the sleep flag is set
    exactly when the counter is at 6. *)
Theorem reachable_states
  (hypot3 : float → float → float → float) (hypot2 : float → float → float)
  (st3 : Rope3D.state) (st2 : Rope2D.state) :
  Rope3D.reachable hypot3 st3 → Rope2D.reachable hypot2 st2 →
  (length (Rope3D.prevPositions st3) = length (Rope3D.positions st3)
   ∧ (Rope3D.positions st3 = [] ∨ (2 ≤ length (Rope3D.positions st3))%nat)
   ∧ (0 ≤ Rope3D.sleepCounter st3 ≤ 6)%Z
   ∧ (Rope3D.isSleeping st3 = true ↔ Rope3D.sleepCounter st3 = 6%Z)
   ∧ (Rope3D.positions st3 = [] → Rope3D.sleepCounter st3 = 0%Z))
  ∧ (length (Rope2D.prevPositions st2) = length (Rope2D.positions st2)
     ∧ (Rope2D.positions st2 = [] ∨ (2 ≤ length (Rope2D.positions st2))%nat)
     ∧ (0 ≤ Rope2D.sleepCounter st2 ≤ 6)%Z
     ∧ (Rope2D.isSleeping st2 = true ↔ Rope2D.sleepCounter st2 = 6%Z)
     ∧ (Rope2D.positions st2 = [] → Rope2D.sleepCounter st2 = 0%Z)).
Proof.
  intros Hr3 Hr2. split.
  - destruct (Rope3DMore.reachable_tidy hypot3 st3 Hr3)
      as (Hok & Hlen & Hawake & Hasleep & Hnil).
    unfold Rope3D.chain_ok, Rope3D.SLEEP_FRAMES in *. split_and!; try done.
    + destruct (Rope3D.isSleeping st3); [destruct Hasleep as [-> _]; [done|lia]|].
      destruct Hawake; [done|lia].
    + destruct (Rope3D.isSleeping st3); [destruct Hasleep as [-> _]; [done|lia]|].
      destruct Hawake; [done|lia].
    + split; [by intros [? _]%Hasleep|].
      intros Hc. destruct (Rope3D.isSleeping st3); [done|].
      destruct Hawake; [done|lia].
  - destruct (Rope2DMore.reachable_tidy_2d hypot2 st2 Hr2)
      as (Hok & Hlen & Hawake & Hasleep & Hnil).
    unfold Rope2D.chain_ok, Rope2D.SLEEP_FRAMES in *. split_and!; try done.
    + destruct (Rope2D.isSleeping st2); [destruct Hasleep as [-> _]; [done|lia]|].
      destruct Hawake; [done|lia].
    + destruct (Rope2D.isSleeping st2); [destruct Hasleep as [-> _]; [done|lia]|].
      destruct Hawake; [done|lia].
    + split; [by intros [? _]%Hasleep|].
      intros Hc. destruct (Rope2D.isSleeping st2); [done|].
      destruct Hawake; [done|lia].
Qed.



(** X6.  [step] returns on every state with two arrays of the same length
    and touches nothing but the two arrays: the clock, the sleep flag, the
    counter and the cache of the last inputs stay as they are.  On a chain
    of fewer than two points it changes nothing and returns 0. *)
Theorem step_footprint
  (hypot3 : float → float → float → float) (hypot2 : float → float → float)
  (io3 : Rope3D.ports) (st3 : Rope3D.state)
  (io2 : Rope2D.ports) (st2 : Rope2D.state)
  (dt topX topY topZ bottomX bottomY bottomZ : float) :
  Rope3D.chain_ok st3 → Rope2D.chain_ok st2 →
  (∃ st' maxVel,
     Rope3D.step hypot3 io3 dt topX topY topZ bottomX bottomY bottomZ st3
     = Some (st', maxVel)
     ∧ Rope3D.lastTime st' = Rope3D.lastTime st3
     ∧ Rope3D.isSleeping st' = Rope3D.isSleeping st3
     ∧ Rope3D.sleepCounter st' = Rope3D.sleepCounter st3
     ∧ (Rope3D.lastTopX st' = Rope3D.lastTopX st3
        ∧ Rope3D.lastTopY st' = Rope3D.lastTopY st3
        ∧ Rope3D.lastTopZ st' = Rope3D.lastTopZ st3
        ∧ Rope3D.lastBottomX st' = Rope3D.lastBottomX st3
        ∧ Rope3D.lastBottomY st' = Rope3D.lastBottomY st3
        ∧ Rope3D.lastBottomZ st' = Rope3D.lastBottomZ st3)
     ∧ ((length (Rope3D.positions st3) ≤ 1)%nat → st' = st3 ∧ maxVel = 0))
  ∧ (∃ st' maxVel,
       Rope2D.step hypot2 io2 dt topX topY bottomX bottomY st2 = Some (st', maxVel)
       ∧ Rope2D.lastTime st' = Rope2D.lastTime st2
       ∧ Rope2D.isSleeping st' = Rope2D.isSleeping st2
       ∧ Rope2D.sleepCounter st' = Rope2D.sleepCounter st2
       ∧ (Rope2D.lastTopX st' = Rope2D.lastTopX st2
          ∧ Rope2D.lastTopY st' = Rope2D.lastTopY st2
          ∧ Rope2D.lastBottomX st' = Rope2D.lastBottomX st2
          ∧ Rope2D.lastBottomY st' = Rope2D.lastBottomY st2)
       ∧ ((length (Rope2D.positions st2) ≤ 1)%nat → st' = st2 ∧ maxVel = 0)).
Proof.
  intros Hok3 Hok2. split.
  - destruct (Rope3DFrameFacts.step_total hypot3 io3 dt topX topY topZ
                bottomX bottomY bottomZ st3 Hok3) as (ps & qs & mv & Hstep & _).
    destruct (Rope3DMore.step_fields hypot3 io3 dt topX topY topZ
                bottomX bottomY bottomZ st3 Hok3)
      as (st' & mv' & Hstep' & _ & _ & ? & ? & ? & _ & Hshort).
    exists st', mv'. split_and!; try done;
      rewrite Hstep in Hstep'; by injection Hstep' as <- _.
  - destruct (Rope2DFrameFacts.step_total_2d hypot2 io2 dt topX topY
                bottomX bottomY st2 Hok2) as (ps & qs & mv & Hstep & _).
    destruct (Rope2DMore.step_fields_2d hypot2 io2 dt topX topY
                bottomX bottomY st2 Hok2)
      as (st' & mv' & Hstep' & _ & _ & ? & ? & ? & _ & Hshort).
    exists st', mv'. split_and!; try done;
      rewrite Hstep in Hstep'; by injection Hstep' as <- _.
Qed.

(** X7.  On a chain of N >= 1 segments (one segment included) [step]
    returns with point 0 of the positions at the supplied anchor and, in
    the previous positions, point 0 at the supplied anchor and point N at
    the supplied end: the two end points carry no velocity into the next
    call. *)
Theorem step_pins_previous
  (hypot3 : float → float → float → float) (hypot2 : float → float → float)
  (io3 : Rope3D.ports) (st3 : Rope3D.state) (n3 : nat)
  (io2 : Rope2D.ports) (st2 : Rope2D.state) (n2 : nat)
  (dt topX topY topZ bottomX bottomY bottomZ : float) :
  Rope3D.chain_ok st3 → length (Rope3D.positions st3) = (n3 + 1)%nat → (1 ≤ n3)%nat →
  Rope2D.chain_ok st2 → length (Rope2D.positions st2) = (n2 + 1)%nat → (1 ≤ n2)%nat →
  (∃ st' maxVel,
     Rope3D.step hypot3 io3 dt topX topY topZ bottomX bottomY bottomZ st3
     = Some (st', maxVel)
     ∧ Rope3D.positions st' !! 0%nat = Some (Rope3D.Point topX topY topZ)
     ∧ Rope3D.prevPositions st' !! 0%nat = Some (Rope3D.Point topX topY topZ)
     ∧ Rope3D.prevPositions st' !! n3 = Some (Rope3D.Point bottomX bottomY bottomZ))
  ∧ (∃ st' maxVel,
       Rope2D.step hypot2 io2 dt topX topY bottomX bottomY st2 = Some (st', maxVel)
       ∧ Rope2D.positions st' !! 0%nat = Some (Rope2D.Point topX topY)
       ∧ Rope2D.prevPositions st' !! 0%nat = Some (Rope2D.Point topX topY)
       ∧ Rope2D.prevPositions st' !! n2 = Some (Rope2D.Point bottomX bottomY)).
Proof.
  intros Hok3 Hlen3 Hn3 Hok2 Hlen2 Hn2. split.
  - destruct (Rope3DResults.step_pins hypot3 io3 dt topX topY topZ bottomX bottomY bottomZ
                st3 n3 Hok3 Hlen3 Hn3) as (st' & mv & ? & ? & ? & ? & _).
    by exists st', mv.
  - destruct (Rope2DResults.step_pins_2d hypot2 io2 dt topX topY bottomX bottomY
                st2 n2 Hok2 Hlen2 Hn2) as (st' & mv & ? & ? & ? & ? & _).
    by exists st', mv.
Qed.

(** X8.  A frame on an awake operator that is not a still frame (the inputs
    moved beyond [INPUT_EPS], or the value [step] returns is not below
    [VEL_EPS]) returns, leaves the operator awake and puts the counter of
    still frames back to 0, whatever it was. *)
Theorem counter_reset_by_motion
  (hypot3 : float → float → float → float) (hypot2 : float → float → float)
  (f3 : Rope3D.frame) (st3 : Rope3D.state)
  (f2 : Rope2D.frame) (st2 : Rope2D.state) :
  Rope3D.reachable hypot3 st3 → Rope3D.isSleeping st3 = false →
  Rope3D.still hypot3 f3 st3 = false →
  Rope2D.reachable hypot2 st2 → Rope2D.isSleeping st2 = false →
  Rope2D.still hypot2 f2 st2 = false →
  (∃ st' out,
     Rope3D.onTriggered hypot3 (Rope3D.f_ports f3) (Rope3D.f_now f3) (Rope3D.f_now' f3) st3
     = Some (st', out)
     ∧ Rope3D.isSleeping st' = false ∧ Rope3D.sleepCounter st' = 0%Z)
  ∧ (∃ st' out,
       Rope2D.onTriggered hypot2 (Rope2D.f_ports f2) (Rope2D.f_now f2) (Rope2D.f_now' f2) st2
       = Some (st', out)
       ∧ Rope2D.isSleeping st' = false ∧ Rope2D.sleepCounter st' = 0%Z).
Proof.
  intros Hr3 Hs3 Hn3 Hr2 Hs2 Hn2. split.
  - destruct (Rope3DMore.awake_frame hypot3 f3 st3
                (Rope3DMore.reachable_tidy hypot3 st3 Hr3) Hs3)
      as (st1 & mv & st' & out & _ & Hf & _ & _ & _ & Hcases).
    rewrite Hn3 in Hcases. destruct Hcases as [? ?]. by exists st', out.
  - destruct (Rope2DMore.awake_frame_2d hypot2 f2 st2
                (Rope2DMore.reachable_tidy_2d hypot2 st2 Hr2) Hs2)
      as (st1 & mv & st' & out & _ & Hf & _ & _ & _ & Hcases).
    rewrite Hn2 in Hcases. destruct Hcases as [? ?]. by exists st', out.
Qed.

(** X9.  A frame that takes the operator from awake to asleep is a still
    frame that found the counter at 5; it leaves the counter at 6 and
    every previous position equal to the position, so that the sleeping
    chain holds no velocity. *)
Theorem falling_asleep
  (hypot3 : float → float → float → float) (hypot2 : float → float → float)
  (f3 : Rope3D.frame) (st3 st3' : Rope3D.state) (out3 : list float)
  (f2 : Rope2D.frame) (st2 st2' : Rope2D.state) (out2 : list float) :
  Rope3D.reachable hypot3 st3 → Rope3D.isSleeping st3 = false →
  Rope3D.onTriggered hypot3 (Rope3D.f_ports f3) (Rope3D.f_now f3) (Rope3D.f_now' f3) st3
  = Some (st3', out3) →
  Rope3D.isSleeping st3' = true →
  Rope2D.reachable hypot2 st2 → Rope2D.isSleeping st2 = false →
  Rope2D.onTriggered hypot2 (Rope2D.f_ports f2) (Rope2D.f_now f2) (Rope2D.f_now' f2) st2
  = Some (st2', out2) →
  Rope2D.isSleeping st2' = true →
  (Rope3D.still hypot3 f3 st3 = true
   ∧ Rope3D.sleepCounter st3 = 5%Z ∧ Rope3D.sleepCounter st3' = 6%Z
   ∧ Rope3D.prevPositions st3' = Rope3D.positions st3')
  ∧ (Rope2D.still hypot2 f2 st2 = true
     ∧ Rope2D.sleepCounter st2 = 5%Z ∧ Rope2D.sleepCounter st2' = 6%Z
     ∧ Rope2D.prevPositions st2' = Rope2D.positions st2').
Proof.
  intros Hr3 Hs3 Hf3 Hs3' Hr2 Hs2 Hf2 Hs2'. split.
  - pose proof (Rope3DMore.reachable_tidy hypot3 st3 Hr3) as Ht.
    destruct (Rope3DMore.awake_frame hypot3 f3 st3 Ht Hs3)
      as (st1 & mv & st' & out & _ & Hf & _ & _ & _ & Hcases).
    rewrite Hf3 in Hf. injection Hf as <- <-.
    destruct Ht as (_ & _ & Hawake & _). specialize (Hawake Hs3).
    unfold Rope3D.SLEEP_FRAMES in *.
    destruct (Rope3D.still hypot3 f3 st3).
    + destruct Hcases as (Hc & Hs & Hprev). rewrite Hs3' in Hs.
      symmetry in Hs. apply Z.leb_le in Hs. split_and!; [done|lia|lia|by apply Hprev].
    + destruct Hcases as [Hs _]. congruence.
  - pose proof (Rope2DMore.reachable_tidy_2d hypot2 st2 Hr2) as Ht.
    destruct (Rope2DMore.awake_frame_2d hypot2 f2 st2 Ht Hs2)
      as (st1 & mv & st' & out & _ & Hf & _ & _ & _ & Hcases).
    rewrite Hf2 in Hf. injection Hf as <- <-.
    destruct Ht as (_ & _ & Hawake & _). specialize (Hawake Hs2).
    unfold Rope2D.SLEEP_FRAMES in *.
    destruct (Rope2D.still hypot2 f2 st2).
    + destruct Hcases as (Hc & Hs & Hprev). rewrite Hs2' in Hs.
      symmetry in Hs. apply Z.leb_le in Hs. split_and!; [done|lia|lia|by apply Hprev].
    + destruct Hcases as [Hs _]. congruence.
Qed.

(** X10.  An awake operator whose counter is at [c] stays awake for the
    next [k] frames whenever [c + k < 6], whatever the frames are: the
    operator never falls asleep in fewer than six frames after its
    counter was put back to 0. *)
Theorem no_sleep_before_six_frames
  (hypot3 : float → float → float → float) (hypot2 : float → float → float)
  (fs3 : list Rope3D.frame) (st3 : Rope3D.state)
  (fs2 : list Rope2D.frame) (st2 : Rope2D.state) :
  Rope3D.reachable hypot3 st3 → Rope3D.isSleeping st3 = false →
  (Rope3D.sleepCounter st3 + Z.of_nat (length fs3) < 6)%Z →
  Rope2D.reachable hypot2 st2 → Rope2D.isSleeping st2 = false →
  (Rope2D.sleepCounter st2 + Z.of_nat (length fs2) < 6)%Z →
  (∃ st', Rope3D.run hypot3 fs3 st3 = Some st' ∧ Rope3D.isSleeping st' = false
          ∧ (Rope3D.sleepCounter st' ≤ Rope3D.sleepCounter st3 + Z.of_nat (length fs3))%Z)
  ∧ (∃ st', Rope2D.run hypot2 fs2 st2 = Some st' ∧ Rope2D.isSleeping st' = false
            ∧ (Rope2D.sleepCounter st' ≤ Rope2D.sleepCounter st2 + Z.of_nat (length fs2))%Z).
Proof.
  intros Hr3 Hs3 Hc3 Hr2 Hs2 Hc2. split.
  - destruct (Rope3DMore.awake_run hypot3 fs3 st3
                (Rope3DMore.reachable_tidy hypot3 st3 Hr3) Hs3 Hc3)
      as (st' & ? & _ & ? & ?). by exists st'.
  - destruct (Rope2DMore.awake_run_2d hypot2 fs2 st2
                (Rope2DMore.reachable_tidy_2d hypot2 st2 Hr2) Hs2 Hc2)
      as (st' & ? & _ & ? & ?). by exists st'.
Qed.


(** X12.  After a frame, the cache of the last inputs holds the values of
    the ports the frame read, and a next frame that reads the same values
    finds the inputs unmoved, whatever the values are (infinite and NaN
    included). *)
Theorem constant_inputs_unmoved
  (hypot3 : float → float → float → float) (hypot2 : float → float → float)
  (io3 : Rope3D.ports) (st3 st3' : Rope3D.state) (out3 : list float)
  (io2 : Rope2D.ports) (st2 st2' : Rope2D.state) (out2 : list float)
  (now now' : float) :
  Rope3D.reachable hypot3 st3 →
  Rope3D.onTriggered hypot3 io3 now now' st3 = Some (st3', out3) →
  Rope2D.reachable hypot2 st2 →
  Rope2D.onTriggered hypot2 io2 now now' st2 = Some (st2', out2) →
  (Rope3DStates.cached io3 st3' ∧ Rope3D.inputsMoved io3 st3' = false)
  ∧ (Rope2DStates.cached io2 st2' ∧ Rope2D.inputsMoved io2 st2' = false).
Proof.
  intros Hr3 Hf3 Hr2 Hf2. split.
  - destruct (Rope3DMore.frame_tidy hypot3 io3 now now' st3
                (Rope3DMore.reachable_tidy hypot3 st3 Hr3))
      as (st' & out & Hf & _ & _ & _ & Hc & _).
    rewrite Hf3 in Hf. injection Hf as <- _.
    split; [done|]. by apply Rope3DMore.cached_unmoved.
  - destruct (Rope2DMore.frame_tidy_2d hypot2 io2 now now' st2
                (Rope2DMore.reachable_tidy_2d hypot2 st2 Hr2))
      as (st' & out & Hf & _ & _ & _ & Hc & _).
    rewrite Hf2 in Hf. injection Hf as <- _.
    split; [done|]. by apply Rope2DMore.cached_unmoved_2d.
Qed.

(** X13.  The first frame after the operator is loaded: the inputs count as
    moved (the cache is empty); the empty chain is seeded by [initRope]
    from the "Top" ports; [step] runs on the seeded chain; and the frame
    ends awake with the counter at 0 and a chain of as many points as
    [initRope] laid out. *)
Theorem first_frame_seeds
  (hypot3 : float → float → float → float) (hypot2 : float → float → float)
  (io3 : Rope3D.ports) (io2 : Rope2D.ports) (t0 now now' : float) :
  (Rope3D.inputsMoved io3 (Rope3D.initial t0) = true
   ∧ ∃ st1 maxVel,
       Rope3D.step hypot3 io3 (Rope3D.frame_dt now (Rope3D.initial t0))
         (Rope3D.inTopX io3) (Rope3D.inTopY io3) (Rope3D.inTopZ io3)
         (Rope3D.inBottomX io3) (Rope3D.inBottomY io3) (Rope3D.inBottomZ io3)
         (Rope3D.initRope io3 (Rope3D.inTopX io3) (Rope3D.inTopY io3) (Rope3D.inTopZ io3)
            (Rope3D.set_last (Rope3D.inTopX io3) (Rope3D.inTopY io3) (Rope3D.inTopZ io3)
               (Rope3D.inBottomX io3) (Rope3D.inBottomY io3) (Rope3D.inBottomZ io3)
               (Rope3D.set_lastTime now (Rope3D.initial t0))))
       = Some (st1, maxVel)
       ∧ Rope3D.onTriggered hypot3 io3 now now' (Rope3D.initial t0)
         = Some (Rope3D.set_sleep false 0 st1, Rope3D.flatten (Rope3D.positions st1))
       ∧ length (Rope3D.positions st1) = (Z.to_nat (Rope3D.segments io3) + 1)%nat)
  ∧ (Rope2D.inputsMoved io2 (Rope2D.initial t0) = true
     ∧ ∃ st1 maxVel,
         Rope2D.step hypot2 io2 (Rope2D.frame_dt now (Rope2D.initial t0))
           (Rope2D.inTopX io2) (Rope2D.inTopY io2)
           (Rope2D.inBottomX io2) (Rope2D.inBottomY io2)
           (Rope2D.initRope io2 (Rope2D.inTopX io2) (Rope2D.inTopY io2)
              (Rope2D.set_last (Rope2D.inTopX io2) (Rope2D.inTopY io2)
                 (Rope2D.inBottomX io2) (Rope2D.inBottomY io2)
                 (Rope2D.set_lastTime now (Rope2D.initial t0))))
         = Some (st1, maxVel)
         ∧ Rope2D.onTriggered hypot2 io2 now now' (Rope2D.initial t0)
           = Some (Rope2D.set_sleep false 0 st1, Rope2D.flatten (Rope2D.positions st1))
         ∧ length (Rope2D.positions st1) = (Z.to_nat (Rope2D.segments io2) + 1)%nat).
Proof.
  split; [apply Rope3DMore.first_frame | apply Rope2DMore.first_frame_2d].
Qed.

(** X14.  A frame on an awake operator calls [step] with the time since the
    last frame in seconds, replaced by 0.05 when it is above 0.05: the
    [dt] that [step] receives is never above 0.05. *)
Theorem awake_frame_dt
  (hypot3 : float → float → float → float) (hypot2 : float → float → float)
  (f3 : Rope3D.frame) (st3 : Rope3D.state)
  (f2 : Rope2D.frame) (st2 : Rope2D.state) :
  Rope3D.reachable hypot3 st3 → Rope3D.isSleeping st3 = false →
  Rope2D.reachable hypot2 st2 → Rope2D.isSleeping st2 = false →
  (let io := Rope3D.f_ports f3 in
   let raw := (Rope3D.f_now f3 - Rope3D.lastTime st3) / 1000 in
   let dt := Rope3D.frame_dt (Rope3D.f_now f3) st3 in
   (0.05 <? dt) = false
   ∧ dt = (if 0.05 <? raw then 0.05 else raw)
   ∧ ∃ st1 maxVel st' out,
       Rope3D.step hypot3 io dt
         (Rope3D.inTopX io) (Rope3D.inTopY io) (Rope3D.inTopZ io)
         (Rope3D.inBottomX io) (Rope3D.inBottomY io) (Rope3D.inBottomZ io)
         (Rope3D.begin_frame io (Rope3D.f_now f3) st3) = Some (st1, maxVel)
       ∧ Rope3D.onTriggered hypot3 io (Rope3D.f_now f3) (Rope3D.f_now' f3) st3
         = Some (st', out)
       ∧ Rope3D.positions st' = Rope3D.positions st1
       ∧ out = Rope3D.flatten (Rope3D.positions st1))
  ∧ (let io := Rope2D.f_ports f2 in
     let raw := (Rope2D.f_now f2 - Rope2D.lastTime st2) / 1000 in
     let dt := Rope2D.frame_dt (Rope2D.f_now f2) st2 in
     (0.05 <? dt) = false
     ∧ dt = (if 0.05 <? raw then 0.05 else raw)
     ∧ ∃ st1 maxVel st' out,
         Rope2D.step hypot2 io dt
           (Rope2D.inTopX io) (Rope2D.inTopY io)
           (Rope2D.inBottomX io) (Rope2D.inBottomY io)
           (Rope2D.begin_frame io (Rope2D.f_now f2) st2) = Some (st1, maxVel)
         ∧ Rope2D.onTriggered hypot2 io (Rope2D.f_now f2) (Rope2D.f_now' f2) st2
           = Some (st', out)
         ∧ Rope2D.positions st' = Rope2D.positions st1
         ∧ out = Rope2D.flatten (Rope2D.positions st1)).
Proof.
  intros Hr3 Hs3 Hr2 Hs2. split.
  - split; [apply Rope3DMore.frame_dt_bound|]. split; [done|].
    pose proof (Rope3DMore.reachable_tidy hypot3 st3 Hr3) as Ht.
    destruct (Rope3DMore.frame_tidy hypot3 (Rope3D.f_ports f3) (Rope3D.f_now f3)
                (Rope3D.f_now' f3) st3 Ht) as (st0 & out0 & Hf0 & _ & Hout & _).
    destruct (Rope3DMore.awake_frame hypot3 f3 st3 Ht Hs3)
      as (st1 & mv & st' & out & Hstep & Hf & _ & Hp & _).
    rewrite Hf in Hf0. injection Hf0 as <- <-.
    exists st1, mv, st', out. split_and!; try done. by rewrite <- Hp.
  - split; [apply Rope2DMore.frame_dt_bound_2d|]. split; [done|].
    pose proof (Rope2DMore.reachable_tidy_2d hypot2 st2 Hr2) as Ht.
    destruct (Rope2DMore.frame_tidy_2d hypot2 (Rope2D.f_ports f2) (Rope2D.f_now f2)
                (Rope2D.f_now' f2) st2 Ht) as (st0 & out0 & Hf0 & _ & Hout & _).
    destruct (Rope2DMore.awake_frame_2d hypot2 f2 st2 Ht Hs2)
      as (st1 & mv & st' & out & Hstep & Hf & _ & Hp & _).
    rewrite Hf in Hf0. injection Hf0 as <- <-.
    exists st1, mv, st', out. split_and!; try done. by rewrite <- Hp.
Qed.

(** ** The further properties on the sample chains *)

(** X2 on the sample chains after their first frame. *)
Lemma every_frame_returns_witness :
  (Rope3D.reachable JS.hypot3_ref (Samples.after3 1)
   ∧ Rope2D.reachable JS.hypot2_ref (Samples.after2 1))
  ∧ (∃ st' out,
       Rope3D.onTriggered JS.hypot3_ref Samples.io3_two 32 32 (Samples.after3 1)
       = Some (st', out) ∧ (6 ≤ length out)%nat)
  ∧ (∃ st' out,
       Rope2D.onTriggered JS.hypot2_ref Samples.io2_two 32 32 (Samples.after2 1)
       = Some (st', out) ∧ (6 ≤ length out)%nat).
Proof.
  assert (Rope3D.reachable JS.hypot3_ref (Samples.after3 1)) as H1.
  { apply (Rope3DMore.run_reachable JS.hypot3_ref (map Samples.frame3 (seq 1 1))
             (Rope3D.initial 0)); [apply Rope3D.reach_initial | vm_compute; reflexivity]. }
  assert (Rope2D.reachable JS.hypot2_ref (Samples.after2 1)) as H2.
  { apply (Rope2DMore.run_reachable_2d JS.hypot2_ref (map Samples.frame2 (seq 1 1))
             (Rope2D.initial 0)); [apply Rope2D.reach_initial | vm_compute; reflexivity]. }
  destruct (every_frame_returns JS.hypot3_ref JS.hypot2_ref
              Samples.io3_two (Samples.after3 1) Samples.io2_two (Samples.after2 1)
              32 32 H1 H2)
    as [(s3 & o3 & R3 & _ & _ & L3 & _) (s2 & o2 & R2 & _ & _ & L2 & _)].
  split; [exact (conj H1 H2)|].
  split; [exists s3, o3; exact (conj R3 L3) | exists s2, o2; exact (conj R2 L2)].
Defined.

(** X3 on the sample chains after seven frames, asleep. *)
Lemma reachable_states_witness :
  (Rope3D.reachable JS.hypot3_ref (Samples.after3 7)
   ∧ Rope2D.reachable JS.hypot2_ref (Samples.after2 7))
  ∧ (Rope3D.isSleeping (Samples.after3 7) = true
     ↔ Rope3D.sleepCounter (Samples.after3 7) = 6%Z)
  ∧ (Rope2D.isSleeping (Samples.after2 7) = true
     ↔ Rope2D.sleepCounter (Samples.after2 7) = 6%Z).
Proof.
  assert (Rope3D.reachable JS.hypot3_ref (Samples.after3 7)) as H1.
  { apply (Rope3DMore.run_reachable JS.hypot3_ref (map Samples.frame3 (seq 1 7))
             (Rope3D.initial 0)); [apply Rope3D.reach_initial | vm_compute; reflexivity]. }
  assert (Rope2D.reachable JS.hypot2_ref (Samples.after2 7)) as H2.
  { apply (Rope2DMore.run_reachable_2d JS.hypot2_ref (map Samples.frame2 (seq 1 7))
             (Rope2D.initial 0)); [apply Rope2D.reach_initial | vm_compute; reflexivity]. }
  destruct (reachable_states JS.hypot3_ref JS.hypot2_ref
              (Samples.after3 7) (Samples.after2 7) H1 H2)
    as [(_ & _ & _ & R3 & _) (_ & _ & _ & R2 & _)].
  split; [exact (conj H1 H2)|]. exact (conj R3 R2).
Defined.


(** X6 on the sample chains of two segments. *)
Lemma step_footprint_witness :
  (Rope3D.chain_ok Samples.st3_two ∧ Rope2D.chain_ok Samples.st2_two)
  ∧ (∃ st' maxVel,
       Rope3D.step JS.hypot3_ref Samples.io3_two 0.016 0 2 0 0 0 0 Samples.st3_two
       = Some (st', maxVel)
       ∧ Rope3D.sleepCounter st' = Rope3D.sleepCounter Samples.st3_two)
  ∧ (∃ st' maxVel,
       Rope2D.step JS.hypot2_ref Samples.io2_two 0.016 0 2 0 0 Samples.st2_two
       = Some (st', maxVel)
       ∧ Rope2D.sleepCounter st' = Rope2D.sleepCounter Samples.st2_two).
Proof.
  assert (Rope3D.chain_ok Samples.st3_two) as H1 by (vm_compute; reflexivity).
  assert (Rope2D.chain_ok Samples.st2_two) as H2 by (vm_compute; reflexivity).
  destruct (step_footprint JS.hypot3_ref JS.hypot2_ref
              Samples.io3_two Samples.st3_two Samples.io2_two Samples.st2_two
              0.016 0 2 0 0 0 0 H1 H2)
    as [(s3 & v3 & R3 & _ & _ & C3 & _) (s2 & v2 & R2 & _ & _ & C2 & _)].
  split; [exact (conj H1 H2)|].
  split; [exists s3, v3; exact (conj R3 C3) | exists s2, v2; exact (conj R2 C2)].
Defined.

(** X7 on the sample chains of one segment: the previous position of the
    end point is the supplied end. *)
Lemma step_pins_previous_witness :
  (Rope3D.chain_ok Samples.st3_one
   ∧ length (Rope3D.positions Samples.st3_one) = (1 + 1)%nat ∧ (1 ≤ 1)%nat
   ∧ Rope2D.chain_ok Samples.st2_one
   ∧ length (Rope2D.positions Samples.st2_one) = (1 + 1)%nat)
  ∧ (∃ st' maxVel,
       Rope3D.step JS.hypot3_ref Samples.io3_one 0.016 0 2 0 0 (-2) 0 Samples.st3_one
       = Some (st', maxVel)
       ∧ Rope3D.prevPositions st' !! 1%nat = Some (Rope3D.Point 0 (-2) 0))
  ∧ (∃ st' maxVel,
       Rope2D.step JS.hypot2_ref Samples.io2_one 0.016 0 2 0 (-2) Samples.st2_one
       = Some (st', maxVel)
       ∧ Rope2D.prevPositions st' !! 1%nat = Some (Rope2D.Point 0 (-2))).
Proof.
  assert (Rope3D.chain_ok Samples.st3_one) as H1 by (vm_compute; reflexivity).
  assert (length (Rope3D.positions Samples.st3_one) = (1 + 1)%nat) as H2
    by (vm_compute; reflexivity).
  assert (1 ≤ 1)%nat as H3 by lia.
  assert (Rope2D.chain_ok Samples.st2_one) as H4 by (vm_compute; reflexivity).
  assert (length (Rope2D.positions Samples.st2_one) = (1 + 1)%nat) as H5
    by (vm_compute; reflexivity).
  destruct (step_pins_previous JS.hypot3_ref JS.hypot2_ref
              Samples.io3_one Samples.st3_one 1 Samples.io2_one Samples.st2_one 1
              0.016 0 2 0 0 (-2) 0 H1 H2 H3 H4 H5 H3)
    as [(s3 & v3 & R3 & _ & _ & P3) (s2 & v2 & R2 & _ & _ & P2)].
  split; [exact (conj H1 (conj H2 (conj H3 (conj H4 H5))))|].
  split; [exists s3, v3; exact (conj R3 P3) | exists s2, v2; exact (conj R2 P2)].
Defined.

(** X8 on the sample chains after three frames (counter at 2), with the "Bottom"
    ports moved. *)
Lemma counter_reset_by_motion_witness :
  (Rope3D.reachable JS.hypot3_ref (Samples.after3 3)
   ∧ Rope3D.isSleeping (Samples.after3 3) = false
   ∧ Rope3D.sleepCounter (Samples.after3 3) = 2%Z
   ∧ Rope3D.still JS.hypot3_ref (Rope3D.Frame Samples.io3_moved 64 64) (Samples.after3 3)
     = false
   ∧ Rope2D.reachable JS.hypot2_ref (Samples.after2 3)
   ∧ Rope2D.isSleeping (Samples.after2 3) = false
   ∧ Rope2D.sleepCounter (Samples.after2 3) = 2%Z
   ∧ Rope2D.still JS.hypot2_ref (Rope2D.Frame Samples.io2_moved 64 64) (Samples.after2 3)
     = false)
  ∧ (∃ st' out,
       Rope3D.onTriggered JS.hypot3_ref Samples.io3_moved 64 64 (Samples.after3 3)
       = Some (st', out) ∧ Rope3D.sleepCounter st' = 0%Z)
  ∧ (∃ st' out,
       Rope2D.onTriggered JS.hypot2_ref Samples.io2_moved 64 64 (Samples.after2 3)
       = Some (st', out) ∧ Rope2D.sleepCounter st' = 0%Z).
Proof.
  assert (Rope3D.reachable JS.hypot3_ref (Samples.after3 3)) as H1.
  { apply (Rope3DMore.run_reachable JS.hypot3_ref (map Samples.frame3 (seq 1 3))
             (Rope3D.initial 0)); [apply Rope3D.reach_initial | vm_compute; reflexivity]. }
  assert (Rope3D.isSleeping (Samples.after3 3) = false) as H2 by (vm_compute; reflexivity).
  assert (Rope3D.sleepCounter (Samples.after3 3) = 2%Z) as H3 by (vm_compute; reflexivity).
  assert (Rope3D.still JS.hypot3_ref (Rope3D.Frame Samples.io3_moved 64 64)
            (Samples.after3 3) = false) as H4 by (vm_compute; reflexivity).
  assert (Rope2D.reachable JS.hypot2_ref (Samples.after2 3)) as H5.
  { apply (Rope2DMore.run_reachable_2d JS.hypot2_ref (map Samples.frame2 (seq 1 3))
             (Rope2D.initial 0)); [apply Rope2D.reach_initial | vm_compute; reflexivity]. }
  assert (Rope2D.isSleeping (Samples.after2 3) = false) as H6 by (vm_compute; reflexivity).
  assert (Rope2D.sleepCounter (Samples.after2 3) = 2%Z) as H7 by (vm_compute; reflexivity).
  assert (Rope2D.still JS.hypot2_ref (Rope2D.Frame Samples.io2_moved 64 64)
            (Samples.after2 3) = false) as H8 by (vm_compute; reflexivity).
  destruct (counter_reset_by_motion JS.hypot3_ref JS.hypot2_ref
              (Rope3D.Frame Samples.io3_moved 64 64) (Samples.after3 3)
              (Rope2D.Frame Samples.io2_moved 64 64) (Samples.after2 3)
              H1 H2 H4 H5 H6 H8)
    as [(s3 & o3 & R3 & _ & C3) (s2 & o2 & R2 & _ & C2)].
  split; [exact (conj H1 (conj H2 (conj H3 (conj H4 (conj H5 (conj H6 (conj H7 H8)))))))|].
  split; [exists s3, o3; exact (conj R3 C3) | exists s2, o2; exact (conj R2 C2)].
Defined.

(** X9 on the sample chains: the seventh frame puts them to sleep. *)
Lemma falling_asleep_witness :
  (Rope3D.reachable JS.hypot3_ref (Samples.after3 6)
   ∧ Rope3D.isSleeping (Samples.after3 6) = false
   ∧ Rope3D.onTriggered JS.hypot3_ref Samples.io3_two 112 112 (Samples.after3 6)
     = Some (Samples.after3 7, Rope3D.flatten (Rope3D.positions (Samples.after3 7)))
   ∧ Rope3D.isSleeping (Samples.after3 7) = true
   ∧ Rope2D.reachable JS.hypot2_ref (Samples.after2 6)
   ∧ Rope2D.isSleeping (Samples.after2 6) = false
   ∧ Rope2D.onTriggered JS.hypot2_ref Samples.io2_two 112 112 (Samples.after2 6)
     = Some (Samples.after2 7, Rope2D.flatten (Rope2D.positions (Samples.after2 7)))
   ∧ Rope2D.isSleeping (Samples.after2 7) = true)
  ∧ Rope3D.prevPositions (Samples.after3 7) = Rope3D.positions (Samples.after3 7)
  ∧ Rope2D.prevPositions (Samples.after2 7) = Rope2D.positions (Samples.after2 7).
Proof.
  assert (Rope3D.reachable JS.hypot3_ref (Samples.after3 6)) as H1.
  { apply (Rope3DMore.run_reachable JS.hypot3_ref (map Samples.frame3 (seq 1 6))
             (Rope3D.initial 0)); [apply Rope3D.reach_initial | vm_compute; reflexivity]. }
  assert (Rope3D.isSleeping (Samples.after3 6) = false) as H2 by (vm_compute; reflexivity).
  assert (Rope3D.onTriggered JS.hypot3_ref Samples.io3_two 112 112 (Samples.after3 6)
          = Some (Samples.after3 7, Rope3D.flatten (Rope3D.positions (Samples.after3 7))))
    as H3 by (vm_compute; reflexivity).
  assert (Rope3D.isSleeping (Samples.after3 7) = true) as H4 by (vm_compute; reflexivity).
  assert (Rope2D.reachable JS.hypot2_ref (Samples.after2 6)) as H5.
  { apply (Rope2DMore.run_reachable_2d JS.hypot2_ref (map Samples.frame2 (seq 1 6))
             (Rope2D.initial 0)); [apply Rope2D.reach_initial | vm_compute; reflexivity]. }
  assert (Rope2D.isSleeping (Samples.after2 6) = false) as H6 by (vm_compute; reflexivity).
  assert (Rope2D.onTriggered JS.hypot2_ref Samples.io2_two 112 112 (Samples.after2 6)
          = Some (Samples.after2 7, Rope2D.flatten (Rope2D.positions (Samples.after2 7))))
    as H7 by (vm_compute; reflexivity).
  assert (Rope2D.isSleeping (Samples.after2 7) = true) as H8 by (vm_compute; reflexivity).
  destruct (falling_asleep JS.hypot3_ref JS.hypot2_ref
              (Rope3D.Frame Samples.io3_two 112 112) (Samples.after3 6) (Samples.after3 7)
              (Rope3D.flatten (Rope3D.positions (Samples.after3 7)))
              (Rope2D.Frame Samples.io2_two 112 112) (Samples.after2 6) (Samples.after2 7)
              (Rope2D.flatten (Rope2D.positions (Samples.after2 7)))
              H1 H2 H3 H4 H5 H6 H7 H8)
    as [(_ & _ & _ & P3) (_ & _ & _ & P2)].
  split; [exact (conj H1 (conj H2 (conj H3 (conj H4 (conj H5 (conj H6 (conj H7 H8)))))))|].
  exact (conj P3 P2).
Defined.

(** X10 on the sample chains: awake through the five frames after the
    first. *)
Lemma no_sleep_before_six_frames_witness :
  (Rope3D.reachable JS.hypot3_ref (Samples.after3 1)
   ∧ Rope3D.isSleeping (Samples.after3 1) = false
   ∧ (Rope3D.sleepCounter (Samples.after3 1)
      + Z.of_nat (length (map Samples.frame3 (seq 2 5))) < 6)%Z
   ∧ Rope2D.reachable JS.hypot2_ref (Samples.after2 1)
   ∧ Rope2D.isSleeping (Samples.after2 1) = false
   ∧ (Rope2D.sleepCounter (Samples.after2 1)
      + Z.of_nat (length (map Samples.frame2 (seq 2 5))) < 6)%Z)
  ∧ (∃ st', Rope3D.run JS.hypot3_ref (map Samples.frame3 (seq 2 5)) (Samples.after3 1)
            = Some st' ∧ Rope3D.isSleeping st' = false)
  ∧ (∃ st', Rope2D.run JS.hypot2_ref (map Samples.frame2 (seq 2 5)) (Samples.after2 1)
            = Some st' ∧ Rope2D.isSleeping st' = false).
Proof.
  assert (Rope3D.reachable JS.hypot3_ref (Samples.after3 1)) as H1.
  { apply (Rope3DMore.run_reachable JS.hypot3_ref (map Samples.frame3 (seq 1 1))
             (Rope3D.initial 0)); [apply Rope3D.reach_initial | vm_compute; reflexivity]. }
  assert (Rope3D.isSleeping (Samples.after3 1) = false) as H2 by (vm_compute; reflexivity).
  assert (Rope3D.sleepCounter (Samples.after3 1)
          + Z.of_nat (length (map Samples.frame3 (seq 2 5))) < 6)%Z as H3
    by (vm_compute; reflexivity).
  assert (Rope2D.reachable JS.hypot2_ref (Samples.after2 1)) as H4.
  { apply (Rope2DMore.run_reachable_2d JS.hypot2_ref (map Samples.frame2 (seq 1 1))
             (Rope2D.initial 0)); [apply Rope2D.reach_initial | vm_compute; reflexivity]. }
  assert (Rope2D.isSleeping (Samples.after2 1) = false) as H5 by (vm_compute; reflexivity).
  assert (Rope2D.sleepCounter (Samples.after2 1)
          + Z.of_nat (length (map Samples.frame2 (seq 2 5))) < 6)%Z as H6
    by (vm_compute; reflexivity).
  destruct (no_sleep_before_six_frames JS.hypot3_ref JS.hypot2_ref
              (map Samples.frame3 (seq 2 5)) (Samples.after3 1)
              (map Samples.frame2 (seq 2 5)) (Samples.after2 1) H1 H2 H3 H4 H5 H6)
    as [(s3 & R3 & S3 & _) (s2 & R2 & S2 & _)].
  split; [exact (conj H1 (conj H2 (conj H3 (conj H4 (conj H5 H6)))))|].
  split; [exists s3; exact (conj R3 S3) | exists s2; exact (conj R2 S2)].
Defined.


(** X12 on the first frame of the sample chains. *)
Lemma constant_inputs_unmoved_witness :
  (Rope3D.reachable JS.hypot3_ref (Rope3D.initial 0)
   ∧ Rope3D.onTriggered JS.hypot3_ref Samples.io3_two 16 16 (Rope3D.initial 0)
     = Some (Samples.after3 1, Rope3D.flatten (Rope3D.positions (Samples.after3 1)))
   ∧ Rope2D.reachable JS.hypot2_ref (Rope2D.initial 0)
   ∧ Rope2D.onTriggered JS.hypot2_ref Samples.io2_two 16 16 (Rope2D.initial 0)
     = Some (Samples.after2 1, Rope2D.flatten (Rope2D.positions (Samples.after2 1))))
  ∧ Rope3D.inputsMoved Samples.io3_two (Samples.after3 1) = false
  ∧ Rope2D.inputsMoved Samples.io2_two (Samples.after2 1) = false.
Proof.
  assert (Rope3D.reachable JS.hypot3_ref (Rope3D.initial 0)) as H1
    by apply Rope3D.reach_initial.
  assert (Rope3D.onTriggered JS.hypot3_ref Samples.io3_two 16 16 (Rope3D.initial 0)
          = Some (Samples.after3 1, Rope3D.flatten (Rope3D.positions (Samples.after3 1))))
    as H2 by (vm_compute; reflexivity).
  assert (Rope2D.reachable JS.hypot2_ref (Rope2D.initial 0)) as H3
    by apply Rope2D.reach_initial.
  assert (Rope2D.onTriggered JS.hypot2_ref Samples.io2_two 16 16 (Rope2D.initial 0)
          = Some (Samples.after2 1, Rope2D.flatten (Rope2D.positions (Samples.after2 1))))
    as H4 by (vm_compute; reflexivity).
  destruct (constant_inputs_unmoved JS.hypot3_ref JS.hypot2_ref
              Samples.io3_two (Rope3D.initial 0) (Samples.after3 1)
              (Rope3D.flatten (Rope3D.positions (Samples.after3 1)))
              Samples.io2_two (Rope2D.initial 0) (Samples.after2 1)
              (Rope2D.flatten (Rope2D.positions (Samples.after2 1)))
              16 16 H1 H2 H3 H4) as [[_ M3] [_ M2]].
  split; [exact (conj H1 (conj H2 (conj H3 H4)))|]. exact (conj M3 M2).
Defined.

(** X14 on the sample chains after their first frame. *)
Lemma awake_frame_dt_witness :
  (Rope3D.reachable JS.hypot3_ref (Samples.after3 1)
   ∧ Rope3D.isSleeping (Samples.after3 1) = false
   ∧ Rope2D.reachable JS.hypot2_ref (Samples.after2 1)
   ∧ Rope2D.isSleeping (Samples.after2 1) = false)
  ∧ (0.05 <? Rope3D.frame_dt 100000 (Samples.after3 1)) = false
  ∧ (0.05 <? Rope2D.frame_dt 100000 (Samples.after2 1)) = false.
Proof.
  assert (Rope3D.reachable JS.hypot3_ref (Samples.after3 1)) as H1.
  { apply (Rope3DMore.run_reachable JS.hypot3_ref (map Samples.frame3 (seq 1 1))
             (Rope3D.initial 0)); [apply Rope3D.reach_initial | vm_compute; reflexivity]. }
  assert (Rope3D.isSleeping (Samples.after3 1) = false) as H2 by (vm_compute; reflexivity).
  assert (Rope2D.reachable JS.hypot2_ref (Samples.after2 1)) as H3.
  { apply (Rope2DMore.run_reachable_2d JS.hypot2_ref (map Samples.frame2 (seq 1 1))
             (Rope2D.initial 0)); [apply Rope2D.reach_initial | vm_compute; reflexivity]. }
  assert (Rope2D.isSleeping (Samples.after2 1) = false) as H4 by (vm_compute; reflexivity).
  destruct (awake_frame_dt JS.hypot3_ref JS.hypot2_ref
              (Rope3D.Frame Samples.io3_two 100000 100000) (Samples.after3 1)
              (Rope2D.Frame Samples.io2_two 100000 100000) (Samples.after2 1)
              H1 H2 H3 H4) as [(B3 & _) (B2 & _)].
  split; [exact (conj H1 (conj H2 (conj H3 H4)))|]. exact (conj B3 B2).
Defined.
